(** * The note-editing core of the piano roll (src/gui/editors/PianoRoll.cpp)

    A shallow embedding of the functions of [PianoRoll] that edit the notes
    of the current pattern: [dragNotes], [computeSelectedNotes],
    [shiftSemiTone], [shiftPos], [markSemiTone], [pasteNotes] and the part of
    [mousePressEvent] that places a new note.

    Conventions.
    - A C++ [int] (and [tick_t], the tick count of a [MidiTime]) is a [Z].
      Signed overflow is undefined in C++ and lies outside the model; every
      statement below holds for all of [Z], hence for every run that stays
      inside the [int] range.
    - [/] between two [int]s truncates toward zero: [Z.quot].  [%] is [Z.rem].
    - The note vector of a pattern ([NoteVector], a vector of [Note*]) is a
      [list] of note values in iteration order; a loop that mutates the notes
      it visits returns the updated list.
    - [m_pattern] may be [NULL]: [option].  A function that dereferences it
      without a test returns [None] there. *)

From Stdlib Require Import ZArith List Bool Lia Permutation Sorted.
From Equations Require Import Equations.
Import ListNotations.
Local Open Scope Z_scope.

(** ** Notes *)

Module Note.

(** Modelled from the spec: the class [Note] lives in Note.h and Note.cpp,
    outside the file modelled here.  The fields are those of the data model:
    position, length, key, volume, panning, the selection flag and the
    snapshot taken when a gesture starts.  [isPlaying] and the detuning
    curve play no part in the functions modelled here and are left out. *)
Record t : Type := mk {
  pos : Z;
  length : Z;
  key : Z;
  volume : Z;
  panning : Z;
  selected : bool;
  oldPos : Z;
  oldLength : Z;
  oldKey : Z
}.

(** Modelled from the spec: the setters of [Note] store the value they are
    given ("store operations never raise for out-of-range key/position;
    callers are responsible for clamping before mutation"). *)
Definition setPos (p : Z) (n : t) : t :=
  mk p (length n) (key n) (volume n) (panning n) (selected n)
     (oldPos n) (oldLength n) (oldKey n).

Definition setLength (l : Z) (n : t) : t :=
  mk (pos n) l (key n) (volume n) (panning n) (selected n)
     (oldPos n) (oldLength n) (oldKey n).

Definition setKey (k : Z) (n : t) : t :=
  mk (pos n) (length n) k (volume n) (panning n) (selected n)
     (oldPos n) (oldLength n) (oldKey n).

Definition setVolume (v : Z) (n : t) : t :=
  mk (pos n) (length n) (key n) v (panning n) (selected n)
     (oldPos n) (oldLength n) (oldKey n).

Definition setPanning (p : Z) (n : t) : t :=
  mk (pos n) (length n) (key n) (volume n) p (selected n)
     (oldPos n) (oldLength n) (oldKey n).

Definition setSelected (b : bool) (n : t) : t :=
  mk (pos n) (length n) (key n) (volume n) (panning n) b
     (oldPos n) (oldLength n) (oldKey n).

Definition setOldPos (p : Z) (n : t) : t :=
  mk (pos n) (length n) (key n) (volume n) (panning n) (selected n)
     p (oldLength n) (oldKey n).

Definition setOldLength (l : Z) (n : t) : t :=
  mk (pos n) (length n) (key n) (volume n) (panning n) (selected n)
     (oldPos n) l (oldKey n).

Definition setOldKey (k : Z) (n : t) : t :=
  mk (pos n) (length n) (key n) (volume n) (panning n) (selected n)
     (oldPos n) (oldLength n) k.

(** [endPos()]: the tick at which the note ends. *)
Definition endPos (n : t) : Z := pos n + length n.

(** Modelled from the spec: [Note( length, pos, key )], the constructor used
    when a note is drawn.  Volume and panning are set by the caller right
    after; a fresh note is not selected and its snapshot repeats its
    state. *)
Definition create (len p k : Z) : t := mk p len k 0 0 false p len k.

End Note.

(** ** Chords and scales *)

(** Modelled from the spec: [InstrumentFunctionNoteStacking::Chord] is
    declared outside the file modelled here.  An entry of the chord table is its list of
    semitone intervals together with its kind, "scale" (repeats every
    octave) or "chord" (bounded). *)
Record Chord : Type := mkChord {
  semiTones : list Z;
  isScale : bool
}.

Definition chord_isEmpty (c : Chord) : bool :=
  match semiTones c with [] => true | _ :: _ => false end.

Definition chord_last (c : Chord) : Z := List.last (semiTones c) 0.

Definition hasSemiTone (c : Chord) (semi_tone : Z) : bool :=
  existsb (Z.eqb semi_tone) (semiTones c).

(** ** The editor *)

Inductive Actions : Type :=
| ActionNone
| ActionMoveNote
| ActionResizeNote
| ActionSelectNotes
| ActionChangeNoteProperty
| ActionResizeNoteEditArea.

Inductive EditModes : Type :=
| ModeDraw
| ModeErase
| ModeSelect
| ModeEditDetuning.

Inductive SemiToneMarkerAction : Type :=
| stmaUnmarkAll
| stmaMarkCurrentSemiTone
| stmaMarkCurrentScale
| stmaMarkCurrentChord.

Definition Actions_eqb (a b : Actions) : bool :=
  match a, b with
  | ActionNone, ActionNone
  | ActionMoveNote, ActionMoveNote
  | ActionResizeNote, ActionResizeNote
  | ActionSelectNotes, ActionSelectNotes
  | ActionChangeNoteProperty, ActionChangeNoteProperty
  | ActionResizeNoteEditArea, ActionResizeNoteEditArea => true
  | _, _ => false
  end.

Definition EditModes_eqb (a b : EditModes) : bool :=
  match a, b with
  | ModeDraw, ModeDraw
  | ModeErase, ModeErase
  | ModeSelect, ModeSelect
  | ModeEditDetuning, ModeEditDetuning => true
  | _, _ => false
  end.

(** A combo box of the tool bar ([m_quantizeModel], [m_noteLenModel]):
    [value()] is the index of the current entry; the entries past the first
    are labelled "1/<d>" and [cb_denominator] is the [d] of the current one,
    that is [text.right( text.length() - 2 ).toInt()]. *)
Record ComboBoxModel : Type := mkComboBox {
  cb_value : Z;
  cb_denominator : Z
}.

(** The members of [PianoRoll] read or written by the modelled functions.
    [height] is the widget's [height()], [ticksPerTact] the current value of
    [MidiTime::ticksPerTact()], [m_timeLinePos] is [m_timeLine->pos()];
    [m_scale] and [m_chord] are the entries the chord table returns for the
    current texts of [m_scaleModel] and [m_chordModel] (the empty chord when
    there is none). *)
Record PianoRoll : Type := mkPianoRoll {
  m_pattern : option (list Note.t);
  m_action : Actions;
  m_editMode : EditModes;
  m_startedWithShift : bool;
  m_moveStartX : Z;
  m_moveStartY : Z;
  m_mouseDownTick : Z;
  m_mouseDownKey : Z;
  m_moveBoundaryLeft : Z;
  m_moveBoundaryTop : Z;
  m_moveBoundaryRight : Z;
  m_moveBoundaryBottom : Z;
  m_selectStartTick : Z;
  m_selectedTick : Z;
  m_selectStartKey : Z;
  m_selectedKeys : Z;
  m_ppt : Z;
  m_currentPosition : Z;
  m_startKey : Z;
  m_notesEditHeight : Z;
  height : Z;
  ticksPerTact : Z;
  m_timeLinePos : Z;
  m_lenOfNewNotes : Z;
  m_lastNoteVolume : Z;
  m_lastNotePanning : Z;
  m_quantizeModel : ComboBoxModel;
  m_noteLenModel : ComboBoxModel;
  m_scale : Chord;
  m_chord : Chord;
  m_markedSemiTones : list Z
}.

Definition set_pattern (p : option (list Note.t)) (s : PianoRoll) : PianoRoll :=
  mkPianoRoll p (m_action s) (m_editMode s) (m_startedWithShift s)
    (m_moveStartX s) (m_moveStartY s) (m_mouseDownTick s) (m_mouseDownKey s)
    (m_moveBoundaryLeft s) (m_moveBoundaryTop s) (m_moveBoundaryRight s)
    (m_moveBoundaryBottom s) (m_selectStartTick s) (m_selectedTick s)
    (m_selectStartKey s) (m_selectedKeys s) (m_ppt s) (m_currentPosition s)
    (m_startKey s) (m_notesEditHeight s) (height s) (ticksPerTact s)
    (m_timeLinePos s) (m_lenOfNewNotes s) (m_lastNoteVolume s)
    (m_lastNotePanning s) (m_quantizeModel s) (m_noteLenModel s) (m_scale s)
    (m_chord s) (m_markedSemiTones s).

Definition set_lenOfNewNotes (l : Z) (s : PianoRoll) : PianoRoll :=
  mkPianoRoll (m_pattern s) (m_action s) (m_editMode s) (m_startedWithShift s)
    (m_moveStartX s) (m_moveStartY s) (m_mouseDownTick s) (m_mouseDownKey s)
    (m_moveBoundaryLeft s) (m_moveBoundaryTop s) (m_moveBoundaryRight s)
    (m_moveBoundaryBottom s) (m_selectStartTick s) (m_selectedTick s)
    (m_selectStartKey s) (m_selectedKeys s) (m_ppt s) (m_currentPosition s)
    (m_startKey s) (m_notesEditHeight s) (height s) (ticksPerTact s)
    (m_timeLinePos s) l (m_lastNoteVolume s)
    (m_lastNotePanning s) (m_quantizeModel s) (m_noteLenModel s) (m_scale s)
    (m_chord s) (m_markedSemiTones s).

Definition set_moveBoundaryLeft (b : Z) (s : PianoRoll) : PianoRoll :=
  mkPianoRoll (m_pattern s) (m_action s) (m_editMode s) (m_startedWithShift s)
    (m_moveStartX s) (m_moveStartY s) (m_mouseDownTick s) (m_mouseDownKey s)
    b (m_moveBoundaryTop s) (m_moveBoundaryRight s)
    (m_moveBoundaryBottom s) (m_selectStartTick s) (m_selectedTick s)
    (m_selectStartKey s) (m_selectedKeys s) (m_ppt s) (m_currentPosition s)
    (m_startKey s) (m_notesEditHeight s) (height s) (ticksPerTact s)
    (m_timeLinePos s) (m_lenOfNewNotes s) (m_lastNoteVolume s)
    (m_lastNotePanning s) (m_quantizeModel s) (m_noteLenModel s) (m_scale s)
    (m_chord s) (m_markedSemiTones s).

Definition set_markedSemiTones (m : list Z) (s : PianoRoll) : PianoRoll :=
  mkPianoRoll (m_pattern s) (m_action s) (m_editMode s) (m_startedWithShift s)
    (m_moveStartX s) (m_moveStartY s) (m_mouseDownTick s) (m_mouseDownKey s)
    (m_moveBoundaryLeft s) (m_moveBoundaryTop s) (m_moveBoundaryRight s)
    (m_moveBoundaryBottom s) (m_selectStartTick s) (m_selectedTick s)
    (m_selectStartKey s) (m_selectedKeys s) (m_ppt s) (m_currentPosition s)
    (m_startKey s) (m_notesEditHeight s) (height s) (ticksPerTact s)
    (m_timeLinePos s) (m_lenOfNewNotes s) (m_lastNoteVolume s)
    (m_lastNotePanning s) (m_quantizeModel s) (m_noteLenModel s) (m_scale s)
    (m_chord s) m.

(** [removeSelection()]: the selection rectangle is reset to all zeros. *)
Definition removeSelection (s : PianoRoll) : PianoRoll :=
  mkPianoRoll (m_pattern s) (m_action s) (m_editMode s) (m_startedWithShift s)
    (m_moveStartX s) (m_moveStartY s) (m_mouseDownTick s) (m_mouseDownKey s)
    (m_moveBoundaryLeft s) (m_moveBoundaryTop s) (m_moveBoundaryRight s)
    (m_moveBoundaryBottom s) 0 0 0 0 (m_ppt s) (m_currentPosition s)
    (m_startKey s) (m_notesEditHeight s) (height s) (ticksPerTact s)
    (m_timeLinePos s) (m_lenOfNewNotes s) (m_lastNoteVolume s)
    (m_lastNotePanning s) (m_quantizeModel s) (m_noteLenModel s) (m_scale s)
    (m_chord s) (m_markedSemiTones s).

(** The caller of [computeSelectedNotes] has put the rectangle in
    [m_selectStartTick], [m_selectedTick], [m_selectStartKey] and
    [m_selectedKeys] (mouse handlers, [selectAll]). *)
Definition set_selection (startTick ticks startKey keys : Z) (s : PianoRoll)
  : PianoRoll :=
  mkPianoRoll (m_pattern s) (m_action s) (m_editMode s) (m_startedWithShift s)
    (m_moveStartX s) (m_moveStartY s) (m_mouseDownTick s) (m_mouseDownKey s)
    (m_moveBoundaryLeft s) (m_moveBoundaryTop s) (m_moveBoundaryRight s)
    (m_moveBoundaryBottom s) startTick ticks startKey keys (m_ppt s)
    (m_currentPosition s)
    (m_startKey s) (m_notesEditHeight s) (height s) (ticksPerTact s)
    (m_timeLinePos s) (m_lenOfNewNotes s) (m_lastNoteVolume s)
    (m_lastNotePanning s) (m_quantizeModel s) (m_noteLenModel s) (m_scale s)
    (m_chord s) (m_markedSemiTones s).

Definition hasValidPattern (s : PianoRoll) : bool :=
  match m_pattern s with Some _ => true | None => false end.

(** Layout constants of the file. *)
Definition SCROLLBAR_SIZE : Z := 16.
Definition WHITE_KEY_WIDTH : Z := 64.
Definition KEY_LINE_HEIGHT : Z := 12.
Definition NOTE_EDIT_RESIZE_BAR : Z := 6.
Definition PR_BOTTOM_MARGIN : Z := SCROLLBAR_SIZE.
Definition PR_TOP_MARGIN : Z := 16.
Definition RESIZE_AREA_WIDTH : Z := 4.
Definition NOTE_EDIT_LINE_WIDTH : Z := 3.

(** [KeysPerOctave] comes from a header outside this file; the file
    records its value where it defines [OCTAVE_HEIGHT]
    ("KEY_LINE_HEIGHT * KeysPerOctave; // = 12 * 12"). *)
Definition KeysPerOctave : Z := 12.

Definition qMax (a b : Z) : Z := if a <? b then b else a.
Definition qMin (a b : Z) : Z := if b <? a then b else a.

(** [floor] of <math.h> as the file uses it: its argument is the quotient of
    two [int]s, computed in [int] and then promoted to [double]; the value
    is integral already and [floor] returns it as it is. *)
Definition floor (q : Z) : Z := q.

Definition keyAreaBottom (s : PianoRoll) : Z :=
  height s - PR_BOTTOM_MARGIN - m_notesEditHeight s.

Definition noteEditTop (s : PianoRoll) : Z :=
  height s - PR_BOTTOM_MARGIN - m_notesEditHeight s + NOTE_EDIT_RESIZE_BAR.

Section Editor.

(** Constants of headers outside this file: the number of octaves of the
    keyboard and the ticks of a default (4/4) bar. *)
Variable NumOctaves : Z.
Variable DefaultTicksPerTact : Z.

(** Glossary of the specification: [NumKeys] keys in all, across
    [NumOctaves] octaves of [KeysPerOctave] keys each. *)
Definition NumKeys : Z := NumOctaves * KeysPerOctave.

Definition getKey (s : PianoRoll) (y : Z) : Z :=
  let key_line_y := keyAreaBottom s - 1 in
  let key_num := Z.quot (key_line_y - y) KEY_LINE_HEIGHT in
  let key_num := key_num + m_startKey s in
  let key_num := if key_num <? 0 then 0 else key_num in
  if KeysPerOctave * NumOctaves <=? key_num
  then KeysPerOctave * NumOctaves - 1
  else key_num.

Definition newNoteLen (s : PianoRoll) : Z :=
  if cb_value (m_noteLenModel s) =? 0
  then m_lenOfNewNotes s
  else Z.quot DefaultTicksPerTact (cb_denominator (m_noteLenModel s)).

Definition quantization (s : PianoRoll) : Z :=
  if cb_value (m_quantizeModel s) =? 0
  then
    if 0 <? cb_value (m_noteLenModel s)
    then newNoteLen s
    else Z.quot DefaultTicksPerTact 16
  else Z.quot DefaultTicksPerTact (cb_denominator (m_quantizeModel s)).

(** *** [dragNotes] *)

(** Lines 2382-2387: the offset in ticks as quantized when alt is not
    held. *)
Definition quantizeOffset (off_ticks q : Z) : Z :=
  floor (Z.quot off_ticks q) * q.

(** The offsets in ticks and keys, up to and including the quantization. *)
Definition dragOffTicks (s : PianoRoll) (x : Z) (alt : bool) : Z :=
  let off_x := x - m_moveStartX s in
  let off_ticks := Z.quot (off_x * ticksPerTact s) (m_ppt s) in
  let off_ticks := off_ticks - (m_mouseDownTick s - m_currentPosition s) in
  if negb alt then quantizeOffset off_ticks (quantization s) else off_ticks.

Definition dragOffKey (s : PianoRoll) (y : Z) : Z :=
  let off_key := getKey s y - getKey s (m_moveStartY s) in
  off_key - (m_mouseDownKey s - m_startKey s).

(** [m_action == ActionMoveNote && ! ( shift && ! m_startedWithShift )] *)
Definition movingNotes (s : PianoRoll) (shift : bool) : bool :=
  Actions_eqb (m_action s) ActionMoveNote
  && negb (shift && negb (m_startedWithShift s)).

(** Lines 2389-2404: the offsets after the boundary checks. *)
Definition boundOffTicks (s : PianoRoll) (shift : bool) (off_ticks : Z) : Z :=
  if movingNotes s shift
  then
    if m_moveBoundaryLeft s + off_ticks <? 0
    then off_ticks + (0 - (off_ticks + m_moveBoundaryLeft s))
    else off_ticks
  else off_ticks.

Definition boundOffKey (s : PianoRoll) (shift : bool) (off_key : Z) : Z :=
  if movingNotes s shift
  then
    let off_key :=
      if NumKeys <? m_moveBoundaryTop s + off_key
      then off_key - (NumKeys - (m_moveBoundaryTop s + off_key))
      else off_key in
    if m_moveBoundaryBottom s + off_key <? 0
    then off_key + (0 - (m_moveBoundaryBottom s + off_key))
    else off_key
  else off_key.

(** The variables the loop over the notes carries along. *)
Record DragVars : Type := mkDragVars {
  shift_offset : Z;
  shift_ref_pos : Z;
  lenOfNewNotes : Z
}.

(** One pass of the body of the loop (lines 2416-2481) over a note. *)
Definition dragNote (s : PianoRoll) (shift : bool) (off_ticks off_key : Z)
  (v : DragVars) (note : Note.t) : Note.t * DragVars :=
  let pos := Note.pos note in
  let note :=
    if Actions_eqb (m_action s) ActionResizeNote && shift
    then
      let shifted_pos := Note.oldPos note + shift_offset v in
      let shifted_pos :=
        if negb (shifted_pos =? 0) && (pos =? shift_ref_pos v)
        then shifted_pos - off_ticks
        else shifted_pos in
      Note.setPos shifted_pos note
    else note in
  if Note.selected note
  then
    if movingNotes s shift
    then
      let pos_ticks := Note.oldPos note + off_ticks in
      let key_num := Note.oldKey note + off_key in
      let pos_ticks := qMax 0 pos_ticks in
      let key_num := qMax 0 key_num in
      let key_num := qMin key_num NumKeys in
      (Note.setKey key_num (Note.setPos pos_ticks note), v)
    else if Actions_eqb (m_action s) ActionResizeNote
    then
      let ticks_new := Note.oldLength note + off_ticks in
      let '(ticks_new, v) :=
        if ticks_new <=? 0
        then (1, v)
        else if shift
        then
          if shift_ref_pos v <? pos
          then (ticks_new,
                mkDragVars (shift_offset v + off_ticks) pos (lenOfNewNotes v))
          else (ticks_new, v)
        else (ticks_new, v) in
      let note := Note.setLength ticks_new note in
      (note, mkDragVars (shift_offset v) (shift_ref_pos v) (Note.length note))
    else if Actions_eqb (m_action s) ActionMoveNote
            && (shift && negb (m_startedWithShift s))
    then
      let ticks_new := Note.oldLength note + off_ticks in
      let ticks_new := if ticks_new <=? 0 then 1 else ticks_new in
      let note := Note.setLength ticks_new note in
      (note, mkDragVars (shift_offset v) (shift_ref_pos v) (Note.length note))
    else (note, v)
  else (note, v).

Fixpoint dragLoop (s : PianoRoll) (shift : bool) (off_ticks off_key : Z)
  (v : DragVars) (notes : list Note.t) : list Note.t * DragVars :=
  match notes with
  | [] => ([], v)
  | note :: rest =>
      let '(note', v') := dragNote s shift off_ticks off_key v note in
      let '(rest', v'') := dragLoop s shift off_ticks off_key v' rest in
      (note' :: rest', v'')
  end.

(** [dragNotes( x, y, alt, shift )].  [m_pattern] is dereferenced without a
    test: [None] when there is no pattern. *)
Definition dragNotes (s : PianoRoll) (x y : Z) (alt shift : bool)
  : option PianoRoll :=
  let off_ticks := boundOffTicks s shift (dragOffTicks s x alt) in
  let off_key := boundOffKey s shift (dragOffKey s y) in
  match m_pattern s with
  | None => None
  | Some notes =>
      let '(notes', v) :=
        dragLoop s shift off_ticks off_key
          (mkDragVars 0 (-1) (m_lenOfNewNotes s)) notes in
      Some (set_lenOfNewNotes (lenOfNewNotes v) (set_pattern (Some notes') s))
  end.

(** A sequence of drag updates of one gesture, each with its pointer
    position and modifiers. *)
Fixpoint dragSeq (s : PianoRoll) (updates : list (Z * Z * bool * bool))
  : option PianoRoll :=
  match updates with
  | [] => Some s
  | (x, y, alt, shift) :: rest =>
      match dragNotes s x y alt shift with
      | None => None
      | Some s' => dragSeq s' rest
      end
  end.

(** *** The start of a gesture

    [mousePressEvent], lines 1388-1424: every note remembers its state and
    the bounding box of the selected notes is computed. *)
Definition rememberStart (note : Note.t) : Note.t :=
  Note.setOldLength (Note.length note)
    (Note.setOldPos (Note.pos note)
       (Note.setOldKey (Note.key note) note)).

(** The box is (left, right, bottom, top); [None] while [first] is still
    true. *)
Definition growBox (box : option (Z * Z * Z * Z)) (note : Note.t)
  : option (Z * Z * Z * Z) :=
  if Note.selected note
  then
    match box with
    | None =>
        Some (Note.pos note, Note.endPos note, Note.key note, Note.key note)
    | Some (l, r, b, t) =>
        Some (qMin (Note.pos note) l, qMax (Note.endPos note) r,
              qMin (Note.key note) b, qMax (Note.key note) t)
    end
  else box.

Definition boundingBox (notes : list Note.t) : option (Z * Z * Z * Z) :=
  fold_left growBox notes None.

(** *** Selection *)

Definition clearSelectedNotes (s : PianoRoll) : PianoRoll :=
  match m_pattern s with
  | None => s
  | Some notes => set_pattern (Some (map (Note.setSelected false) notes)) s
  end.

Definition isSelection (notes : list Note.t) : bool :=
  existsb Note.selected notes.

(** The test of lines 1780-1783, with the length of the note replaced as in
    lines 1764-1773; a note of length 0 is skipped before the test. *)
Definition inSelection (s : PianoRoll) (note : Note.t) : bool :=
  let sel_pos_start := m_selectStartTick s in
  let sel_pos_end := m_selectStartTick s + m_selectedTick s in
  let '(sel_pos_start, sel_pos_end) :=
    if sel_pos_end <? sel_pos_start
    then (sel_pos_end, sel_pos_start)
    else (sel_pos_start, sel_pos_end) in
  let sel_key_start := m_selectStartKey s - m_startKey s + 1 in
  let sel_key_end := sel_key_start + m_selectedKeys s in
  let '(sel_key_start, sel_key_end) :=
    if sel_key_end <? sel_key_start
    then (sel_key_end, sel_key_start)
    else (sel_key_start, sel_key_end) in
  let len_ticks := Note.length note in
  if len_ticks =? 0
  then false
  else
    let len_ticks := if len_ticks <? 0 then 4 else len_ticks in
    let key := Note.key note - m_startKey s + 1 in
    let pos_ticks := Note.pos note in
    (sel_key_start <? key) && (key <=? sel_key_end)
    && (sel_pos_start <? pos_ticks + len_ticks)
    && (pos_ticks <? sel_pos_end).

(** The body of the loop of [computeSelectedNotes]. *)
Definition selectNote (s : PianoRoll) (shift : bool) (note : Note.t)
  : Note.t :=
  let note := if negb shift then Note.setSelected false note else note in
  if inSelection s note
  then
    let selected := shift && Note.selected note in
    Note.setSelected (negb selected) note
  else note.

(** The test of lines 1725-1728: "there's no selection". *)
Definition noSelection (s : PianoRoll) : bool :=
  (m_selectStartTick s =? 0) && (m_selectedTick s =? 0)
  && (m_selectStartKey s =? 0) && (m_selectedKeys s =? 0).

Definition computeSelectedNotes (s : PianoRoll) (shift : bool) : PianoRoll :=
  if noSelection s
  then s
  else
    let s' :=
      match m_pattern s with
      | Some notes => set_pattern (Some (map (selectNote s shift) notes)) s
      | None => s
      end in
    removeSelection s'.

(** *** [shiftSemiTone] and [shiftPos] *)

Definition shiftSemiTone (s : PianoRoll) (amount : Z) : option PianoRoll :=
  match m_pattern s with
  | None => None
  | Some notes =>
      let useAllNotes := negb (isSelection notes) in
      let step note :=
        if useAllNotes || Note.selected note
        then Note.setKey (Note.key note + amount) note
        else note in
      Some (set_pattern (Some (map step notes)) s)
  end.

(** The test of line 806. *)
Definition shiftsPos (useAllNotes : bool) (note : Note.t) : bool :=
  Note.selected note || (useAllNotes && (0 <? Note.length note)).

(** The loop of [shiftPos] carries [amount], [first] and
    [m_moveBoundaryLeft]. *)
Fixpoint shiftPosLoop (useAllNotes : bool) (amount : Z) (first : bool)
  (boundary : Z) (notes : list Note.t) : list Note.t * Z :=
  match notes with
  | [] => ([], boundary)
  | note :: rest =>
      if shiftsPos useAllNotes note
      then
        let boundary := if first then Note.pos note else boundary in
        let amount :=
          if first && (boundary + amount <? 0)
          then amount + (0 - (amount + boundary))
          else amount in
        let note := Note.setPos (Note.pos note + amount) note in
        let '(rest', boundary') := shiftPosLoop useAllNotes amount false boundary rest in
        (note :: rest', boundary')
      else
        let '(rest', boundary') := shiftPosLoop useAllNotes amount first boundary rest in
        (note :: rest', boundary')
  end.

Definition shiftPos (s : PianoRoll) (amount : Z) : option PianoRoll :=
  match m_pattern s with
  | None => None
  | Some notes =>
      let useAllNotes := negb (isSelection notes) in
      let '(notes', boundary) :=
        shiftPosLoop useAllNotes amount true (m_moveBoundaryLeft s) notes in
      Some (set_moveBoundaryLeft boundary (set_pattern (Some notes') s))
  end.

(** *** [markSemiTone] *)

(** The integers [first], [first + 1], ..., [last] of a [for] loop with the
    test [i <= last]. *)
Definition upTo (first last : Z) : list Z :=
  map (fun n => first + Z.of_nat n) (seq 0 (Z.to_nat (last - first + 1))).

(** [qSort( begin, end, qGreater<int>() )]: descending order. *)
Fixpoint insertGreater (x : Z) (l : list Z) : list Z :=
  match l with
  | [] => [x]
  | y :: l' => if y <? x then x :: l else y :: insertGreater x l'
  end.

Definition qSortGreater (l : list Z) : list Z :=
  fold_right insertGreater [] l.

(** [std::unique] followed by [erase]: of every run of equal neighbours
    the first is kept. *)
Fixpoint unique (l : list Z) : list Z :=
  match l with
  | [] => []
  | x :: l' =>
      match l' with
      | [] => [x]
      | y :: _ => if x =? y then unique l' else x :: unique l'
      end
  end.

(** [qFind] followed by [erase( it )]: the first occurrence goes. *)
Fixpoint eraseFirst (x : Z) (l : list Z) : list Z :=
  match l with
  | [] => []
  | y :: l' => if y =? x then l' else y :: eraseFirst x l'
  end.

(** The marks pushed by the loop of lines 485-491. *)
Definition markedBy (chord : Chord) (key : Z) : list Z :=
  let first := if isScale chord then 0 else key in
  let last := if isScale chord then NumKeys else key + chord_last chord in
  let cap :=
    if isScale chord || (chord_last chord =? 0)
    then KeysPerOctave
    else chord_last chord in
  filter (fun i => hasSemiTone chord (Z.rem (i + cap - Z.rem key cap) cap))
         (upTo first last).

(** [markSemiTone( i )]; [menu_y] is the y coordinate of the marker menu in
    the widget, from which the key is taken. *)
Definition markSemiTone (s : PianoRoll) (i : SemiToneMarkerAction)
  (menu_y : Z) : PianoRoll :=
  let key := getKey s menu_y in
  let marks := m_markedSemiTones s in
  let ofChord chord :=
    if chord_isEmpty chord
    then marks
    else (if isScale chord then [] else marks) ++ markedBy chord key in
  let marks :=
    match i with
    | stmaUnmarkAll => []
    | stmaMarkCurrentSemiTone =>
        if existsb (Z.eqb key) marks
        then eraseFirst key marks
        else marks ++ [key]
    | stmaMarkCurrentScale => ofChord (m_scale s)
    | stmaMarkCurrentChord => ofChord (m_chord s)
    end in
  set_markedSemiTones (unique (qSortGreater marks)) s.

(** *** Placing and pasting notes *)

(** Modelled from the spec: [Pattern::addNote] is defined outside the file
    modelled here.  The note is inserted and the notes stay in ascending order of
    position ("inserts"; "sorted ascending by position after any structural
    mutation"); the new note goes before the first note that starts later. *)
Fixpoint addNote (new_note : Note.t) (notes : list Note.t) : list Note.t :=
  match notes with
  | [] => [new_note]
  | note :: rest =>
      if Note.pos new_note <? Note.pos note
      then new_note :: notes
      else note :: addNote new_note rest
  end.

(** [pasteNotes()].  [clipboard] stands for the clipboard's data: [None]
    when the data is empty, else the notes that [restoreState] reads from
    the note elements, in document order. *)
Definition pasteNotes (s : PianoRoll) (clipboard : option (list Note.t))
  : PianoRoll :=
  if negb (hasValidPattern s)
  then s
  else
    match clipboard with
    | None => s
    | Some list =>
        let s := clearSelectedNotes s in
        let paste notes cur_note :=
          let cur_note :=
            Note.setPos (Note.pos cur_note + m_timeLinePos s) cur_note in
          let cur_note := Note.setSelected true cur_note in
          addNote cur_note notes in
        match m_pattern s with
        | None => s
        | Some notes => set_pattern (Some (fold_left paste list notes)) s
        end
    end.

(** The test of lines 1286-1297 on one note: the click at [pos_ticks],
    [key_num] is on the note (or, in the note edit area, on its line). *)
Definition clickedOn (s : PianoRoll) (edit_note : bool) (pos_ticks key_num : Z)
  (note : Note.t) : bool :=
  let len := Note.length note in
  let len := if len <? 0 then 4 else len in
  (Note.pos note <=? pos_ticks)
  && (0 <? len)
  && ((negb edit_note
       && (pos_ticks <=? Note.pos note + len)
       && (Note.key note =? key_num))
      || (edit_note
          && (pos_ticks <=? Note.pos note
                + Z.quot (NOTE_EDIT_LINE_WIDTH * ticksPerTact s) (m_ppt s)))).

(** The search of lines 1273-1302, from the last note to the first: the
    note the iterator stops at, [None] when it runs off the front
    ([it == notes.begin()-1]). *)
Definition noteClicked (s : PianoRoll) (edit_note : bool)
  (pos_ticks key_num : Z) (notes : list Note.t) : option Note.t :=
  find (clickedOn s edit_note pos_ticks key_num) (rev notes).

(** [mousePressEvent] up to line 1343: the note that a press at ([x], [y])
    creates, [None] when the press creates none.  [leftButton] tells whether the
    left button went down and [ctrl] whether control is held. *)
Definition newNoteOnPress (s : PianoRoll) (x y : Z) (leftButton ctrl : bool)
  : option Note.t :=
  match m_pattern s with
  | None => None
  | Some notes =>
      let editMode :=
        if ctrl && negb (EditModes_eqb (m_editMode s) ModeSelect)
        then ModeSelect
        else m_editMode s in
      if (keyAreaBottom s <? y) && (y <? noteEditTop s)
      then None
      else if negb (PR_TOP_MARGIN <? y)
      then None
      else
        let edit_note := noteEditTop s <? y in
        let key_num := getKey s y in
        if negb (WHITE_KEY_WIDTH <? x)
        then None
        else
          let x := x - WHITE_KEY_WIDTH in
          let pos_ticks :=
            Z.quot (x * ticksPerTact s) (m_ppt s) + m_currentPosition s in
          if edit_note
          then None
          else if leftButton && EditModes_eqb editMode ModeDraw
          then
            match noteClicked s edit_note pos_ticks key_num notes with
            | Some _ => None
            | None =>
                let note_pos := pos_ticks - Z.quot (quantization s) 2 in
                let note_len := newNoteLen s in
                let new_note := Note.create note_len note_pos key_num in
                let new_note := Note.setSelected true new_note in
                let new_note :=
                  Note.setPanning (m_lastNotePanning s) new_note in
                let new_note := Note.setVolume (m_lastNoteVolume s) new_note in
                Some new_note
            end
          else None
  end.

End Editor.

(** ** More of the editor

    The functions around the ones above: counting and collecting the
    selection, [selectAll], the rubber band of the select tool,
    [deleteSelectedNotes], [mouseReleaseEvent], [noteUnderMouse], the copy to
    the clipboard, the press that grabs a note and the loop that edits
    volume and panning. *)

Definition set_action (a : Actions) (s : PianoRoll) : PianoRoll :=
  mkPianoRoll (m_pattern s) a (m_editMode s) (m_startedWithShift s)
    (m_moveStartX s) (m_moveStartY s) (m_mouseDownTick s) (m_mouseDownKey s)
    (m_moveBoundaryLeft s) (m_moveBoundaryTop s) (m_moveBoundaryRight s)
    (m_moveBoundaryBottom s) (m_selectStartTick s) (m_selectedTick s)
    (m_selectStartKey s) (m_selectedKeys s) (m_ppt s) (m_currentPosition s)
    (m_startKey s) (m_notesEditHeight s) (height s) (ticksPerTact s)
    (m_timeLinePos s) (m_lenOfNewNotes s) (m_lastNoteVolume s)
    (m_lastNotePanning s) (m_quantizeModel s) (m_noteLenModel s) (m_scale s)
    (m_chord s) (m_markedSemiTones s).

(** [selectionCount()], on the notes of the pattern. *)
Definition selectionCount (notes : list Note.t) : Z :=
  fold_left (fun sum note => if Note.selected note then sum + 1 else sum)
            notes 0.

(** [getSelectedNotes( selected_notes )]: the selected notes are appended
    to the vector passed in. *)
Definition getSelectedNotes (s : PianoRoll) (selected_notes : list Note.t)
  : list Note.t :=
  match m_pattern s with
  | None => selected_notes
  | Some notes =>
      fold_left (fun acc note =>
                   if Note.selected note then acc ++ [note] else acc)
                notes selected_notes
  end.

(** *** [selectAll] *)

(** The variables the loop of [selectAll] carries: [first_time] and the
    four fields of the region. *)
Record SelectVars : Type := mkSelectVars {
  first_time : bool;
  selectStartTick : Z;
  selectedTick : Z;
  selectStartKey : Z;
  selectedKeys : Z
}.

(** The body of the loop, lines 3440-3477. *)
Definition selectAllNote (v : SelectVars) (note : Note.t) : SelectVars :=
  let len_ticks := Note.length note in
  if 0 <? len_ticks
  then
    let key := Note.key note in
    let pos_ticks := Note.pos note in
    let '(startKey, keys) :=
      if (key <=? selectStartKey v) || first_time v
      then (key - 1, selectedKeys v + (selectStartKey v - (key - 1)))
      else (selectStartKey v, selectedKeys v) in
    let keys :=
      if (keys + startKey <=? key) || first_time v
      then key - startKey
      else keys in
    let startTick :=
      if (pos_ticks <? selectStartTick v) || first_time v
      then pos_ticks
      else selectStartTick v in
    let ticks :=
      if (startTick + selectedTick v <? pos_ticks + len_ticks)
         || first_time v
      then pos_ticks + len_ticks - startTick
      else selectedTick v in
    mkSelectVars false startTick ticks startKey keys
  else v.

Definition selectAll (s : PianoRoll) : PianoRoll :=
  match m_pattern s with
  | None => s
  | Some notes =>
      let v :=
        fold_left selectAllNote notes
          (mkSelectVars true (m_selectStartTick s) (m_selectedTick s)
                        (m_selectStartKey s) (m_selectedKeys s)) in
      set_selection (selectStartTick v) (selectedTick v)
                    (selectStartKey v) (selectedKeys v) s
  end.

(** *** Deleting *)

(** Modelled from the spec: [Pattern::removeNote], defined outside the file
    modelled here, "detaches and destroys" the note it is handed; the note
    is the one the iterator stands on, here the note at index [i]. *)
Fixpoint removeNote (i : nat) (notes : list Note.t) : list Note.t :=
  match i, notes with
  | _, [] => []
  | O, _ :: rest => rest
  | S i', note :: rest => note :: removeNote i' rest
  end.

(** One run of the iterator of [deleteSelectedNotes] from [notes.begin()]:
    the index of the first selected note, where the loop removes a note and
    starts over; [None] when the iterator reaches [notes.end()]. *)
Fixpoint firstSelected (notes : list Note.t) : option nat :=
  match notes with
  | [] => None
  | note :: rest =>
      if Note.selected note
      then Some O
      else option_map S (firstSelected rest)
  end.

Lemma firstSelected_lt (notes : list Note.t) (i : nat) :
  firstSelected notes = Some i -> (i < List.length notes)%nat.
Proof.
  revert i. induction notes as [|note rest IH]; intros i H; simpl in *.
  - discriminate.
  - destruct (Note.selected note).
    + injection H as <-. lia.
    + destruct (firstSelected rest) as [j|]; [|discriminate].
      injection H as <-. specialize (IH j eq_refl). lia.
Qed.

Lemma removeNote_length (i : nat) (notes : list Note.t) :
  (i < List.length notes)%nat ->
  List.length (removeNote i notes) = pred (List.length notes).
Proof.
  revert i. induction notes as [|note rest IH]; intros i H; simpl in *.
  - lia.
  - destruct i as [|i']; [reflexivity|].
    simpl. rewrite IH by lia. lia.
Qed.

(** A value together with the equation that it is the value. *)
Definition inspect {A : Type} (a : A) : {b : A | a = b} := exist _ a eq_refl.

(** The loop of lines 3687-3704: remove the first selected note and start
    over, until no note is selected. *)
Equations? deleteLoop (notes : list Note.t) : list Note.t
  by wf (List.length notes) lt :=
  deleteLoop notes with inspect (firstSelected notes) => {
    | exist _ None _ => notes;
    | exist _ (Some i) E => deleteLoop (removeNote i notes)
  }.
Proof.
  pose proof (firstSelected_lt _ _ E) as Hlt.
  rewrite removeNote_length by assumption. lia.
Qed.

Definition deleteSelectedNotes (s : PianoRoll) : PianoRoll :=
  match m_pattern s with
  | None => s
  | Some notes => set_pattern (Some (deleteLoop notes)) s
  end.

(** *** The end of a gesture *)

(** Modelled from the spec: [Pattern::rearrangeAllNotes], defined outside
    the file modelled here, "re-sorts order without changing content": the
    notes are put in ascending order of position, notes of one position in
    the order they had. *)
Fixpoint insertByPos (note : Note.t) (sorted : list Note.t) : list Note.t :=
  match sorted with
  | [] => [note]
  | other :: rest =>
      if Note.pos other <? Note.pos note
      then other :: insertByPos note rest
      else note :: sorted
  end.

Definition rearrangeAllNotes (notes : list Note.t) : list Note.t :=
  fold_right insertByPos [] notes.

(** [mouseReleaseEvent], lines 1815-1871, for the notes, the region and the
    action; [leftButton] tells whether it is the left button that went up
    and [shift] whether shift is held.  The pattern is dereferenced without
    a test when a move ends and when the selection is counted. *)
Definition mouseReleaseEvent (s : PianoRoll) (leftButton shift : bool)
  : option PianoRoll :=
  let moved := Actions_eqb (m_action s) ActionMoveNote in
  let resized := Actions_eqb (m_action s) ActionResizeNote in
  let s1 :=
    if leftButton && EditModes_eqb (m_editMode s) ModeSelect
       && Actions_eqb (m_action s) ActionSelectNotes
    then Some (computeSelectedNotes s shift)
    else if leftButton && moved
    then
      match m_pattern s with
      | None => None
      | Some notes => Some (set_pattern (Some (rearrangeAllNotes notes)) s)
      end
    else Some s in
  match s1 with
  | None => None
  | Some s1 =>
      let s2 :=
        if leftButton && (moved || resized)
        then
          match m_pattern s1 with
          | None => None
          | Some notes =>
              if selectionCount notes =? 1
              then Some (clearSelectedNotes s1)
              else Some s1
          end
        else Some s1 in
      option_map (set_action ActionNone) s2
  end.

(** *** The clipboard *)

(** Modelled from the spec: [MidiTime] and the state a note saves live
    outside the file modelled here.  The clipboard holds the notes with
    their "time normalized to the first selected note's bar":
    [MidiTime( tact, 0 )] is the tick at which bar [tact] starts,
    [getTact()] the bar of a tick, [pos( start_pos )] the position counted
    from [start_pos]; what is saved and restored of a note is modelled by
    the note itself. *)
Definition copy_to_clipboard (s : PianoRoll) (front : Note.t)
  (rest : list Note.t) : list Note.t :=
  let start_pos := Z.quot (Note.pos front) (ticksPerTact s) * ticksPerTact s in
  map (fun clip_note =>
         Note.setPos (Note.pos clip_note - start_pos) clip_note)
      (front :: rest).

(** [copySelectedNotes()]: the clipboard after the call. *)
Definition copySelectedNotes (s : PianoRoll)
  (clipboard : option (list Note.t)) : option (list Note.t) :=
  match getSelectedNotes s [] with
  | [] => clipboard
  | front :: rest => Some (copy_to_clipboard s front rest)
  end.

(** The loop of lines 3606-3612: the selected notes are removed one by one
    in the order of the vector of selected notes, each being the first
    selected note that is left. *)
Definition removeSelectedNotes (selected_notes notes : list Note.t)
  : list Note.t :=
  fold_left (fun notes _ =>
               match firstSelected notes with
               | Some i => removeNote i notes
               | None => notes
               end)
            selected_notes notes.

(** [cutSelectedNotes()]: the editor and the clipboard after the call. *)
Definition cutSelectedNotes (s : PianoRoll)
  (clipboard : option (list Note.t)) : PianoRoll * option (list Note.t) :=
  match m_pattern s with
  | None => (s, clipboard)
  | Some notes =>
      match getSelectedNotes s [] with
      | [] => (s, clipboard)
      | front :: rest =>
          (set_pattern (Some (removeSelectedNotes (front :: rest) notes)) s,
           Some (copy_to_clipboard s front rest))
      end
  end.

(** *** The note under the mouse *)

(** [noteUnderMouse()], with the cursor at ([x], [y]) in the widget and
    [width] the widget's [width()]; [None] is [NULL]. *)
Definition underMouse (pos_ticks key_num : Z) (note : Note.t) : bool :=
  (Note.pos note <=? pos_ticks)
  && (pos_ticks <=? Note.endPos note)
  && (Note.key note =? key_num)
  && (0 <? Note.length note).

Section MoreEditor.

Variable NumOctaves : Z.

Definition noteUnderMouse (s : PianoRoll) (width x y : Z)
  : option (option Note.t) :=
  match m_pattern s with
  | None => None
  | Some notes =>
      if (x <=? WHITE_KEY_WIDTH) || (width - SCROLLBAR_SIZE <? x)
         || (y <? PR_TOP_MARGIN) || (keyAreaBottom s <? y)
      then Some None
      else
        let key_num := getKey NumOctaves s y in
        let pos_ticks :=
          Z.quot ((x - WHITE_KEY_WIDTH) * ticksPerTact s) (m_ppt s)
          + m_currentPosition s in
        Some (find (underMouse pos_ticks key_num) notes)
  end.

(** *** The rubber band of the select tool *)

(** [mouseMoveEvent], lines 2198-2214: the region follows the pointer. *)
Definition resizeSelection (s : PianoRoll) (x y : Z) : PianoRoll :=
  let key_num := getKey NumOctaves s y in
  let x := x - WHITE_KEY_WIDTH in
  let pos_ticks :=
    Z.quot (x * ticksPerTact s) (m_ppt s) + m_currentPosition s in
  let ticks := pos_ticks - m_selectStartTick s in
  let ticks :=
    if m_selectStartTick s + ticks <? 0
    then - m_selectStartTick s
    else ticks in
  let keys := key_num - m_selectStartKey s in
  let keys := if key_num <=? m_selectStartKey s then keys - 1 else keys in
  set_selection (m_selectStartTick s) ticks (m_selectStartKey s) keys s.

(** [mousePressEvent] on its way to lines 1526-1539: a press that starts a
    rubber band; [None] when the press does something else.  [width] is
    the widget's [width()]; the cursor that [noteUnderMouse] asks for is
    where the press is.  The press handler ends with a call of
    [mouseMoveEvent] for the same pointer position, which takes the branch
    above. *)
Definition selectOnPress (s : PianoRoll) (width x y : Z)
  (leftButton ctrl shift : bool) : option PianoRoll :=
  match m_pattern s with
  | None => None
  | Some notes =>
      if EditModes_eqb (m_editMode s) ModeEditDetuning
         && match noteUnderMouse s width x y with
            | Some (Some _) => true
            | _ => false
            end
      then None
      else
      let editMode :=
        if ctrl && negb (EditModes_eqb (m_editMode s) ModeSelect)
        then ModeSelect
        else m_editMode s in
      if (keyAreaBottom s <? y) && (y <? noteEditTop s)
      then None
      else if negb (PR_TOP_MARGIN <? y)
      then None
      else
        let edit_note := noteEditTop s <? y in
        let key_num := getKey NumOctaves s y in
        if negb (WHITE_KEY_WIDTH <? x)
        then None
        else
          let pos_ticks :=
            Z.quot ((x - WHITE_KEY_WIDTH) * ticksPerTact s) (m_ppt s)
            + m_currentPosition s in
          if edit_note
          then None
          else if leftButton && EditModes_eqb editMode ModeSelect
          then
            Some (resizeSelection
                    (mkPianoRoll (m_pattern s) ActionSelectNotes editMode
                       shift x y
                       (m_mouseDownTick s) (m_mouseDownKey s)
                       (m_moveBoundaryLeft s) (m_moveBoundaryTop s)
                       (m_moveBoundaryRight s) (m_moveBoundaryBottom s)
                       pos_ticks 0 key_num 1
                       (m_ppt s) (m_currentPosition s) (m_startKey s)
                       (m_notesEditHeight s) (height s) (ticksPerTact s)
                       (m_timeLinePos s) (m_lenOfNewNotes s)
                       (m_lastNoteVolume s) (m_lastNotePanning s)
                       (m_quantizeModel s) (m_noteLenModel s) (m_scale s)
                       (m_chord s) (m_markedSemiTones s))
                    x y)
          else None
  end.

(** *** Grabbing a note *)

(** The search of lines 1273-1302 again, from the last note to the first:
    the index at which the iterator stops, [None] when it runs off the
    front. *)
Fixpoint lastIndex (f : Note.t -> bool) (notes : list Note.t) : option nat :=
  match notes with
  | [] => None
  | note :: rest =>
      match lastIndex f rest with
      | Some j => Some (S j)
      | None => if f note then Some O else None
      end
  end.

(** [m_currentNote->setSelected( true )] for the note at index [i]. *)
Fixpoint selectAt (i : nat) (notes : list Note.t) : list Note.t :=
  match i, notes with
  | _, [] => []
  | O, note :: rest => Note.setSelected true note :: rest
  | S i', note :: rest => note :: selectAt i' rest
  end.

(** Lines 1468-1491: with shift held every selected note is copied and the
    copies are added to the pattern, not selected. *)
Definition copySelected (notes : list Note.t) : list Note.t :=
  fold_left (fun notes newNote => addNote (Note.setSelected false newNote) notes)
            (filter Note.selected notes) notes.

(** [mousePressEvent] on its way through lines 1376-1497 for a note that
    the search of lines 1273-1302 has found: a press of the left button
    with the draw tool on a note of the pattern, which starts a move or a
    resize.  [None] when the press does something else; this includes the
    press on empty canvas, which first creates a note (lines 1323-1373,
    see [newNoteOnPress] and [createdOnPress]) and then runs through the
    same lines with the note created: that path is not part of this
    function. *)
Definition grabOnPress (s : PianoRoll) (width x y : Z)
  (leftButton ctrl shift : bool) : option PianoRoll :=
  match m_pattern s with
  | None => None
  | Some notes =>
      if EditModes_eqb (m_editMode s) ModeEditDetuning
         && match noteUnderMouse s width x y with
            | Some (Some _) => true
            | _ => false
            end
      then None
      else
      let editMode :=
        if ctrl && negb (EditModes_eqb (m_editMode s) ModeSelect)
        then ModeSelect
        else m_editMode s in
      if (keyAreaBottom s <? y) && (y <? noteEditTop s)
      then None
      else if negb (PR_TOP_MARGIN <? y)
      then None
      else
        let edit_note := noteEditTop s <? y in
        let key_num := getKey NumOctaves s y in
        if negb (WHITE_KEY_WIDTH <? x)
        then None
        else
          let pos_ticks :=
            Z.quot ((x - WHITE_KEY_WIDTH) * ticksPerTact s) (m_ppt s)
            + m_currentPosition s in
          if edit_note
          then None
          else if leftButton && EditModes_eqb editMode ModeDraw
          then
            match lastIndex (clickedOn s edit_note pos_ticks key_num) notes with
            | None => None
            | Some i =>
                match nth_error notes i with
                | None => None
                | Some current_note =>
                    let notes := map rememberStart notes in
                    let box :=
                      match boundingBox notes with
                      | Some box => box
                      | None =>
                          (m_moveBoundaryLeft s, m_moveBoundaryRight s,
                           m_moveBoundaryBottom s, m_moveBoundaryTop s)
                      end in
                    let '(notes, box) :=
                      if negb (Note.selected current_note)
                      then
                        (selectAt i (map (Note.setSelected false) notes),
                         (Note.pos current_note, Note.endPos current_note,
                          Note.key current_note, Note.key current_note))
                      else (notes, box) in
                    let '(boundaryLeft, boundaryRight, boundaryBottom,
                          boundaryTop) := box in
                    let tail :=
                      (Z.quot (Note.endPos current_note * m_ppt s)
                              (ticksPerTact s) - RESIZE_AREA_WIDTH
                       <? Z.quot (pos_ticks * m_ppt s) (ticksPerTact s))
                      && (0 <? Note.length current_note) in
                    let notes :=
                      if negb tail && shift then copySelected notes
                      else notes in
                    Some (mkPianoRoll (Some notes)
                            (if tail then ActionResizeNote
                             else ActionMoveNote)
                            editMode shift x y
                            (m_currentPosition s) (m_startKey s)
                            boundaryLeft boundaryTop boundaryRight
                            boundaryBottom
                            (m_selectStartTick s) (m_selectedTick s)
                            (m_selectStartKey s) (m_selectedKeys s)
                            (m_ppt s) (m_currentPosition s) (m_startKey s)
                            (m_notesEditHeight s) (height s)
                            (ticksPerTact s) (m_timeLinePos s)
                            (Note.length current_note)
                            (Note.volume current_note)
                            (Note.panning current_note)
                            (m_quantizeModel s) (m_noteLenModel s)
                            (m_scale s) (m_chord s) (m_markedSemiTones s))
                end
            end
          else None
  end.

End MoreEditor.

(** *** The note a press creates *)


(** *** Editing volume and panning *)

Inductive NoteEditMode : Type :=
| NoteEditVolume
| NoteEditPanning.

(** The test of lines 2040-2043 (and 1612-1615, 3117-3120): the note starts
    in the range of ticks, is not of length 0, and is selected if any note
    is. *)
Definition inEditRange (ticks_start ticks_end : Z) (use_selection : bool)
  (n : Note.t) : bool :=
  (ticks_start <=? Note.pos n)
  && (Note.pos n <=? ticks_end)
  && negb (Note.length n =? 0)
  && (Note.selected n || negb use_selection).

(** [mouseMoveEvent], lines 1971-1978 and 2033-2092: the notes within 7
    pixels of the pointer get the volume [vol] or the panning [pan] that
    lines 1985-2005 have computed; the notes are visited from the last to
    the first.  [mode] is [m_noteEditMode]. *)
Definition editNoteProperties (s : PianoRoll) (mode : NoteEditMode)
  (x vol pan : Z) : option PianoRoll :=
  match m_pattern s with
  | None => None
  | Some notes =>
      let x := x - WHITE_KEY_WIDTH in
      let pixel_range := 14 in
      let ticks_start :=
        Z.quot ((x - Z.quot pixel_range 2) * ticksPerTact s) (m_ppt s)
        + m_currentPosition s in
      let ticks_end :=
        Z.quot ((x + Z.quot pixel_range 2) * ticksPerTact s) (m_ppt s)
        + m_currentPosition s in
      let use_selection := isSelection notes in
      let visit n :=
        if inEditRange ticks_start ticks_end use_selection n
        then
          match mode with
          | NoteEditVolume => Note.setVolume vol n
          | NoteEditPanning => Note.setPanning pan n
          end
        else n in
      let notes' := rev (map visit (rev notes)) in
      Some (mkPianoRoll (Some notes') (m_action s) (m_editMode s)
              (m_startedWithShift s) (m_moveStartX s) (m_moveStartY s)
              (m_mouseDownTick s) (m_mouseDownKey s)
              (m_moveBoundaryLeft s) (m_moveBoundaryTop s)
              (m_moveBoundaryRight s) (m_moveBoundaryBottom s)
              (m_selectStartTick s) (m_selectedTick s)
              (m_selectStartKey s) (m_selectedKeys s)
              (m_ppt s) (m_currentPosition s) (m_startKey s)
              (m_notesEditHeight s) (height s) (ticksPerTact s)
              (m_timeLinePos s) (m_lenOfNewNotes s)
              (match mode with
               | NoteEditVolume => vol
               | NoteEditPanning => m_lastNoteVolume s
               end)
              (match mode with
               | NoteEditVolume => m_lastNotePanning s
               | NoteEditPanning => pan
               end)
              (m_quantizeModel s) (m_noteLenModel s) (m_scale s)
              (m_chord s) (m_markedSemiTones s))
  end.

(** * The vocabulary of the statements *)

(** A note is in range when it starts at a tick that is not negative and
    its key lies in [0, NumKeys]. *)
Definition inRange (NumOctaves : Z) (n : Note.t) : Prop :=
  0 <= Note.pos n /\ 0 <= Note.key n <= NumKeys NumOctaves.

Definition selectedInRange (NumOctaves : Z) (notes : list Note.t) : Prop :=
  Forall (fun n => Note.selected n = true -> inRange NumOctaves n) notes.

(** The box of the gesture covers the selected notes as they were when the
    gesture started. *)
Definition boxCovers (s : PianoRoll) (notes : list Note.t) : Prop :=
  forall n, In n notes -> Note.selected n = true ->
    m_moveBoundaryLeft s <= Note.oldPos n /\
    m_moveBoundaryBottom s <= Note.oldKey n <= m_moveBoundaryTop s.

(** No boundary check of lines 2392-2403 fires for these offsets. *)
Definition noClamp (NumOctaves : Z) (s : PianoRoll) (off_ticks off_key : Z)
  : Prop :=
  0 <= m_moveBoundaryLeft s + off_ticks /\
  m_moveBoundaryTop s + off_key <= NumKeys NumOctaves /\
  0 <= m_moveBoundaryBottom s + off_key.

(** What an update of a resize gesture leaves alone in a note: its key, its
    selection flag and its remembered state, and its length unless it is
    selected. *)
Definition resizeFrame (n n' : Note.t) : Prop :=
  Note.key n' = Note.key n /\
  Note.selected n' = Note.selected n /\
  Note.oldPos n' = Note.oldPos n /\
  Note.oldLength n' = Note.oldLength n /\
  Note.oldKey n' = Note.oldKey n /\
  (Note.selected n = false -> Note.length n' = Note.length n).

(** Lines 2420-2428: where a resize with shift held puts a note, given the
    offset gathered so far and the position it refers to. *)
Definition shiftedNote (off_ticks : Z) (v : DragVars) (note : Note.t)
  : Note.t :=
  let shifted_pos := Note.oldPos note + shift_offset v in
  Note.setPos
    (if negb (shifted_pos =? 0) && (Note.pos note =? shift_ref_pos v)
     then shifted_pos - off_ticks
     else shifted_pos)
    note.

(** The state of a gesture that has just started: every note is where it
    remembers to have been, at a tick that is not negative. *)
Definition freshStart (notes : list Note.t) : Prop :=
  Forall (fun n => Note.pos n = Note.oldPos n /\ 0 <= Note.pos n) notes.

(** What an additive commit does to a note. *)
Definition toggleIfIn (s : PianoRoll) (n : Note.t) : Note.t :=
  if inSelection s n then Note.setSelected (negb (Note.selected n)) n else n.

(** The note that [pasteNotes] adds for a note read from the clipboard. *)
Definition pasted (s : PianoRoll) (cur_note : Note.t) : Note.t :=
  Note.setSelected true
    (Note.setPos (Note.pos cur_note + m_timeLinePos s) cur_note).

(** The tick under the pointer, as [mousePressEvent] computes it in line
    1265. *)
Definition pointerTick (s : PianoRoll) (x : Z) : Z :=
  Z.quot ((x - WHITE_KEY_WIDTH) * ticksPerTact s) (m_ppt s)
  + m_currentPosition s.

(** The snap of the specification's quantizer, in its words:
    floor(tick / granularity) * granularity. *)
Definition spec_snap (tick granularity : Z) : Z :=
  tick / granularity * granularity.



(** The notes in ascending order of position, as the pattern keeps them. *)
Definition ascending (notes : list Note.t) : Prop :=
  StronglySorted (fun a b => Note.pos a <= Note.pos b) notes.

(** The amount that [shiftPos] settles on: the amount asked for, cut at the
    first note it shifts. *)
Fixpoint shiftPosAmount (useAllNotes : bool) (amount : Z)
  (notes : list Note.t) : Z :=
  match notes with
  | [] => amount
  | n :: rest =>
      if shiftsPos useAllNotes n
      then if Note.pos n + amount <? 0 then - Note.pos n else amount
      else shiftPosAmount useAllNotes amount rest
  end.

(** In descending order: every element is at least all the later ones. *)
Definition descending (l : list Z) : Prop :=
  StronglySorted (fun a b => b <= a) l.

(** The length that the region test gives a note: 4 ticks for a note of
    negative length. *)
Definition hitLength (n : Note.t) : Z :=
  if Note.length n <? 0 then 4 else Note.length n.

(** A note lies in the band between the ticks [t0] and [t1] and between
    the keys [k0], where the rubber band started, and [k1], where it ended:
    it has a length, it overlaps the ticks from the smaller to the larger,
    and its key is one of [k1] to [k0] when the band was drawn downward, or
    one of [k0] + 1 to [k1] when it was drawn upward. *)
Definition inBand (t0 t1 k0 k1 : Z) (n : Note.t) : bool :=
  negb (Note.length n =? 0)
  && (if k1 <=? k0
      then (k1 <=? Note.key n) && (Note.key n <=? k0)
      else (k0 <? Note.key n) && (Note.key n <=? k1))
  && (Z.min t0 t1 <? Note.pos n + hitLength n)
  && (Note.pos n <? Z.max t0 t1).

(** What is saved of a note: where it starts, how long it is, its key. *)
Definition sound (n : Note.t) : Z * Z * Z :=
  (Note.pos n, Note.length n, Note.key n).

(** In strictly descending order. *)
Definition strictlyDescending (l : list Z) : Prop :=
  StronglySorted (fun a b => b < a) l.

(** The region in the making covers a note: its key lies above the lower
    edge and not above the upper, it starts at or after the start of the
    region and ends at or before its end. *)
Definition covered (v : SelectVars) (n : Note.t) : Prop :=
  selectStartKey v < Note.key n <= selectStartKey v + selectedKeys v /\
  selectStartTick v <= Note.pos n /\
  Note.pos n + Note.length n <= selectStartTick v + selectedTick v.

(** The region in the making has taken in a first note. *)
Definition grown (v : SelectVars) : Prop :=
  first_time v = false /\ 1 <= selectedKeys v /\ 0 < selectedTick v.

(** A note that is not selected. *)
Definition unselected (n : Note.t) : bool := negb (Note.selected n).

(** A note remembers its present state: the state of a gesture that has
    just started. *)
Definition remembered (n : Note.t) : Prop :=
  Note.oldPos n = Note.pos n /\ Note.oldKey n = Note.key n /\
  Note.oldLength n = Note.length n.

(** * Worked examples

    A keyboard of ten octaves (120 keys) and 192 ticks to the bar; one pixel
    is one tick ([m_ppt] = 192), the view starts at tick 0 and key 48, the
    pointer went down at x = 300, y = 200. *)

Definition majorScale : Chord := mkChord [0; 2; 4; 5; 7; 9; 11] true.

Definition noChord : Chord := mkChord [] false.

(** A note with volume 100, centred, whose remembered state is its state. *)
Definition noteAt (p l k : Z) (sel : bool) : Note.t :=
  Note.mk p l k 100 0 sel p l k.

(** An editor in draw mode on [notes], in the middle of the gesture
    [action] with the box [left], [top], [right], [bottom]; the grid is
    1/[grid] of a bar. *)
Definition editorOn (notes : list Note.t) (action : Actions) (grid : Z)
  (left top right bottom : Z) : PianoRoll :=
  mkPianoRoll (Some notes) action ModeDraw false 300 200 0 48
    left top right bottom 0 0 0 0 192 0 48 100 600 192 384 48 100 0
    (mkComboBox 1 grid) (mkComboBox 0 0) majorScale noChord [].

Definition notePositions (s : PianoRoll) : list Z :=
  match m_pattern s with Some notes => map Note.pos notes | None => [] end.

Definition noteKeys (s : PianoRoll) : list Z :=
  match m_pattern s with Some notes => map Note.key notes | None => [] end.

Definition noteLengths (s : PianoRoll) : list Z :=
  match m_pattern s with Some notes => map Note.length notes | None => [] end.

(** Two overlapping notes, both selected, on a grid of 16 ticks. *)
Definition twoNotes (p1 p2 : Z) : PianoRoll :=
  editorOn [noteAt p1 96 60 true; noteAt p2 100 62 true] ActionMoveNote 12
           p1 62 (p2 + 100) 60.

(** A chord of two notes at tick 12 and a later note at tick 48, on a grid
    of 12 ticks; the lower note of the chord is selected and its tail is
    dragged. *)
Definition chordAndLater : PianoRoll :=
  editorOn [noteAt 12 24 60 true; noteAt 12 24 64 false; noteAt 48 24 62 false]
           ActionResizeNote 16 12 60 36 60.

(** An empty pattern on a grid of 16 ticks, nothing going on. *)
Definition emptyRoll : PianoRoll := editorOn [] ActionNone 12 0 0 0 0.

(** Two selected notes that are not in ascending order (the first has been
    shifted from tick 48 to tick 240). *)
Definition outOfOrder : PianoRoll :=
  editorOn [Note.setPos 240 (noteAt 48 48 60 true); noteAt 96 48 62 true]
           ActionNone 12 48 0 0 0.

(** The marker menu opened on key 48, a C; the scale is major. *)
Definition markerOnC : Z := 483.

(** A pattern of two notes, the first selected; the time line is at tick
    384. *)
Definition twoInPattern : PianoRoll :=
  editorOn [noteAt 0 48 60 true; noteAt 96 48 62 false] ActionNone 12 0 0 0 0.

(** Two selected notes in the same bar, ten keys apart, being moved: near
    the top of the keyboard and near its bottom.  The box of the gesture is
    the bounding box of the two notes. *)
Definition nearTop : PianoRoll :=
  editorOn [noteAt 0 48 100 true; noteAt 0 48 110 true] ActionMoveNote 12
           0 110 48 100.

Definition nearBottom : PianoRoll :=
  editorOn [noteAt 0 48 10 true; noteAt 0 48 20 true] ActionMoveNote 12
           0 20 48 10.

(** The two notes of [outOfOrder] before anything is shifted, the first one
    selected; the same two notes in order and both selected; and an editor
    with no pattern. *)
Definition firstSelectedOnly : PianoRoll :=
  editorOn [noteAt 48 48 60 true; noteAt 96 48 62 false] ActionNone 12
           0 0 0 0.

Definition inOrder : PianoRoll :=
  editorOn [noteAt 48 48 60 true; noteAt 96 48 62 true] ActionNone 12
           0 0 0 0.

Definition noPattern : PianoRoll := set_pattern None emptyRoll.

(** Two selected notes low on the keyboard, being moved. *)
Definition lowNotes : PianoRoll :=
  editorOn [noteAt 0 96 5 true; noteAt 50 100 7 true] ActionMoveNote 12
           0 7 150 5.

(** [twoInPattern] with a region over the ticks 0 to 100 and the keys 60
    and 61. *)
Definition regionOn : PianoRoll := set_selection 0 100 59 2 twoInPattern.

(** A major triad as the chord of the editor, with key 60 marked. *)
Definition majorTriad : Chord := mkChord [0; 4; 7] false.

Definition triadRoll : PianoRoll :=
  mkPianoRoll (Some []) ActionNone ModeDraw false 300 200 0 48
    0 0 0 0 0 0 0 0 192 0 48 100 600 192 384 48 100 0
    (mkComboBox 1 12) (mkComboBox 0 0) majorScale majorTriad [60].

(** * Properties *)

(** ** Comparisons *)

Lemma Actions_eqb_eq (a b : Actions) : Actions_eqb a b = true <-> a = b.
Proof.
  split.
  - destruct a, b; simpl; intro H; try reflexivity; discriminate H.
  - intros ->. destruct b; reflexivity.
Qed.

Lemma qMax_spec (a b : Z) : qMax a b = Z.max a b.
Proof. unfold qMax. destruct (Z.ltb_spec a b); lia. Qed.

Lemma qMin_spec (a b : Z) : qMin a b = Z.min a b.
Proof. unfold qMin. destruct (Z.ltb_spec b a); lia. Qed.

Section EditorFacts.

Variable NumOctaves : Z.
Variable DefaultTicksPerTact : Z.

(** *** The quantized offset *)

(** The quotient is truncated: [floor] sees an integer. *)
Lemma quantizeOffset_quot (t g : Z) : quantizeOffset t g = Z.quot t g * g.
Proof. reflexivity. Qed.

(** For an offset to the right the truncated quotient is the floor. *)
Lemma quantizeOffset_floor_nonneg (t g : Z) :
  0 <= t -> 0 < g -> quantizeOffset t g = t / g * g.
Proof.
  intros Ht Hg. unfold quantizeOffset, floor.
  rewrite Z.quot_div_nonneg by lia. reflexivity.
Qed.

(** For an offset to the left that is not on the grid the quantized offset
    is one step right of the floor. *)
Lemma quantizeOffset_floor_neg (t g : Z) :
  t < 0 -> 0 < g -> t mod g <> 0 -> quantizeOffset t g = t / g * g + g.
Proof.
  intros Ht Hg Hm. unfold quantizeOffset, floor.
  assert (Hq : Z.quot t g = t / g + 1).
  { pose proof (Z.quot_rem' t g) as E.
    pose proof (Z.rem_bound_pos_neg t g Hg ltac:(lia)) as B.
    pose proof (Z.div_mod t g ltac:(lia)) as D.
    pose proof (Z.mod_pos_bound t g Hg) as M.
    nia. }
  rewrite Hq. lia.
Qed.

(** The quantized offset never exceeds the offset in size: the
    multiplication stays inside the range of the offset. *)
Lemma quantizeOffset_bound (t g : Z) :
  0 < g -> Z.abs (quantizeOffset t g) <= Z.abs t.
Proof.
  intros Hg. rewrite quantizeOffset_quot.
  rewrite Z.abs_mul, <- Z.quot_abs by lia.
  rewrite (Z.abs_eq g) by lia.
  pose proof (Z.mul_quot_le (Z.abs t) g (Z.abs_nonneg t) ltac:(lia)). lia.
Qed.

(** *** Moving notes *)

Lemma movingNotes_action (s : PianoRoll) (shift : bool) :
  movingNotes s shift = true -> m_action s = ActionMoveNote.
Proof.
  unfold movingNotes. intros H. apply andb_prop in H as [H _].
  now apply Actions_eqb_eq.
Qed.

(** What one pass of the loop does to a note while notes are moved. *)
Lemma dragNote_moving (s : PianoRoll) (shift : bool) (off_ticks off_key : Z)
  (v : DragVars) (note : Note.t) :
  movingNotes s shift = true ->
  dragNote NumOctaves s shift off_ticks off_key v note =
  ((if Note.selected note
    then Note.setKey
           (Z.min (Z.max 0 (Note.oldKey note + off_key)) (NumKeys NumOctaves))
           (Note.setPos (Z.max 0 (Note.oldPos note + off_ticks)) note)
    else note), v).
Proof.
  intros Hm. unfold dragNote.
  assert (Ha : Actions_eqb (m_action s) ActionResizeNote = false)
    by now rewrite (movingNotes_action _ _ Hm).
  rewrite Ha, Hm. simpl.
  rewrite !qMax_spec, qMin_spec. now destruct (Note.selected note).
Qed.

(** What it does during a quick resize: the action is still
    [ActionMoveNote], shift is held and was not held at the start. *)
Lemma dragNote_quickResize (s : PianoRoll) (shift : bool)
  (off_ticks off_key : Z) (v : DragVars) (note : Note.t) :
  m_action s = ActionMoveNote -> movingNotes s shift = false ->
  dragNote NumOctaves s shift off_ticks off_key v note =
  (if Note.selected note
   then
     let ticks_new := Note.oldLength note + off_ticks in
     let ticks_new := if ticks_new <=? 0 then 1 else ticks_new in
     (Note.setLength ticks_new note,
      mkDragVars (shift_offset v) (shift_ref_pos v) ticks_new)
   else (note, v)).
Proof.
  intros Ha Hm. unfold dragNote. rewrite Hm.
  unfold movingNotes in Hm. rewrite Ha in *. simpl in *.
  destruct (Note.selected note); [|reflexivity].
  destruct (shift && negb (m_startedWithShift s)); [|discriminate Hm].
  reflexivity.
Qed.

Lemma dragNote_move_inRange (s : PianoRoll) (shift : bool)
  (off_ticks off_key : Z) (v : DragVars) (note : Note.t) :
  0 <= (NumKeys NumOctaves) -> m_action s = ActionMoveNote ->
  (Note.selected note = true -> inRange NumOctaves note) ->
  let note' := fst (dragNote NumOctaves s shift off_ticks off_key v note) in
  Note.selected note' = Note.selected note /\
  (Note.selected note' = true -> inRange NumOctaves note').
Proof.
  intros HN Ha Hin. destruct (movingNotes s shift) eqn:Hm.
  - rewrite (dragNote_moving _ _ _ _ _ _ Hm).
    destruct (Note.selected note) eqn:Hs; simpl; rewrite Hs.
    + split; [reflexivity|]. intros _. unfold inRange. simpl. lia.
    + split; [reflexivity|]. discriminate.
  - rewrite (dragNote_quickResize _ _ _ _ _ _ Ha Hm).
    destruct (Note.selected note) eqn:Hs; simpl; rewrite Hs.
    + split; [reflexivity|]. intros _. apply Hin. reflexivity.
    + split; [reflexivity|]. discriminate.
Qed.

Lemma dragLoop_move_inRange (s : PianoRoll) (shift : bool)
  (off_ticks off_key : Z) (notes : list Note.t) :
  0 <= (NumKeys NumOctaves) -> m_action s = ActionMoveNote ->
  forall v, selectedInRange NumOctaves notes ->
  let notes' := fst (dragLoop NumOctaves s shift off_ticks off_key v notes) in
  map Note.selected notes' = map Note.selected notes /\
  selectedInRange NumOctaves notes'.
Proof.
  intros HN Ha. induction notes as [|note rest IH]; intros v Hin.
  - simpl. split; [reflexivity | constructor].
  - simpl. inversion Hin as [|? ? Hnote Hrest]; subst.
    pose proof (dragNote_move_inRange s shift off_ticks off_key v note
                  HN Ha Hnote) as Hstep.
    destruct (dragNote NumOctaves s shift off_ticks off_key v note) as [note' v'].
    specialize (IH v' Hrest).
    destruct (dragLoop NumOctaves s shift off_ticks off_key v' rest) as [rest' v''].
    simpl in *. destruct Hstep as [Hsel Hr], IH as [IHsel IHr].
    split; [now rewrite Hsel, IHsel | now constructor].
Qed.

(** One update of a move gesture keeps the selected notes in range. *)
Lemma dragNotes_move_inRange (s : PianoRoll) (x y : Z) (alt shift : bool)
  (notes : list Note.t) :
  0 <= (NumKeys NumOctaves) -> m_action s = ActionMoveNote ->
  m_pattern s = Some notes -> selectedInRange NumOctaves notes ->
  exists s' notes',
    dragNotes NumOctaves DefaultTicksPerTact s x y alt shift = Some s' /\
    m_pattern s' = Some notes' /\
    m_action s' = ActionMoveNote /\
    map Note.selected notes' = map Note.selected notes /\
    selectedInRange NumOctaves notes'.
Proof.
  intros HN Ha Hp Hin. unfold dragNotes. rewrite Hp.
  match goal with
  | |- context [dragLoop NumOctaves s shift ?ot ?ok ?v notes] =>
      pose proof (dragLoop_move_inRange s shift ot ok notes HN Ha v Hin) as H;
      destruct (dragLoop NumOctaves s shift ot ok v notes) as [notes' v']
  end.
  simpl in H. destruct H as [Hsel Hr].
  eexists; exists notes'. split; [reflexivity|].
  simpl. repeat split; assumption.
Qed.

(** C2.  Clamp safety: along any sequence of drag updates of a move gesture
    (quantized or free, with or without shift), every update returns and
    leaves every selected note at a position that is not negative and at a
    key in [0, NumKeys]; the selection itself is not touched. *)
Theorem dragSeq_move_inRange (updates : list (Z * Z * bool * bool)) :
  forall (s : PianoRoll) (notes : list Note.t),
  0 <= NumKeys NumOctaves -> m_action s = ActionMoveNote ->
  m_pattern s = Some notes -> selectedInRange NumOctaves notes ->
  exists s' notes',
    dragSeq NumOctaves DefaultTicksPerTact s updates = Some s' /\
    m_pattern s' = Some notes' /\
    map Note.selected notes' = map Note.selected notes /\
    selectedInRange NumOctaves notes'.
Proof.
  induction updates as [|[[[x y] alt] shift] rest IH]; intros s notes HN Ha Hp Hin.
  - exists s, notes. simpl. repeat split; assumption.
  - destruct (dragNotes_move_inRange s x y alt shift notes HN Ha Hp Hin)
      as (s1 & notes1 & Hd & Hp1 & Ha1 & Hsel1 & Hin1).
    destruct (IH s1 notes1 HN Ha1 Hp1 Hin1)
      as (s' & notes' & Hd' & Hp' & Hsel' & Hin').
    exists s', notes'. simpl. rewrite Hd.
    repeat split; try assumption. now rewrite Hsel', Hsel1.
Qed.

(** While notes are moved an update brings every selected note into range,
    whatever the notes were before. *)
Lemma dragLoop_moving (s : PianoRoll) (shift : bool) (off_ticks off_key : Z)
  (notes : list Note.t) :
  movingNotes s shift = true ->
  forall v,
  dragLoop NumOctaves s shift off_ticks off_key v notes =
  (map (fun note =>
          if Note.selected note
          then Note.setKey
                 (Z.min (Z.max 0 (Note.oldKey note + off_key))
                        (NumKeys NumOctaves))
                 (Note.setPos (Z.max 0 (Note.oldPos note + off_ticks)) note)
          else note) notes, v).
Proof.
  intros Hm. induction notes as [|note rest IH]; intros v; simpl.
  - reflexivity.
  - rewrite (dragNote_moving _ _ _ _ _ _ Hm), IH. reflexivity.
Qed.

(** *** The shape of a moved selection *)

Lemma noClamp_offsets (s : PianoRoll) (shift : bool) (off_ticks off_key : Z) :
  noClamp NumOctaves s off_ticks off_key ->
  boundOffTicks s shift off_ticks = off_ticks /\
  boundOffKey NumOctaves s shift off_key = off_key.
Proof.
  intros (Hl & Ht & Hb). unfold boundOffTicks, boundOffKey.
  destruct (movingNotes s shift); [|split; reflexivity].
  destruct (Z.ltb_spec (m_moveBoundaryLeft s + off_ticks) 0); [lia|].
  destruct (Z.ltb_spec (NumKeys NumOctaves) (m_moveBoundaryTop s + off_key));
    [lia|].
  destruct (Z.ltb_spec (m_moveBoundaryBottom s + off_key) 0); [lia|].
  split; reflexivity.
Qed.

(** Group-shape preservation within the bounds: when notes are moved and
    no boundary check fires for the offsets of the update, every selected
    note moves by these very offsets, so any two selected notes keep the
    differences in position and key they had when the gesture started. *)
Theorem dragNotes_keeps_shape (s : PianoRoll) (x y : Z) (alt shift : bool)
  (notes : list Note.t) :
  m_pattern s = Some notes ->
  movingNotes s shift = true ->
  boxCovers s notes ->
  noClamp NumOctaves s (dragOffTicks DefaultTicksPerTact s x alt)
            (dragOffKey NumOctaves s y) ->
  exists s' notes',
    dragNotes NumOctaves DefaultTicksPerTact s x y alt shift = Some s' /\
    m_pattern s' = Some notes' /\
    List.length notes' = List.length notes /\
    forall i j a b a' b',
      nth_error notes i = Some a -> nth_error notes j = Some b ->
      nth_error notes' i = Some a' -> nth_error notes' j = Some b' ->
      Note.selected a = true -> Note.selected b = true ->
      Note.pos a' = Note.oldPos a + dragOffTicks DefaultTicksPerTact s x alt /\
      Note.key a' = Note.oldKey a + dragOffKey NumOctaves s y /\
      Note.pos a' - Note.pos b' = Note.oldPos a - Note.oldPos b /\
      Note.key a' - Note.key b' = Note.oldKey a - Note.oldKey b.
Proof.
  intros Hp Hm Hbox Hnc.
  destruct (noClamp_offsets s shift _ _ Hnc) as [Et Ek].
  unfold dragNotes. rewrite Hp, Et, Ek, (dragLoop_moving _ _ _ _ _ Hm).
  eexists; eexists. split; [reflexivity|]. split; [reflexivity|].
  split; [apply length_map|].
  intros i j a b a' b' Ha Hb Ha' Hb' Sa Sb.
  rewrite nth_error_map, Ha in Ha'. rewrite nth_error_map, Hb in Hb'.
  simpl in Ha', Hb'. rewrite Sa in Ha'. rewrite Sb in Hb'.
  injection Ha' as <-. injection Hb' as <-. simpl.
  destruct Hnc as (Hl & Ht & Hbt).
  destruct (Hbox a (nth_error_In _ _ Ha) Sa) as (La & Ba & Ta).
  destruct (Hbox b (nth_error_In _ _ Hb) Sb) as (Lb & Bb & Tb).
  lia.
Qed.

(** The box computed when the gesture starts (lines 1388-1424) covers the
    selected notes, whose remembered state is their state at that time. *)
Lemma growBox_covers (notes : list Note.t) :
  forall box l r b t,
  fold_left growBox notes box = Some (l, r, b, t) ->
  (forall l0 r0 b0 t0, box = Some (l0, r0, b0, t0) ->
     l <= l0 /\ b <= b0 /\ t0 <= t) /\
  (forall n, In n notes -> Note.selected n = true ->
     l <= Note.pos n /\ b <= Note.key n <= t).
Proof.
  induction notes as [|note rest IH]; intros box l r b t H; simpl in H.
  - split.
    + intros l0 r0 b0 t0 E. rewrite E in H. injection H as -> -> -> ->. lia.
    + intros n [].
  - destruct (IH _ _ _ _ _ H) as [IHbox IHnotes]. split.
    + intros l0 r0 b0 t0 E. subst box. unfold growBox in IHbox.
      destruct (Note.selected note).
      * destruct (IHbox _ _ _ _ eq_refl) as (A & B & C).
        rewrite !qMin_spec in *. rewrite !qMax_spec in *. lia.
      * apply (IHbox _ _ _ _ eq_refl).
    + intros n [<- | Hin] Hs.
      * unfold growBox in IHbox. rewrite Hs in IHbox.
        destruct box as [[[[l0 r0] b0] t0]|].
        -- destruct (IHbox _ _ _ _ eq_refl) as (A & B & C).
           rewrite !qMin_spec in *. rewrite !qMax_spec in *. lia.
        -- destruct (IHbox _ _ _ _ eq_refl) as (A & B & C). lia.
      * now apply IHnotes.
Qed.

Lemma boundingBox_covers (s : PianoRoll) (notes : list Note.t) (r : Z) :
  boundingBox notes =
    Some (m_moveBoundaryLeft s, r, m_moveBoundaryBottom s,
          m_moveBoundaryTop s) ->
  boxCovers s (map rememberStart notes).
Proof.
  intros H n Hin Hs. apply in_map_iff in Hin as (n0 & <- & Hin0).
  destruct (growBox_covers _ _ _ _ _ _ H) as [_ Hc].
  simpl in *. now apply Hc.
Qed.

(** *** Resizing with shift held *)

Lemma dragNote_resize_frame (s : PianoRoll) (shift : bool)
  (off_ticks off_key : Z) (v : DragVars) (note : Note.t) :
  m_action s = ActionResizeNote ->
  resizeFrame note (fst (dragNote NumOctaves s shift off_ticks off_key v note)).
Proof.
  intros Ha. unfold dragNote, movingNotes. rewrite Ha. simpl.
  destruct shift; simpl;
    destruct (Note.selected note) eqn:Hs; simpl;
    repeat match goal with
           | |- context [if ?c then _ else _] => destruct c; simpl
           end;
    unfold resizeFrame; simpl; rewrite ?Hs;
    repeat split; try reflexivity; try discriminate.
Qed.

Lemma dragLoop_resize_frame (s : PianoRoll) (shift : bool)
  (off_ticks off_key : Z) (notes : list Note.t) :
  m_action s = ActionResizeNote ->
  forall v,
  Forall2 resizeFrame notes
    (fst (dragLoop NumOctaves s shift off_ticks off_key v notes)).
Proof.
  intros Ha. induction notes as [|note rest IH]; intros v; simpl.
  - constructor.
  - pose proof (dragNote_resize_frame s shift off_ticks off_key v note Ha) as H.
    destruct (dragNote NumOctaves s shift off_ticks off_key v note)
      as [note' v'].
    specialize (IH v').
    destruct (dragLoop NumOctaves s shift off_ticks off_key v' rest)
      as [rest' v''].
    simpl in *. now constructor.
Qed.

(** The notes in front of the first selected note are put at their
    remembered positions: no offset has been gathered yet. *)
Lemma dragLoop_resize_front (s : PianoRoll) (off_ticks off_key len : Z)
  (front rest : list Note.t) :
  m_action s = ActionResizeNote ->
  Forall (fun n => Note.selected n = false /\ Note.pos n <> -1) front ->
  fst (dragLoop NumOctaves s true off_ticks off_key
         (mkDragVars 0 (-1) len) (front ++ rest)) =
  map (fun n => Note.setPos (Note.oldPos n) n) front ++
  fst (dragLoop NumOctaves s true off_ticks off_key
         (mkDragVars 0 (-1) len) rest).
Proof.
  intros Ha Hf. induction Hf as [|n front [Hs Hp] _ IH]; simpl.
  - reflexivity.
  - unfold dragNote at 1. rewrite Ha. simpl.
    destruct (Z.eqb_spec (Note.pos n) (-1)) as [E|_]; [contradiction|].
    rewrite andb_false_r, Z.add_0_r. simpl. rewrite Hs.
    destruct (dragLoop NumOctaves s true off_ticks off_key
                (mkDragVars 0 (-1) len) (front ++ rest)) as [l' v'].
    simpl in *. now rewrite IH.
Qed.

(** Notes that are not selected are only shifted, and the variables of the
    loop pass them unchanged. *)
Lemma dragLoop_resize_unselected (s : PianoRoll) (off_ticks off_key : Z)
  (notes : list Note.t) :
  m_action s = ActionResizeNote ->
  Forall (fun n => Note.selected n = false) notes ->
  forall v,
  dragLoop NumOctaves s true off_ticks off_key v notes =
  (map (shiftedNote off_ticks v) notes, v).
Proof.
  intros Ha Hu. induction Hu as [|n rest Hn _ IH]; intros v; simpl.
  - reflexivity.
  - unfold dragNote at 1. rewrite Ha. simpl. rewrite Hn, IH. reflexivity.
Qed.

Lemma setPos_same (n : Note.t) : Note.setPos (Note.pos n) n = n.
Proof. now destruct n. Qed.

(** Before any offset has been gathered a note of a fresh gesture is put
    where it is. *)
Lemma shiftedNote_start (off_ticks len : Z) (n : Note.t) :
  Note.pos n = Note.oldPos n -> 0 <= Note.pos n ->
  shiftedNote off_ticks (mkDragVars 0 (-1) len) n = n.
Proof.
  intros Hf Hp. unfold shiftedNote. simpl.
  destruct (Z.eqb_spec (Note.pos n) (-1)) as [E1|_]; [lia|].
  rewrite andb_false_r, Z.add_0_r, <- Hf. apply setPos_same.
Qed.

(** The whole of a first update of a resize with shift held, with one
    selected note [A] amid the notes and the notes behind [A] not left of
    it.  The notes in front of [A] stay.  [A] gets its new length.  If that
    length was cut to 1 the notes behind [A] stay; otherwise those that
    start later than [A] move by the offset, and those that start with [A]
    stay, but for the offset that takes them to tick 0, where they go. *)
Lemma dragLoop_shift_resize_single (s : PianoRoll) (off_ticks off_key len : Z)
  (front back : list Note.t) (A : Note.t) :
  m_action s = ActionResizeNote ->
  Forall (fun n => Note.selected n = false) front ->
  Note.selected A = true ->
  Forall (fun n => Note.selected n = false) back ->
  freshStart (front ++ A :: back) ->
  fst (dragLoop NumOctaves s true off_ticks off_key
         (mkDragVars 0 (-1) len) (front ++ A :: back)) =
  front
  ++ Note.setLength
       (if Note.oldLength A + off_ticks <=? 0
        then 1 else Note.oldLength A + off_ticks) A
  :: map (fun n =>
            if Note.oldLength A + off_ticks <=? 0 then n
            else if Note.pos n =? Note.pos A
            then if Note.pos n + off_ticks =? 0 then Note.setPos 0 n else n
            else Note.setPos (Note.pos n + off_ticks) n) back.
Proof.
  intros Ha Hfront HA Hback Hfresh.
  apply Forall_app in Hfresh as [Ffront Frest].
  inversion Frest as [|? ? [FA PA] Fback]; subst.
  rewrite dragLoop_resize_front; [|assumption|].
  2:{ rewrite Forall_forall in *. intros n Hn.
      split; [now apply Hfront|]. destruct (Ffront n Hn). lia. }
  f_equal.
  - rewrite <- (map_id front) at 2. apply map_ext_in. intros n Hn.
    rewrite Forall_forall in Ffront. destruct (Ffront n Hn) as [<- _].
    apply setPos_same.
  - simpl. unfold dragNote at 1. unfold movingNotes. rewrite Ha. simpl.
    destruct (Z.eqb_spec (Note.pos A) (-1)) as [E1|_]; [lia|].
    rewrite andb_false_r, Z.add_0_r, <- FA, setPos_same, HA.
    destruct (Z.leb_spec (Note.oldLength A + off_ticks) 0) as [Hcut|Hgrow].
    + rewrite (dragLoop_resize_unselected _ _ _ _ Ha Hback). simpl. f_equal.
      apply map_ext_in. intros n Hn.
      rewrite Forall_forall in Fback. destruct (Fback n Hn).
      now apply shiftedNote_start.
    + destruct (Z.ltb_spec (-1) (Note.pos A)); [|lia].
      rewrite (dragLoop_resize_unselected _ _ _ _ Ha Hback). simpl. f_equal.
      apply map_ext_in. intros n Hn.
      rewrite Forall_forall in Fback. destruct (Fback n Hn) as [Fn Pn].
      unfold shiftedNote. simpl. rewrite <- Fn.
      destruct (Z.eqb_spec (Note.pos n) (Note.pos A)) as [E|NE];
        destruct (Z.eqb_spec (Note.pos n + off_ticks) 0) as [Z0|NZ]; simpl.
      * now rewrite Z0.
      * replace (Note.pos n + off_ticks - off_ticks) with (Note.pos n) by lia.
        apply setPos_same.
      * reflexivity.
      * reflexivity.
Qed.

(** Shift-propagation conservation, away from that one offset: the notes
    that start no later than the resized note stay as they are, the later
    ones keep length and key. *)
Lemma dragLoop_shift_resize_conserves (s : PianoRoll)
  (off_ticks off_key len : Z) (front back : list Note.t) (A : Note.t) :
  m_action s = ActionResizeNote ->
  Forall (fun n => Note.selected n = false) front ->
  Note.selected A = true ->
  Forall (fun n => Note.selected n = false) back ->
  freshStart (front ++ A :: back) ->
  Forall (fun n => Note.pos A <= Note.pos n) back ->
  Note.pos A + off_ticks <> 0 ->
  exists A' back',
    fst (dragLoop NumOctaves s true off_ticks off_key
           (mkDragVars 0 (-1) len) (front ++ A :: back)) =
    front ++ A' :: back' /\
    A' = Note.setLength (Note.length A') A /\
    Forall2 (fun n n' =>
               n' = Note.setPos (Note.pos n') n /\
               (Note.pos n <= Note.pos A -> n' = n))
            back back'.
Proof.
  intros Ha Hfront HA Hback Hfresh Hasc Hnz.
  rewrite (dragLoop_shift_resize_single s off_ticks off_key len front back A)
    by assumption.
  eexists; eexists. split; [reflexivity|]. split; [reflexivity|].
  clear Hback Hfresh.
  induction Hasc as [|n back Hn _ IH]; simpl; constructor.
  - destruct (Note.oldLength A + off_ticks <=? 0).
    + split; [symmetry; apply setPos_same | reflexivity].
    + destruct (Z.eqb_spec (Note.pos n) (Note.pos A)) as [E|NE].
      * destruct (Z.eqb_spec (Note.pos n + off_ticks) 0) as [Z0|_]; [lia|].
        split; [symmetry; apply setPos_same | reflexivity].
      * split; [reflexivity | lia].
  - exact IH.
Qed.

(** *** Committing a selection *)

Lemma inSelection_setSelected (s : PianoRoll) (b : bool) (n : Note.t) :
  inSelection s (Note.setSelected b n) = inSelection s n.
Proof. reflexivity. Qed.

Lemma setSelected_same (n : Note.t) : Note.setSelected (Note.selected n) n = n.
Proof. now destruct n. Qed.

Lemma selectNote_additive (s : PianoRoll) (n : Note.t) :
  selectNote s true n = toggleIfIn s n.
Proof. reflexivity. Qed.

Lemma toggleIfIn_twice (s : PianoRoll) (n : Note.t) :
  toggleIfIn s (toggleIfIn s n) = n.
Proof.
  unfold toggleIfIn. destruct (inSelection s n) eqn:E.
  - rewrite inSelection_setSelected, E. destruct n as [? ? ? ? ? []]; reflexivity.
  - now rewrite E.
Qed.

(** The region and the scroll position are all that the test of a note
    against the region reads from the editor. *)
Lemma inSelection_ext (s1 s2 : PianoRoll) (n : Note.t) :
  m_selectStartTick s1 = m_selectStartTick s2 ->
  m_selectedTick s1 = m_selectedTick s2 ->
  m_selectStartKey s1 = m_selectStartKey s2 ->
  m_selectedKeys s1 = m_selectedKeys s2 ->
  m_startKey s1 = m_startKey s2 ->
  inSelection s1 n = inSelection s2 n.
Proof. unfold inSelection. now intros -> -> -> -> ->. Qed.

(** C5.  Selection toggle symmetry: an additive commit flips the flag of
    every note that the region matches and changes no other note; committing
    additively a second time with the same region gives back the notes as
    they were. *)
Theorem computeSelectedNotes_additive_twice (s : PianoRoll) :
  let region s' :=
    set_selection (m_selectStartTick s) (m_selectedTick s)
                  (m_selectStartKey s) (m_selectedKeys s) s' in
  m_pattern (computeSelectedNotes s true) =
    (if noSelection s then m_pattern s
     else option_map (map (toggleIfIn s)) (m_pattern s)) /\
  m_pattern
    (computeSelectedNotes (region (computeSelectedNotes s true)) true) =
    m_pattern s.
Proof.
  simpl. unfold computeSelectedNotes.
  destruct (noSelection s) eqn:Hz.
  - split; [reflexivity|].
    assert (Hz' : noSelection
              (set_selection (m_selectStartTick s) (m_selectedTick s)
                 (m_selectStartKey s) (m_selectedKeys s) s) = true)
      by exact Hz.
    now rewrite Hz'.
  - destruct (m_pattern s) as [notes|] eqn:Hp.
    + split; [reflexivity|].
      match goal with
      | |- context [noSelection ?t] =>
          assert (Hz' : noSelection t = false) by exact Hz; rewrite Hz'
      end.
      simpl. f_equal. rewrite map_map.
      rewrite <- (map_id notes) at 2. apply map_ext. intros n.
      rewrite !selectNote_additive.
      unfold toggleIfIn at 1.
      rewrite (inSelection_ext _ s (toggleIfIn s n)) by reflexivity.
      apply toggleIfIn_twice.
    + split; [simpl; now rewrite Hp|].
      match goal with
      | |- context [noSelection ?t] =>
          assert (Hz' : noSelection t = false) by exact Hz; rewrite Hz'
      end.
      simpl. now rewrite Hp.
Qed.

(** C10.  With a region whose four fields are zero a commit returns at once:
    the editor, and with it the selection flag of every note, is as before,
    also for a commit that is not additive. *)
Theorem computeSelectedNotes_no_region (s : PianoRoll) (shift : bool) :
  m_selectStartTick s = 0 -> m_selectedTick s = 0 ->
  m_selectStartKey s = 0 -> m_selectedKeys s = 0 ->
  computeSelectedNotes s shift = s.
Proof.
  intros H1 H2 H3 H4. unfold computeSelectedNotes, noSelection.
  now rewrite H1, H2, H3, H4.
Qed.

(** *** Pasting *)

Lemma addNote_Permutation (n : Note.t) (notes : list Note.t) :
  Permutation (addNote n notes) (n :: notes).
Proof.
  induction notes as [|m rest IH]; simpl.
  - apply Permutation_refl.
  - destruct (Note.pos n <? Note.pos m).
    + apply Permutation_refl.
    + eapply Permutation_trans; [apply perm_skip, IH | apply perm_swap].
Qed.

(** [addNote] keeps the notes in ascending order of position. *)
Lemma addNote_sorted (n : Note.t) (notes : list Note.t) :
  Sorted (fun a b => Note.pos a <= Note.pos b) notes ->
  Sorted (fun a b => Note.pos a <= Note.pos b) (addNote n notes).
Proof.
  induction notes as [|m rest IH]; intros Hs; simpl.
  - repeat constructor.
  - destruct (Z.ltb_spec (Note.pos n) (Note.pos m)) as [Hlt|Hge].
    + constructor; [assumption|]. constructor. lia.
    + inversion Hs as [|? ? Hrest Hhd]; subst.
      constructor; [now apply IH|].
      destruct rest as [|m' rest']; simpl.
      * constructor. lia.
      * destruct (Z.ltb_spec (Note.pos n) (Note.pos m')).
        -- constructor. lia.
        -- inversion Hhd; subst. now constructor.
Qed.

Lemma paste_fold_Permutation (f : Note.t -> Note.t) (list : list Note.t) :
  forall notes,
  Permutation
    (fold_left (fun notes cur_note => addNote (f cur_note) notes) list notes)
    (notes ++ map f list).
Proof.
  induction list as [|c rest IH]; intros notes; simpl.
  - rewrite app_nil_r. apply Permutation_refl.
  - eapply Permutation_trans; [apply IH|].
    eapply Permutation_trans;
      [apply Permutation_app_tail, addNote_Permutation|].
    simpl. apply Permutation_middle.
Qed.

(** C9.  Pasting: the notes of the pattern after [pasteNotes] are the notes
    it held, each with its selection flag cleared, together with one note
    for every note read from the clipboard, selected and placed at its
    stored position plus the position of the time line. *)
Theorem pasteNotes_displaces_and_selects (s : PianoRoll)
  (notes list : list Note.t) :
  m_pattern s = Some notes ->
  exists notes',
    pasteNotes s (Some list) =
      set_pattern (Some notes') (clearSelectedNotes s) /\
    Permutation notes'
      (map (Note.setSelected false) notes ++ map (pasted s) list) /\
    Forall (fun n => Note.selected n = true /\
                     exists c, In c list /\
                       Note.pos n = Note.pos c + m_timeLinePos s /\
                       Note.length n = Note.length c /\
                       Note.key n = Note.key c)
           (map (pasted s) list).
Proof.
  intros Hp. unfold pasteNotes, hasValidPattern, clearSelectedNotes.
  rewrite Hp. simpl.
  eexists. split; [reflexivity|]. split.
  - apply (paste_fold_Permutation (pasted s)).
  - apply Forall_forall. intros n Hin.
    apply in_map_iff in Hin as (c & <- & Hc).
    split; [reflexivity|]. exists c. repeat split; assumption.
Qed.

(** *** Placing a note *)

(** The note that lines 1337-1343 build and hand to the pattern, on a press
    of the left button on the canvas with the draw tool, no control key and
    no note under the pointer: its length is the configured length of new
    notes, its key the key under the pointer and its position the tick under
    the pointer less half a quantization step; it is selected and has the
    last volume and panning. *)
Lemma newNoteOnPress_places_note (s : PianoRoll) (x y : Z)
  (notes : list Note.t) :
  m_pattern s = Some notes ->
  m_editMode s = ModeDraw ->
  PR_TOP_MARGIN < y <= keyAreaBottom s ->
  WHITE_KEY_WIDTH < x ->
  noteClicked s false (pointerTick s x) (getKey NumOctaves s y) notes = None ->
  exists n,
    newNoteOnPress NumOctaves DefaultTicksPerTact s x y true false = Some n /\
    Note.length n = newNoteLen DefaultTicksPerTact s /\
    Note.key n = getKey NumOctaves s y /\
    Note.pos n =
      pointerTick s x - Z.quot (quantization DefaultTicksPerTact s) 2 /\
    Note.selected n = true /\
    Note.volume n = m_lastNoteVolume s /\
    Note.panning n = m_lastNotePanning s.
Proof.
  intros Hp Hm [Hy1 Hy2] Hx Hnone. unfold newNoteOnPress.
  rewrite Hp, Hm. simpl.
  assert (Hn : noteEditTop s = keyAreaBottom s + NOTE_EDIT_RESIZE_BAR)
    by reflexivity.
  unfold NOTE_EDIT_RESIZE_BAR in Hn.
  destruct (Z.ltb_spec (keyAreaBottom s) y); [lia|]. simpl.
  destruct (Z.ltb_spec PR_TOP_MARGIN y); [|lia]. simpl.
  destruct (Z.ltb_spec (noteEditTop s) y); [lia|].
  destruct (Z.ltb_spec WHITE_KEY_WIDTH x); [|lia]. simpl.
  unfold pointerTick in Hnone. rewrite Hnone.
  eexists. split; [reflexivity|]. simpl. repeat split; reflexivity.
Qed.



(** *** Shifting by keys of the keyboard *)

(** Once the first note has been shifted the amount is settled. *)
Lemma shiftPosLoop_settled (useAllNotes : bool) (amount boundary : Z)
  (notes : list Note.t) :
  shiftPosLoop useAllNotes amount false boundary notes =
  (map (fun n => if shiftsPos useAllNotes n
                 then Note.setPos (Note.pos n + amount) n else n) notes,
   boundary).
Proof.
  induction notes as [|n rest IH]; simpl.
  - reflexivity.
  - rewrite IH. now destruct (shiftsPos useAllNotes n).
Qed.

Lemma shiftPosLoop_first (useAllNotes : bool) (amount : Z)
  (notes : list Note.t) :
  forall boundary,
  fst (shiftPosLoop useAllNotes amount true boundary notes) =
  map (fun n => if shiftsPos useAllNotes n
                then Note.setPos
                       (Note.pos n + shiftPosAmount useAllNotes amount notes) n
                else n) notes.
Proof.
  induction notes as [|n rest IH]; intros boundary; simpl.
  - reflexivity.
  - destruct (shiftsPos useAllNotes n) eqn:Hn.
    + rewrite shiftPosLoop_settled. simpl.
      destruct (Z.ltb_spec (Note.pos n + amount) 0); simpl; [|reflexivity].
      replace (amount + - (amount + Note.pos n)) with (- Note.pos n) by lia.
      reflexivity.
    + specialize (IH boundary).
      destruct (shiftPosLoop useAllNotes amount true boundary rest)
        as [rest' b']. simpl in *. now rewrite IH.
Qed.

Lemma shiftPosAmount_ascending (useAllNotes : bool) (amount : Z)
  (notes : list Note.t) :
  ascending notes ->
  forall n, In n notes -> shiftsPos useAllNotes n = true ->
  0 <= Note.pos n + shiftPosAmount useAllNotes amount notes.
Proof.
  induction 1 as [|m rest Hrest IH Hm]; intros n Hin Hn.
  - destruct Hin.
  - simpl. destruct (shiftsPos useAllNotes m) eqn:Em.
    + assert (Hle : Note.pos m <= Note.pos n).
      { destruct Hin as [<- | Hin]; [lia|].
        rewrite Forall_forall in Hm. now apply Hm. }
      destruct (Z.ltb_spec (Note.pos m + amount) 0); lia.
    + destruct Hin as [<- | Hin]; [congruence|]. now apply IH.
Qed.

(** What the two shifts do when there is a pattern.  [shiftPos] cuts the
    amount once, at the first note it shifts, and shifts every affected note
    by the amount so cut: when the notes are in ascending order of position
    no affected note ends left of tick 0.  [shiftSemiTone] hands the key
    plus the amount of every affected note to [Note::setKey]. *)
Theorem shiftPos_shiftSemiTone_range (s : PianoRoll) (amount : Z)
  (notes : list Note.t) :
  m_pattern s = Some notes ->
  let useAllNotes := negb (isSelection notes) in
  (exists s' amount',
     shiftPos s amount = Some s' /\
     m_pattern s' =
       Some (map (fun n => if shiftsPos useAllNotes n
                           then Note.setPos (Note.pos n + amount') n
                           else n) notes) /\
     (ascending notes ->
      forall n, In n notes -> shiftsPos useAllNotes n = true ->
                0 <= Note.pos n + amount')) /\
  (exists s',
     shiftSemiTone s amount = Some s' /\
     m_pattern s' =
       Some (map (fun n => if useAllNotes || Note.selected n
                           then Note.setKey (Note.key n + amount) n
                           else n) notes)).
Proof.
  intros Hp useAllNotes. split.
  - unfold shiftPos. rewrite Hp. fold useAllNotes.
    pose proof (shiftPosLoop_first useAllNotes amount notes
                  (m_moveBoundaryLeft s)) as Hl.
    destruct (shiftPosLoop useAllNotes amount true (m_moveBoundaryLeft s)
                notes) as [notes' b]. simpl in Hl. subst notes'.
    eexists; exists (shiftPosAmount useAllNotes amount notes).
    split; [reflexivity|]. split; [reflexivity|].
    intros Hasc. now apply shiftPosAmount_ascending.
  - unfold shiftSemiTone. rewrite Hp. fold useAllNotes.
    eexists. split; reflexivity.
Qed.

(** *** Marking a scale *)

Lemma In_upTo (first last k : Z) :
  In k (upTo first last) <-> first <= k <= last.
Proof.
  unfold upTo. rewrite in_map_iff. split.
  - intros (n & <- & Hn). apply in_seq in Hn. lia.
  - intros Hk. exists (Z.to_nat (k - first)). split; [lia|].
    apply in_seq. lia.
Qed.

Lemma In_insertGreater (x y : Z) (l : list Z) :
  In y (insertGreater x l) <-> y = x \/ In y l.
Proof.
  induction l as [|z l IH]; simpl.
  - intuition.
  - destruct (z <? x); simpl; rewrite ?IH; intuition.
Qed.

Lemma In_qSortGreater (y : Z) (l : list Z) :
  In y (qSortGreater l) <-> In y l.
Proof.
  induction l as [|x l IH]; simpl.
  - reflexivity.
  - rewrite In_insertGreater, IH. intuition.
Qed.

Lemma insertGreater_descending (x : Z) (l : list Z) :
  descending l -> descending (insertGreater x l).
Proof.
  induction 1 as [|z l Hl IH Hz]; simpl.
  - repeat constructor.
  - destruct (Z.ltb_spec z x).
    + constructor; [now constructor|].
      constructor; [lia|]. eapply Forall_impl; [|exact Hz]. simpl. lia.
    + constructor; [assumption|].
      apply Forall_forall. intros y Hy.
      apply In_insertGreater in Hy as [-> | Hy]; [lia|].
      rewrite Forall_forall in Hz. now apply Hz.
Qed.

Lemma qSortGreater_descending (l : list Z) : descending (qSortGreater l).
Proof.
  induction l as [|x l IH]; simpl.
  - constructor.
  - now apply insertGreater_descending.
Qed.

Lemma In_unique (y : Z) (l : list Z) : In y (unique l) <-> In y l.
Proof.
  induction l as [|x l IH]; [reflexivity|].
  destruct l as [|z l]; [reflexivity|].
  change (unique (x :: z :: l))
    with (if x =? z then unique (z :: l) else x :: unique (z :: l)).
  destruct (Z.eqb_spec x z) as [-> | Hne].
  - rewrite IH. simpl. intuition.
  - simpl In at 1. rewrite IH. simpl. intuition.
Qed.

Lemma unique_descending_NoDup (l : list Z) :
  descending l -> NoDup (unique l).
Proof.
  induction 1 as [|x l Hl IH Hx]; [constructor|].
  destruct l as [|z l]; [repeat constructor; intros []|].
  change (unique (x :: z :: l))
    with (if x =? z then unique (z :: l) else x :: unique (z :: l)).
  destruct (Z.eqb_spec x z) as [-> | Hne]; [assumption|].
  constructor; [|assumption].
  rewrite In_unique. intros Hin.
  inversion Hx as [|? ? Hzx Hrest]; subst.
  inversion Hl as [|? ? _ Hz]; subst.
  destruct Hin as [-> | Hin]; [lia|].
  rewrite Forall_forall in Hz. specialize (Hz _ Hin). simpl in Hz.
  rewrite Forall_forall in Hrest. specialize (Hrest _ Hin). simpl in Hrest.
  lia.
Qed.

Lemma getKey_range (s : PianoRoll) (y : Z) :
  0 < NumOctaves -> 0 <= getKey NumOctaves s y < NumKeys NumOctaves.
Proof.
  intros HN. unfold getKey, NumKeys, KeysPerOctave.
  repeat match goal with
         | |- context [?a <? ?b] => destruct (Z.ltb_spec a b)
         | |- context [?a <=? ?b] => destruct (Z.leb_spec a b)
         end; lia.
Qed.

(** For keys that are not negative the argument of [hasSemiTone] is the
    distance to the reference key modulo the octave. *)
Lemma scale_step (i key : Z) :
  0 <= i -> 0 <= key ->
  Z.rem (i + KeysPerOctave - Z.rem key KeysPerOctave) KeysPerOctave =
  (i - key) mod KeysPerOctave.
Proof.
  intros Hi Hk. unfold KeysPerOctave.
  rewrite (Z.rem_mod_nonneg key 12) by lia.
  pose proof (Z.mod_pos_bound key 12 ltac:(lia)).
  rewrite Z.rem_mod_nonneg by lia.
  replace (i + 12 - key mod 12) with ((i - key) + (key / 12 + 1) * 12).
  - apply Z.mod_add. lia.
  - pose proof (Z.div_mod key 12 ltac:(lia)). lia.
Qed.

(** The marks after "mark current scale" with a scale that is not empty:
    the old marks are gone, no key is marked twice, and the keys marked are
    those from 0 up to and including [NumKeys] whose distance to the
    reference key, modulo the octave, is an interval of the scale. *)
Lemma markSemiTone_scale (s : PianoRoll) (menu_y : Z) :
  0 < NumOctaves ->
  isScale (m_scale s) = true -> chord_isEmpty (m_scale s) = false ->
  let marks :=
    m_markedSemiTones (markSemiTone NumOctaves s stmaMarkCurrentScale menu_y) in
  NoDup marks /\
  forall k, In k marks <->
    0 <= k <= NumKeys NumOctaves /\
    hasSemiTone (m_scale s)
      ((k - getKey NumOctaves s menu_y) mod KeysPerOctave) = true.
Proof.
  intros HN Hs He. unfold markSemiTone. simpl. rewrite He, Hs. simpl.
  split.
  - apply unique_descending_NoDup, qSortGreater_descending.
  - intros k. rewrite In_unique, In_qSortGreater.
    unfold markedBy. rewrite Hs. simpl.
    rewrite filter_In, In_upTo.
    pose proof (getKey_range s menu_y HN) as Hk.
    split; intros [Hr Hh]; (split; [lia|]).
    + rewrite <- scale_step by lia. exact Hh.
    + rewrite scale_step by lia. exact Hh.
Qed.

(** The key [NumKeys], one past the last key of the keyboard, is marked
    whenever its distance to the reference key is an interval of the
    scale. *)
Lemma markSemiTone_scale_marks_NumKeys (s : PianoRoll) (menu_y : Z) :
  0 < NumOctaves ->
  isScale (m_scale s) = true -> chord_isEmpty (m_scale s) = false ->
  hasSemiTone (m_scale s)
    ((NumKeys NumOctaves - getKey NumOctaves s menu_y) mod KeysPerOctave)
    = true ->
  In (NumKeys NumOctaves)
     (m_markedSemiTones
        (markSemiTone NumOctaves s stmaMarkCurrentScale menu_y)).
Proof.
  intros HN Hs He Hh.
  apply (markSemiTone_scale s menu_y HN Hs He). split; [|exact Hh].
  unfold NumKeys, KeysPerOctave. lia.
Qed.

End EditorFacts.

(** ** The examples worked out *)

(** The scenario of the specification: notes at [0,96) and [50,150), moved
    by +10 ticks on a grid of 16: the offset is 0 and no note moves. *)
Example dragNotes_ten_right :
  quantization 192 (twoNotes 0 50) = 16 /\
  dragOffTicks 192 (twoNotes 0 50) 310 false = 0 /\
  option_map notePositions (dragNotes 10 192 (twoNotes 0 50) 310 200 false false)
  = Some [0; 50].
Proof. repeat split. Qed.

(** C1.  The offset is quantized by a truncated quotient, not by its floor:
    moved by 10 ticks to the left on a grid of 16 the notes at 96 and 146
    stay where they are, where the floor would take them 16 ticks left. *)
Theorem dragNotes_quantize_truncates :
  quantizeOffset (-10) 16 = 0 /\
  spec_snap (-10) 16 = -16 /\
  dragOffTicks 192 (twoNotes 96 146) 290 false = 0 /\
  option_map notePositions
    (dragNotes 10 192 (twoNotes 96 146) 290 200 false false)
  = Some [96; 146].
Proof. repeat split. Qed.

(** A move gesture of four updates: quantized, free, a quick resize and a
    drag far beyond every bound. *)
Lemma dragSeq_move_inRange_witness :
  exists s' notes',
    dragSeq 10 192 (twoNotes 0 50)
      [(310, 200, false, false); (100, 500, true, false);
       (200, 20, true, true); (900, -4000, false, false)] = Some s' /\
    m_pattern s' = Some notes' /\
    map Note.selected notes' = [true; true] /\
    selectedInRange 10 notes'.
Proof.
  apply (dragSeq_move_inRange 10 192 _ (twoNotes 0 50)
           [noteAt 0 96 60 true; noteAt 50 100 62 true]).
  - vm_compute. discriminate.
  - reflexivity.
  - reflexivity.
  - repeat constructor; simpl; unfold NumKeys, KeysPerOctave; lia.
Defined.

(** A free drag by 40 ticks and 2 keys, inside the bounds. *)
Lemma dragNotes_keeps_shape_witness :
  exists s' notes',
    dragNotes 10 192 (twoNotes 0 50) 340 180 true false = Some s' /\
    m_pattern s' = Some notes' /\
    List.length notes' = 2%nat /\
    forall i j a b a' b',
      nth_error [noteAt 0 96 60 true; noteAt 50 100 62 true] i = Some a ->
      nth_error [noteAt 0 96 60 true; noteAt 50 100 62 true] j = Some b ->
      nth_error notes' i = Some a' -> nth_error notes' j = Some b' ->
      Note.selected a = true -> Note.selected b = true ->
      Note.pos a' = Note.oldPos a + 40 /\
      Note.key a' = Note.oldKey a + 2 /\
      Note.pos a' - Note.pos b' = Note.oldPos a - Note.oldPos b /\
      Note.key a' - Note.key b' = Note.oldKey a - Note.oldKey b.
Proof.
  apply (dragNotes_keeps_shape 10 192 (twoNotes 0 50) 340 180 true false
           [noteAt 0 96 60 true; noteAt 50 100 62 true]).
  - reflexivity.
  - reflexivity.
  - intros n [<- | [<- | []]] _; simpl; lia.
  - vm_compute. repeat split; discriminate.
Defined.

(** C4.  Resizing with shift held, 12 ticks to the left: the selected note
    shrinks to 12 ticks and the later note moves from 48 to 36, but the
    unselected note of the chord, which starts at the very tick of the
    resized note, is taken from tick 12 to tick 0. *)
Theorem dragNotes_shift_resize_moves_chord_note :
  dragOffTicks 192 chordAndLater 288 false = -12 /\
  option_map (fun s => (notePositions s, noteLengths s, noteKeys s))
    (dragNotes 10 192 chordAndLater 288 200 false true)
  = Some ([12; 0; 36], [12; 24; 24], [60; 64; 62]).
Proof. repeat split. Qed.

(** The same drag by 6 ticks, free of the grid: the note of the chord
    stays, as every other offset but -12 leaves it. *)
Example dragNotes_shift_resize_keeps_chord_note :
  option_map (fun s => (notePositions s, noteLengths s, noteKeys s))
    (dragNotes 10 192 chordAndLater 294 200 true true)
  = Some ([12; 12; 42], [18; 24; 24], [60; 64; 62]).
Proof. reflexivity. Qed.




(** The same press: the note as it is handed to the pattern. *)
Lemma newNoteOnPress_places_note_witness :
  exists n,
    newNoteOnPress 10 192 emptyRoll 74 200 true false = Some n /\
    Note.length n = 48 /\
    Note.key n = 71 /\
    Note.pos n = 10 - 8 /\
    Note.selected n = true /\
    Note.volume n = 100 /\
    Note.panning n = 0.
Proof.
  apply (newNoteOnPress_places_note 10 192 emptyRoll 74 200 []).
  - reflexivity.
  - reflexivity.
  - vm_compute. split; [reflexivity | discriminate].
  - reflexivity.
  - reflexivity.
Defined.

(** C7.  [shiftPos] keeps the notes right of tick 0 only as far as the
    first note it shifts goes.  From two notes in order, the first of them
    selected, a shift of a bar to the right and an additive commit of a
    region around the second note give the editor [outOfOrder]: both notes
    selected, the one at tick 240 before the one at tick 96.  A shift of a
    bar to the left is then checked against the note at tick 240 alone and
    takes the other note to tick -96, where the same shift of the same two
    notes in order is cut to 48 ticks.  With no pattern neither shift
    returns. *)
Theorem shiftPos_checks_first_note_only :
  option_map
    (fun s => computeSelectedNotes (set_selection 90 20 61 1 s) true)
    (shiftPos firstSelectedOnly 192)
  = Some outOfOrder /\
  option_map notePositions (shiftPos outOfOrder (-192)) = Some [48; -96] /\
  option_map notePositions (shiftPos inOrder (-192)) = Some [0; 48] /\
  hasValidPattern noPattern = false /\
  shiftPos noPattern (-192) = None /\
  shiftSemiTone noPattern 12 = None.
Proof. repeat split. Qed.

(** Two selected notes in order, shifted by -192, and what
    [shiftPos_shiftSemiTone_range] says of them. *)
Lemma shiftPos_shiftSemiTone_range_witness :
  let notes := [noteAt 48 48 60 true; noteAt 96 48 62 true] in
  let s := editorOn notes ActionNone 12 0 0 0 0 in
  (exists s' amount',
     shiftPos s (-192) = Some s' /\
     m_pattern s' =
       Some (map (fun n => if shiftsPos false n
                           then Note.setPos (Note.pos n + amount') n
                           else n) notes) /\
     (ascending notes ->
      forall n, In n notes -> shiftsPos false n = true ->
                0 <= Note.pos n + amount')) /\
  (exists s',
     shiftSemiTone s (-192) = Some s' /\
     m_pattern s' =
       Some (map (fun n => if false || Note.selected n
                           then Note.setKey (Note.key n + -192) n
                           else n) notes)).
Proof.
  apply (shiftPos_shiftSemiTone_range
           (editorOn [noteAt 48 48 60 true; noteAt 96 48 62 true]
                     ActionNone 12 0 0 0 0) (-192)
           [noteAt 48 48 60 true; noteAt 96 48 62 true]).
  reflexivity.
Defined.

(** C8.  "Mark current scale" on a C marks the key 120 = [NumKeys] as well,
    a key past the last key of the keyboard: it is the greatest mark, and
    71 keys are marked, where the keys below [NumKeys] that belong to the
    scale are 70. *)
Theorem markSemiTone_scale_marks_key_past_keyboard :
  getKey 10 emptyRoll markerOnC = 48 /\
  NumKeys 10 = 120 /\
  hd_error
    (m_markedSemiTones (markSemiTone 10 emptyRoll stmaMarkCurrentScale markerOnC))
  = Some 120 /\
  List.length
    (m_markedSemiTones (markSemiTone 10 emptyRoll stmaMarkCurrentScale markerOnC))
  = 71%nat /\
  List.length
    (filter (fun k => hasSemiTone majorScale ((k - 48) mod 12)) (upTo 0 119))
  = 70%nat.
Proof. repeat split. Qed.

(** Two notes pasted into a pattern of two. *)
Lemma pasteNotes_displaces_and_selects_witness :
  exists notes',
    pasteNotes twoInPattern (Some [noteAt 0 24 64 false; noteAt 24 24 67 false])
    = set_pattern (Some notes') (clearSelectedNotes twoInPattern) /\
    Permutation notes'
      (map (Note.setSelected false)
           [noteAt 0 48 60 true; noteAt 96 48 62 false]
       ++ map (pasted twoInPattern)
              [noteAt 0 24 64 false; noteAt 24 24 67 false]) /\
    Forall (fun n => Note.selected n = true /\
                     exists c,
                       In c [noteAt 0 24 64 false; noteAt 24 24 67 false] /\
                       Note.pos n = Note.pos c + m_timeLinePos twoInPattern /\
                       Note.length n = Note.length c /\
                       Note.key n = Note.key c)
           (map (pasted twoInPattern)
                [noteAt 0 24 64 false; noteAt 24 24 67 false]).
Proof.
  apply (pasteNotes_displaces_and_selects twoInPattern
           [noteAt 0 48 60 true; noteAt 96 48 62 false]).
  reflexivity.
Defined.

Example pasteNotes_positions :
  notePositions
    (pasteNotes twoInPattern (Some [noteAt 0 24 64 false; noteAt 24 24 67 false]))
  = [0; 96; 384; 408].
Proof. reflexivity. Qed.

(** A commit that is not additive, with no region: the selected note stays
    selected. *)
Lemma computeSelectedNotes_no_region_witness :
  computeSelectedNotes twoInPattern false = twoInPattern.
Proof.
  apply (computeSelectedNotes_no_region twoInPattern false); reflexivity.
Defined.

(** The notes of the witness are in ascending order, and a bar to the left
    takes them to ticks 0 and 48: the amount is cut to -48. *)
Example shiftPos_in_order :
  ascending [noteAt 48 48 60 true; noteAt 96 48 62 true] /\
  option_map notePositions
    (shiftPos (editorOn [noteAt 48 48 60 true; noteAt 96 48 62 true]
                        ActionNone 12 0 0 0 0) (-192))
  = Some [0; 48].
Proof.
  split; [|reflexivity].
  repeat constructor; simpl; lia.
Qed.

(** When the check at the top fires, the offset in keys does not shrink
    by the excess over [NumKeys], as the offset in ticks does at the left
    (line 2394) and the offset in keys at the bottom (line 2402): line 2398
    subtracts where these add, and the offset grows by the excess. *)
Lemma boundOffKey_top_fires (NumOctaves : Z) (s : PianoRoll) (shift : bool)
  (off_key : Z) :
  movingNotes s shift = true ->
  NumKeys NumOctaves < m_moveBoundaryTop s + off_key ->
  0 <= m_moveBoundaryBottom s + off_key ->
  boundOffKey NumOctaves s shift off_key =
  off_key + (m_moveBoundaryTop s + off_key - NumKeys NumOctaves) /\
  off_key < boundOffKey NumOctaves s shift off_key.
Proof.
  intros Hm Ht Hb. unfold boundOffKey. rewrite Hm.
  destruct (Z.ltb_spec (NumKeys NumOctaves) (m_moveBoundaryTop s + off_key));
    [|lia].
  destruct (Z.ltb_spec
              (m_moveBoundaryBottom s
               + (off_key
                  - (NumKeys NumOctaves - (m_moveBoundaryTop s + off_key))))
              0); lia.
Qed.

(** C3.  The clamp of the shared offset is missed at the top.  Two selected
    notes on the keys 100 and 110 are dragged 15 keys up on a keyboard of
    120 keys: the shared offset that keeps the box on the keyboard is 10
    and would give the keys 110 and 120, but the check of line 2398 turns
    the offset 15 into 20 and the bound on each note (line 2442) puts both
    notes on key 120; the interval of 10 keys between them is lost.  The
    mirror image at the bottom, the keys 10 and 20 dragged 15 keys down, is
    clamped as a group to the keys 0 and 10. *)
Theorem dragNotes_top_check_flattens_group :
  NumKeys 10 = 120 /\
  dragOffKey 10 nearTop 20 = 15 /\
  boundOffKey 10 nearTop false 15 = 20 /\
  option_map noteKeys (dragNotes 10 192 nearTop 300 20 false false)
  = Some [120; 120] /\
  dragOffKey 10 nearBottom 380 = -15 /\
  boundOffKey 10 nearBottom false (-15) = -10 /\
  option_map noteKeys (dragNotes 10 192 nearBottom 300 380 false false)
  = Some [0; 10].
Proof. repeat split. Qed.

(** * Further properties of the editor *)

Section MoreFacts.

Variable NumOctaves : Z.
Variable DefaultTicksPerTact : Z.

(** ** Keys and the grid *)

(** X1.  [getKey] answers with a key of the keyboard, 0 to [NumKeys] - 1,
    for every y, and a pointer further down never gives a higher key. *)
Theorem getKey_on_keyboard_antitone (s : PianoRoll) (y1 y2 : Z) :
  0 < NumOctaves ->
  0 <= getKey NumOctaves s y1 < NumKeys NumOctaves /\
  (y1 <= y2 -> getKey NumOctaves s y2 <= getKey NumOctaves s y1).
Proof.
  intros HN. split; [now apply getKey_range|].
  intros Hy. unfold getKey, KeysPerOctave, KEY_LINE_HEIGHT.
  assert (Hq : Z.quot (keyAreaBottom s - 1 - y2) 12
               <= Z.quot (keyAreaBottom s - 1 - y1) 12)
    by (apply Z.quot_le_mono; lia).
  repeat match goal with
         | |- context [?a <? ?b] => destruct (Z.ltb_spec a b)
         | |- context [?a <=? ?b] => destruct (Z.leb_spec a b)
         end; lia.
Qed.

(** X2.  The quantized offset lies on the grid and quantizing it again
    changes nothing; an offset of less than one step, to the left or to the
    right, is quantized to 0, and offsets to the left and to the right are
    treated alike. *)
Theorem quantizeOffset_grid (t g : Z) :
  0 < g ->
  (exists k, quantizeOffset t g = k * g) /\
  quantizeOffset (quantizeOffset t g) g = quantizeOffset t g /\
  (Z.abs t < g -> quantizeOffset t g = 0) /\
  quantizeOffset (- t) g = - quantizeOffset t g.
Proof.
  intros Hg. unfold quantizeOffset, floor. repeat split.
  - now exists (Z.quot t g).
  - rewrite Z.quot_mul by lia. reflexivity.
  - intros Ht.
    assert (Hq : Z.quot (Z.abs t) (Z.abs g) = 0)
      by (apply Z.quot_small; lia).
    rewrite Z.quot_abs in Hq by lia. lia.
  - rewrite Z.quot_opp_l by lia. lia.
Qed.

(** ** What an update of a drag leaves alone *)

Lemma dragNote_keeps (s : PianoRoll) (shift : bool) (off_ticks off_key : Z)
  (v : DragVars) (n : Note.t) :
  let n' := fst (dragNote NumOctaves s shift off_ticks off_key v n) in
  Note.selected n' = Note.selected n /\
  Note.oldPos n' = Note.oldPos n /\
  Note.oldLength n' = Note.oldLength n /\
  Note.oldKey n' = Note.oldKey n /\
  Note.volume n' = Note.volume n /\
  Note.panning n' = Note.panning n /\
  (Note.selected n = false ->
   Actions_eqb (m_action s) ActionResizeNote && shift = false -> n' = n).
Proof.
  unfold dragNote.
  destruct (Actions_eqb (m_action s) ActionResizeNote && shift) eqn:E1;
    simpl;
    destruct (Note.selected n) eqn:E2; simpl;
    repeat match goal with
           | |- context [if ?c then _ else _] => destruct c; simpl
           end;
    repeat split; try reflexivity; try assumption; try discriminate.
Qed.

(** X3.  An update of a drag never touches the selection flag, the
    remembered state, the volume or the panning of a note, and unless a
    resize has shift held it leaves every note that is not selected exactly
    as it is. *)
Theorem dragNotes_frame (s : PianoRoll) (x y : Z) (alt shift : bool)
  (notes : list Note.t) :
  m_pattern s = Some notes ->
  exists s' notes',
    dragNotes NumOctaves DefaultTicksPerTact s x y alt shift = Some s' /\
    m_pattern s' = Some notes' /\
    Forall2 (fun n n' =>
               Note.selected n' = Note.selected n /\
               Note.oldPos n' = Note.oldPos n /\
               Note.oldLength n' = Note.oldLength n /\
               Note.oldKey n' = Note.oldKey n /\
               Note.volume n' = Note.volume n /\
               Note.panning n' = Note.panning n /\
               (Note.selected n = false ->
                Actions_eqb (m_action s) ActionResizeNote && shift = false ->
                n' = n))
            notes notes'.
Proof.
  intros Hp. unfold dragNotes. rewrite Hp.
  match goal with
  | |- context [dragLoop NumOctaves s shift ?ot ?ok ?v notes] =>
      generalize ot ok v
  end.
  intros ot ok v.
  assert (H : Forall2
                (fun n n' =>
                   Note.selected n' = Note.selected n /\
                   Note.oldPos n' = Note.oldPos n /\
                   Note.oldLength n' = Note.oldLength n /\
                   Note.oldKey n' = Note.oldKey n /\
                   Note.volume n' = Note.volume n /\
                   Note.panning n' = Note.panning n /\
                   (Note.selected n = false ->
                    Actions_eqb (m_action s) ActionResizeNote && shift = false ->
                    n' = n))
                notes (fst (dragLoop NumOctaves s shift ot ok v notes))).
  { clear Hp. revert v. induction notes as [|n rest IH]; intros v; simpl.
    - constructor.
    - pose proof (dragNote_keeps s shift ot ok v n) as Hn.
      destruct (dragNote NumOctaves s shift ot ok v n) as [n' v'].
      specialize (IH v').
      destruct (dragLoop NumOctaves s shift ot ok v' rest) as [rest' v''].
      simpl in *. now constructor. }
  destruct (dragLoop NumOctaves s shift ot ok v notes) as [notes' v'].
  simpl in H. eexists; exists notes'.
  split; [reflexivity|]. split; [reflexivity|]. exact H.
Qed.

(** ** Moving: the last update decides *)

(** The offsets of an update read nothing that an update of a move has
    written. *)
Lemma offsets_after_move (s : PianoRoll) (p : option (list Note.t))
  (x y : Z) (alt shift : bool) :
  let t := set_lenOfNewNotes (m_lenOfNewNotes s) (set_pattern p s) in
  movingNotes t shift = movingNotes s shift /\
  boundOffTicks t shift (dragOffTicks DefaultTicksPerTact t x alt) =
  boundOffTicks s shift (dragOffTicks DefaultTicksPerTact s x alt) /\
  boundOffKey NumOctaves t shift (dragOffKey NumOctaves t y) =
  boundOffKey NumOctaves s shift (dragOffKey NumOctaves s y) /\
  m_lenOfNewNotes t = m_lenOfNewNotes s /\
  forall q, set_lenOfNewNotes (m_lenOfNewNotes s) (set_pattern q t) =
            set_lenOfNewNotes (m_lenOfNewNotes s) (set_pattern q s).
Proof.
  destruct s; repeat split.
Qed.

(** X4.  While notes are moved an update computes the notes from their
    remembered state alone: after any update of the move, the next update
    gives what it would have given right after the press.  Nothing adds up
    over the updates of a gesture. *)
Theorem dragNotes_move_last_wins (s s1 : PianoRoll) (x1 y1 x2 y2 : Z)
  (alt1 shift1 alt2 shift2 : bool) :
  movingNotes s shift1 = true ->
  movingNotes s shift2 = true ->
  dragNotes NumOctaves DefaultTicksPerTact s x1 y1 alt1 shift1 = Some s1 ->
  dragNotes NumOctaves DefaultTicksPerTact s1 x2 y2 alt2 shift2 =
  dragNotes NumOctaves DefaultTicksPerTact s x2 y2 alt2 shift2.
Proof.
  intros Hm1 Hm2 H1. unfold dragNotes in H1.
  destruct (m_pattern s) as [notes|] eqn:Hp; [|discriminate].
  rewrite (dragLoop_moving NumOctaves s shift1 _ _ notes Hm1) in H1.
  injection H1 as <-.
  match goal with
  | |- context [set_pattern ?p s] => set (P := p)
  end.
  destruct (offsets_after_move s P x2 y2 alt2 shift2)
    as (Em & Et & Ek & El & Es).
  set (t := set_lenOfNewNotes (m_lenOfNewNotes s) (set_pattern P s)) in *.
  unfold dragNotes.
  assert (Hpt : m_pattern t = P) by reflexivity.
  rewrite Hpt, Hp. unfold P at 1.
  rewrite Et, Ek, El.
  rewrite (dragLoop_moving NumOctaves t shift2 _ _ _ (eq_trans Em Hm2)).
  rewrite (dragLoop_moving NumOctaves s shift2 _ _ notes Hm2).
  rewrite Es, map_map.
  erewrite map_ext; [reflexivity|].
  intros n. destruct n as [p l k vo pa [] op ol ok]; reflexivity.
Qed.

(** ** Resizing *)

Lemma dragNote_resizing (s : PianoRoll) (shift : bool) (off_ticks off_key : Z)
  (v : DragVars) (n : Note.t) :
  movingNotes s shift = false ->
  Actions_eqb (m_action s) ActionResizeNote
  || Actions_eqb (m_action s) ActionMoveNote = true ->
  Note.selected n = true ->
  let n' := fst (dragNote NumOctaves s shift off_ticks off_key v n) in
  Note.length n' = Z.max 1 (Note.oldLength n + off_ticks) /\
  Note.key n' = Note.key n.
Proof.
  intros Hm Ha Hs. unfold dragNote, movingNotes in *.
  destruct (m_action s); try discriminate Ha; simpl in *;
    destruct shift, (m_startedWithShift s); simpl in *;
    try discriminate Hm; rewrite ?Hs; simpl;
    destruct (Z.leb_spec (Note.oldLength n + off_ticks) 0); simpl;
    repeat match goal with
           | |- context [if ?c then _ else _] => destruct c; simpl
           end;
    split; try reflexivity; lia.
Qed.

(** X5.  Resizing, and the quick resize of a move with shift pressed after
    the press, give every selected note the length it had when the gesture
    started plus the offset of the pointer, but never less than 1 tick; the
    key of the note stays. *)
Theorem dragNotes_resize_length (s : PianoRoll) (x y : Z) (alt shift : bool)
  (notes : list Note.t) :
  m_pattern s = Some notes ->
  movingNotes s shift = false ->
  Actions_eqb (m_action s) ActionResizeNote
  || Actions_eqb (m_action s) ActionMoveNote = true ->
  exists s' notes',
    dragNotes NumOctaves DefaultTicksPerTact s x y alt shift = Some s' /\
    m_pattern s' = Some notes' /\
    Forall2 (fun n n' =>
               Note.selected n = true ->
               Note.length n' =
                 Z.max 1 (Note.oldLength n
                          + dragOffTicks DefaultTicksPerTact s x alt) /\
               1 <= Note.length n' /\
               Note.key n' = Note.key n)
            notes notes'.
Proof.
  intros Hp Hm Ha. unfold dragNotes. rewrite Hp.
  unfold boundOffTicks. rewrite Hm.
  match goal with
  | |- context [dragLoop NumOctaves s shift ?ot ?ok ?v notes] =>
      generalize ok v; set (off := ot)
  end.
  intros ok v.
  assert (H : Forall2
                (fun n n' =>
                   Note.selected n = true ->
                   Note.length n' = Z.max 1 (Note.oldLength n + off) /\
                   1 <= Note.length n' /\
                   Note.key n' = Note.key n)
                notes (fst (dragLoop NumOctaves s shift off ok v notes))).
  { clear Hp. revert v. induction notes as [|n rest IH]; intros v; simpl.
    - constructor.
    - pose proof (dragNote_resizing s shift off ok v n Hm Ha) as Hn.
      destruct (dragNote NumOctaves s shift off ok v n) as [n' v'].
      specialize (IH v').
      destruct (dragLoop NumOctaves s shift off ok v' rest) as [rest' v''].
      simpl in *. constructor; [|exact IH].
      intros Hs. destruct (Hn Hs) as [Hl Hk]. repeat split; try assumption.
      lia. }
  destruct (dragLoop NumOctaves s shift off ok v notes) as [notes' v'].
  simpl in H. eexists; exists notes'.
  split; [reflexivity|]. split; [reflexivity|]. exact H.
Qed.

(** ** Moving against the left and the bottom bound *)

(** X6.  When the box would pass tick 0 on the left, the offset in ticks of
    all selected notes is cut to the same amount: every selected note ends
    as far from tick 0 as it was from the left edge of the box, so the
    distances in time between the selected notes are kept and no position is
    negative. *)
Theorem dragNotes_left_bound (s : PianoRoll) (x y : Z) (alt shift : bool)
  (notes : list Note.t) :
  m_pattern s = Some notes ->
  movingNotes s shift = true ->
  boxCovers s notes ->
  m_moveBoundaryLeft s + dragOffTicks DefaultTicksPerTact s x alt < 0 ->
  exists s' notes',
    dragNotes NumOctaves DefaultTicksPerTact s x y alt shift = Some s' /\
    m_pattern s' = Some notes' /\
    Forall2 (fun n n' =>
               Note.selected n = true ->
               Note.pos n' = Note.oldPos n - m_moveBoundaryLeft s /\
               0 <= Note.pos n')
            notes notes'.
Proof.
  intros Hp Hm Hbox Hl. unfold dragNotes. rewrite Hp.
  rewrite (dragLoop_moving NumOctaves s shift _ _ notes Hm).
  eexists; eexists. split; [reflexivity|]. split; [reflexivity|].
  unfold boundOffTicks. rewrite Hm.
  destruct (Z.ltb_spec (m_moveBoundaryLeft s
                        + dragOffTicks DefaultTicksPerTact s x alt) 0);
    [|lia].
  clear Hp. induction notes as [|n rest IH]; simpl; constructor.
  - intros Hs. rewrite Hs. simpl.
    destruct (Hbox n (or_introl eq_refl) Hs) as [Hle _]. lia.
  - apply IH. intros m Hin. apply Hbox. now right.
Qed.

(** X7.  Likewise at the bottom: when the box lies on the keyboard and
    would pass key 0, every selected note ends as far above key 0 as it was
    above the bottom edge of the box. *)
Theorem dragNotes_bottom_bound (s : PianoRoll) (x y : Z) (alt shift : bool)
  (notes : list Note.t) :
  m_pattern s = Some notes ->
  movingNotes s shift = true ->
  boxCovers s notes ->
  0 <= m_moveBoundaryBottom s ->
  m_moveBoundaryTop s <= NumKeys NumOctaves ->
  m_moveBoundaryBottom s + dragOffKey NumOctaves s y < 0 ->
  exists s' notes',
    dragNotes NumOctaves DefaultTicksPerTact s x y alt shift = Some s' /\
    m_pattern s' = Some notes' /\
    Forall2 (fun n n' =>
               Note.selected n = true ->
               Note.key n' = Note.oldKey n - m_moveBoundaryBottom s /\
               0 <= Note.key n' <= NumKeys NumOctaves)
            notes notes'.
Proof.
  intros Hp Hm Hbox Hb0 Ht Hb. unfold dragNotes. rewrite Hp.
  rewrite (dragLoop_moving NumOctaves s shift _ _ notes Hm).
  eexists; eexists. split; [reflexivity|]. split; [reflexivity|].
  unfold boundOffKey. rewrite Hm.
  assert (Hnonempty : forall n, In n notes -> Note.selected n = true ->
            m_moveBoundaryBottom s <= Note.oldKey n <= m_moveBoundaryTop s)
    by (intros n Hin Hs; now destruct (Hbox n Hin Hs)).
  clear Hp Hbox. induction notes as [|n rest IH]; simpl; constructor.
  - intros Hs. rewrite Hs. simpl.
    pose proof (Hnonempty n (or_introl eq_refl) Hs) as Hk.
    destruct (Z.ltb_spec (NumKeys NumOctaves)
                (m_moveBoundaryTop s + dragOffKey NumOctaves s y)); [lia|].
    destruct (Z.ltb_spec (m_moveBoundaryBottom s
                          + dragOffKey NumOctaves s y) 0); [|lia].
    lia.
  - apply IH. intros m Hin. apply Hnonempty. now right.
Qed.

(** ** Committing a region *)

(** The test of a note against the region, with the region put in order:
    the key lies above the lower and not above the upper edge, and the note
    overlaps the ticks from the earlier to the later edge. *)
Lemma inSelection_normal (s : PianoRoll) (n : Note.t) :
  let a := m_selectStartTick s in
  let b := m_selectStartTick s + m_selectedTick s in
  let k := m_selectStartKey s in
  let l := m_selectStartKey s + m_selectedKeys s in
  inSelection s n =
  negb (Note.length n =? 0)
  && (Z.min k l <? Note.key n) && (Note.key n <=? Z.max k l)
  && (Z.min a b <? Note.pos n + hitLength n)
  && (Note.pos n <? Z.max a b).
Proof.
  unfold inSelection, hitLength. simpl.
  destruct (Z.ltb_spec (m_selectStartTick s + m_selectedTick s)
                       (m_selectStartTick s));
  destruct (Z.ltb_spec (m_selectStartKey s - m_startKey s + 1
                        + m_selectedKeys s)
                       (m_selectStartKey s - m_startKey s + 1));
  (destruct (Z.eqb_spec (Note.length n) 0) as [E|NE]; [reflexivity|]);
  simpl;
  repeat match goal with
         | |- context [Z.min ?x ?y] =>
             first [rewrite (Z.min_l x y) by lia | rewrite (Z.min_r x y) by lia]
         | |- context [Z.max ?x ?y] =>
             first [rewrite (Z.max_l x y) by lia | rewrite (Z.max_r x y) by lia]
         end;
  repeat match goal with
         | |- context [?x <? ?y] =>
             lazymatch goal with
             | H : x < y |- _ => fail
             | H : y <= x |- _ => fail
             | _ => destruct (Z.ltb_spec x y)
             end
         | |- context [?x <=? ?y] =>
             lazymatch goal with
             | H : x <= y |- _ => fail
             | H : y < x |- _ => fail
             | _ => destruct (Z.leb_spec x y)
             end
         end;
  simpl; try reflexivity; lia.
Qed.

Lemma selectNote_flag (s : PianoRoll) (shift : bool) (n : Note.t) :
  selectNote s shift n =
  Note.setSelected (Note.selected (selectNote s shift n)) n.
Proof.
  unfold selectNote.
  destruct shift; simpl; rewrite ?inSelection_setSelected;
    destruct (inSelection s n); destruct n; reflexivity.
Qed.

(** What a commit that is not additive makes of the notes. *)
Lemma computeSelectedNotes_matched (s : PianoRoll) (notes : list Note.t) :
  m_pattern s = Some notes ->
  noSelection s = false ->
  m_pattern (computeSelectedNotes s false) =
  Some (map (fun n => Note.setSelected (inSelection s n) n) notes).
Proof.
  intros Hp Hz. unfold computeSelectedNotes. rewrite Hz, Hp. simpl.
  f_equal. apply map_ext. intros n. unfold selectNote. simpl.
  rewrite inSelection_setSelected.
  destruct (inSelection s n); destruct n; reflexivity.
Qed.

(** X8.  A commit that is not additive, with a region that is not all
    zeros, leaves selected exactly the notes that the region matches, and
    changes nothing of a note but its selection flag; the region is all
    zeros afterwards. *)
Theorem computeSelectedNotes_replaces (s : PianoRoll) (notes : list Note.t) :
  m_pattern s = Some notes ->
  noSelection s = false ->
  m_pattern (computeSelectedNotes s false) =
    Some (map (fun n => Note.setSelected (inSelection s n) n) notes) /\
  noSelection (computeSelectedNotes s false) = true.
Proof.
  intros Hp Hz. split; [now apply computeSelectedNotes_matched|].
  unfold computeSelectedNotes. rewrite Hz, Hp. reflexivity.
Qed.

(** X9.  A commit takes the region away: committing again at once, additive
    or not, changes nothing. *)
Theorem computeSelectedNotes_again (s : PianoRoll) (shift shift' : bool) :
  computeSelectedNotes (computeSelectedNotes s shift) shift' =
  computeSelectedNotes s shift.
Proof.
  destruct (noSelection s) eqn:Hz.
  - assert (E : forall b, computeSelectedNotes s b = s)
      by (intros b; unfold computeSelectedNotes; now rewrite Hz).
    now rewrite !E.
  - assert (E : exists t, computeSelectedNotes s shift = removeSelection t)
      by (unfold computeSelectedNotes; rewrite Hz; eauto).
    destruct E as [t E]. rewrite E. reflexivity.
Qed.

(** X10.  The region may be given from either corner: with the start moved
    to the far edge and the span negated, in ticks or in keys, the same
    notes are matched. *)
Theorem inSelection_either_corner (s : PianoRoll) (n : Note.t) :
  inSelection
    (set_selection (m_selectStartTick s + m_selectedTick s)
                   (- m_selectedTick s)
                   (m_selectStartKey s) (m_selectedKeys s) s) n
  = inSelection s n /\
  inSelection
    (set_selection (m_selectStartTick s) (m_selectedTick s)
                   (m_selectStartKey s + m_selectedKeys s)
                   (- m_selectedKeys s) s) n
  = inSelection s n.
Proof.
  rewrite !inSelection_normal. cbn [m_selectStartTick m_selectedTick
    m_selectStartKey m_selectedKeys set_selection].
  split.
  - replace (m_selectStartTick s + m_selectedTick s + - m_selectedTick s)
      with (m_selectStartTick s) by lia.
    now rewrite (Z.min_comm (m_selectStartTick s + m_selectedTick s)),
                (Z.max_comm (m_selectStartTick s + m_selectedTick s)).
  - replace (m_selectStartKey s + m_selectedKeys s + - m_selectedKeys s)
      with (m_selectStartKey s) by lia.
    now rewrite (Z.min_comm (m_selectStartKey s + m_selectedKeys s)),
                (Z.max_comm (m_selectStartKey s + m_selectedKeys s)).
Qed.

(** ** Selecting all *)

(** Once the region has a first note, a further note that starts no
    earlier than the region only makes it grow. *)
Lemma selectAllNote_grows (v : SelectVars) (n : Note.t) :
  grown v -> selectStartTick v <= Note.pos n ->
  let v' := selectAllNote v n in
  grown v' /\
  selectStartTick v' = selectStartTick v /\
  selectStartKey v' <= selectStartKey v /\
  selectStartKey v + selectedKeys v <= selectStartKey v' + selectedKeys v' /\
  selectStartTick v + selectedTick v <= selectStartTick v' + selectedTick v' /\
  (0 < Note.length n -> covered v' n).
Proof.
  intros (Hf & Hk & Ht) Hpos. unfold selectAllNote, grown, covered.
  rewrite Hf.
  destruct (Z.ltb_spec 0 (Note.length n)) as [Hlen|Hlen];
    [|simpl; repeat split; try assumption; lia].
  rewrite !orb_false_r.
  destruct (Z.leb_spec (Note.key n) (selectStartKey v)); simpl;
    repeat match goal with
           | |- context [?a <? ?b] => destruct (Z.ltb_spec a b); simpl
           | |- context [?a <=? ?b] => destruct (Z.leb_spec a b); simpl
           end; repeat split; try reflexivity; lia.
Qed.

Lemma selectAll_fold_grown (notes : list Note.t) :
  forall v,
  grown v ->
  Forall (fun n => selectStartTick v <= Note.pos n) notes ->
  let v' := fold_left selectAllNote notes v in
  grown v' /\
  selectStartTick v' = selectStartTick v /\
  selectStartKey v' <= selectStartKey v /\
  selectStartKey v + selectedKeys v <= selectStartKey v' + selectedKeys v' /\
  selectStartTick v + selectedTick v <= selectStartTick v' + selectedTick v' /\
  Forall (fun n => 0 < Note.length n -> covered v' n) notes.
Proof.
  induction notes as [|n rest IH]; intros v Hg Hpos; simpl.
  - repeat split; try apply Hg; try lia. constructor.
  - inversion Hpos as [|? ? Hn Hrest]; subst.
    destruct (selectAllNote_grows v n Hg Hn) as (Hg1 & Es & Ek & Etop & Eend & Hc).
    assert (Hrest1 : Forall (fun m => selectStartTick (selectAllNote v n)
                                      <= Note.pos m) rest)
      by (rewrite Es; exact Hrest).
    destruct (IH (selectAllNote v n) Hg1 Hrest1)
      as (Hg2 & Es2 & Ek2 & Etop2 & Eend2 & Hc2).
    repeat split; try apply Hg2; try lia.
    constructor; [|exact Hc2].
    intros Hlen. specialize (Hc Hlen). unfold covered in *. lia.
Qed.

(** From the start: the region covers every note of positive length, if
    there is one; if there is none the loop has changed nothing. *)
Lemma selectAll_fold_first (notes : list Note.t) :
  ascending notes ->
  forall v, first_time v = true ->
  let v' := fold_left selectAllNote notes v in
  (v' = v /\ Forall (fun n => Note.length n <= 0) notes) \/
  (grown v' /\ Forall (fun n => 0 < Note.length n -> covered v' n) notes).
Proof.
  induction 1 as [|n rest Hrest IH Hn]; intros v Hf; simpl.
  - left. split; [reflexivity | constructor].
  - destruct (Z.ltb_spec 0 (Note.length n)) as [Hlen|Hlen].
    + right.
      assert (E : selectAllNote v n =
                  mkSelectVars false (Note.pos n) (Note.length n)
                               (Note.key n - 1) 1).
      { unfold selectAllNote. rewrite Hf.
        destruct (Z.ltb_spec 0 (Note.length n)); [|lia].
        rewrite !orb_true_r. f_equal; lia. }
      rewrite E.
      destruct (selectAll_fold_grown rest
                  (mkSelectVars false (Note.pos n) (Note.length n)
                                (Note.key n - 1) 1))
        as (Hg & Es & Ek & Etop & Eend & Hc).
      * unfold grown. simpl. lia.
      * simpl. exact Hn.
      * split; [exact Hg|]. constructor; [|exact Hc].
        intros _. unfold covered. simpl in *. lia.
    + assert (E : selectAllNote v n = v).
      { unfold selectAllNote.
        destruct (Z.ltb_spec 0 (Note.length n)); [lia | reflexivity]. }
      rewrite E. destruct (IH v Hf) as [[Ev Hall] | [Hg Hc]].
      * left. split; [exact Ev|]. now constructor.
      * right. split; [exact Hg|]. constructor; [lia | exact Hc].
Qed.

(** A note of positive length that the region covers is matched. *)
Lemma covered_inSelection (s : PianoRoll) (v : SelectVars) (n : Note.t) :
  grown v -> covered v n -> 0 < Note.length n ->
  inSelection
    (set_selection (selectStartTick v) (selectedTick v)
                   (selectStartKey v) (selectedKeys v) s) n = true.
Proof.
  intros (_ & Hk & Ht) (Hkey & Hpos & Hend) Hlen.
  rewrite inSelection_normal. unfold hitLength.
  cbn [m_selectStartTick m_selectedTick m_selectStartKey m_selectedKeys
       set_selection].
  destruct (Z.eqb_spec (Note.length n) 0); [lia|].
  destruct (Z.ltb_spec (Note.length n) 0); [lia|].
  rewrite Z.min_l, Z.max_r, Z.min_l, Z.max_r by lia.
  repeat match goal with
         | |- context [?a <? ?b] => destruct (Z.ltb_spec a b); simpl
         | |- context [?a <=? ?b] => destruct (Z.leb_spec a b); simpl
         end; try reflexivity; lia.
Qed.

Lemma Forall2_map_right {A B : Type} (R : A -> B -> Prop) (f : A -> B)
  (l : list A) :
  (forall a, In a l -> R a (f a)) -> Forall2 R l (map f l).
Proof.
  induction l as [|a l IH]; intros H; simpl; constructor.
  - apply H. now left.
  - apply IH. intros b Hb. apply H. now right.
Qed.

(** X11.  Select all: with the notes in ascending order of position,
    [selectAll] followed by a commit that is not additive leaves every note
    of positive length selected, and changes nothing of any note but its
    selection flag. *)
Theorem selectAll_then_commit (s : PianoRoll) (notes : list Note.t) :
  m_pattern s = Some notes ->
  ascending notes ->
  exists notes',
    m_pattern (computeSelectedNotes (selectAll s) false) = Some notes' /\
    Forall2 (fun n n' =>
               n' = Note.setSelected (Note.selected n') n /\
               (0 < Note.length n -> Note.selected n' = true))
            notes notes'.
Proof.
  intros Hp Hasc. unfold selectAll. rewrite Hp.
  set (v0 := mkSelectVars true (m_selectStartTick s) (m_selectedTick s)
                          (m_selectStartKey s) (m_selectedKeys s)).
  destruct (selectAll_fold_first notes Hasc v0 eq_refl)
    as [[Ev Hnone] | [Hg Hc]].
  - (* no note of positive length: the region is as it was *)
    rewrite Ev.
    set (t := set_selection _ _ _ _ s).
    assert (Hpt : m_pattern t = Some notes) by exact Hp.
    rewrite Forall_forall in Hnone.
    unfold computeSelectedNotes.
    destruct (noSelection t).
    + exists notes. split; [exact Hpt|].
      rewrite <- (map_id notes) at 2. apply Forall2_map_right.
      intros n Hn. specialize (Hnone n Hn).
      split; [symmetry; apply setSelected_same | lia].
    + rewrite Hpt. eexists. split; [reflexivity|].
      apply Forall2_map_right.
      intros n Hn. specialize (Hnone n Hn).
      split; [apply selectNote_flag | lia].
  - set (v := fold_left selectAllNote notes v0) in *.
    set (t := set_selection _ _ _ _ s).
    assert (Hpt : m_pattern t = Some notes) by exact Hp.
    assert (Hz : noSelection t = false).
    { unfold noSelection, t. cbn [m_selectStartTick m_selectedTick
        m_selectStartKey m_selectedKeys set_selection].
      destruct Hg as (_ & Hk & _).
      destruct (Z.eqb_spec (selectedKeys v) 0); [lia|].
      now rewrite !andb_false_r. }
    rewrite (computeSelectedNotes_matched t notes Hpt Hz).
    eexists. split; [reflexivity|].
    rewrite Forall_forall in Hc.
    apply Forall2_map_right. intros n Hn.
    split; [reflexivity|]. intros Hlen. simpl.
    apply covered_inSelection; [exact Hg | now apply Hc | exact Hlen].
Qed.

(** ** The rubber band *)

(** What the press that starts a rubber band leaves in the editor. *)
Lemma selectOnPress_start (s s1 : PianoRoll) (width x y : Z)
  (leftButton ctrl shift : bool) :
  selectOnPress NumOctaves s width x y leftButton ctrl shift = Some s1 ->
  m_pattern s1 = m_pattern s /\
  m_action s1 = ActionSelectNotes /\
  m_editMode s1 = ModeSelect /\
  m_selectStartTick s1 = pointerTick s x /\
  m_selectStartKey s1 = getKey NumOctaves s y /\
  (forall x' : Z, pointerTick s1 x' = pointerTick s x') /\
  (forall y' : Z, getKey NumOctaves s1 y' = getKey NumOctaves s y') /\
  m_startKey s1 = m_startKey s.
Proof.
  unfold selectOnPress. intros H.
  destruct (m_pattern s) as [notes|] eqn:Hp; [|discriminate].
  repeat match type of H with
         | (if ?c then _ else _) = _ =>
             destruct c eqn:?; try discriminate H
         end.
  injection H as <-.
  repeat split; try reflexivity; try (symmetry; exact Hp).
  match goal with
  | E : _ && EditModes_eqb ?m ModeSelect = true |- _ =>
      apply andb_prop in E as [_ E]; cbn; destruct m; try discriminate E;
      reflexivity
  end.
Qed.

(** Where the rubber band ends after the pointer has moved. *)
Lemma resizeSelection_region (s : PianoRoll) (x y : Z) :
  let s' := resizeSelection NumOctaves s x y in
  m_pattern s' = m_pattern s /\
  m_startKey s' = m_startKey s /\
  m_selectStartTick s' = m_selectStartTick s /\
  m_selectStartKey s' = m_selectStartKey s /\
  m_selectStartTick s' + m_selectedTick s' = Z.max 0 (pointerTick s x) /\
  m_selectStartKey s' + m_selectedKeys s' =
    (if getKey NumOctaves s y <=? m_selectStartKey s
     then getKey NumOctaves s y - 1
     else getKey NumOctaves s y).
Proof.
  unfold resizeSelection, pointerTick.
  cbn [m_pattern m_startKey m_selectStartTick m_selectedTick
       m_selectStartKey m_selectedKeys set_selection].
  repeat split.
  - match goal with
    | |- context [?a <? ?b] => destruct (Z.ltb_spec a b)
    end; lia.
  - destruct (Z.leb_spec (getKey NumOctaves s y) (m_selectStartKey s)); lia.
Qed.

(** X12.  The rubber band of the select tool: after a press at (x0, y0)
    that starts it, a move of the pointer to (x1, y1) and a commit that is
    not additive, the notes selected are those in the band between the tick
    of the press and the tick of the pointer, this one taken as 0 when left
    of tick 0, and between the key of the press and the key of the pointer;
    the row of the press belongs to the band only when the band was drawn
    downward or within the row. *)
Theorem rubber_band_selects (s s1 : PianoRoll) (width x0 y0 x1 y1 : Z)
  (ctrl shift : bool) (notes : list Note.t) :
  m_pattern s = Some notes ->
  selectOnPress NumOctaves s width x0 y0 true ctrl shift = Some s1 ->
  m_pattern
    (computeSelectedNotes (resizeSelection NumOctaves s1 x1 y1) false) =
  Some (map (fun n =>
               Note.setSelected
                 (inBand (pointerTick s x0) (Z.max 0 (pointerTick s x1))
                         (getKey NumOctaves s y0) (getKey NumOctaves s y1) n)
                 n) notes).
Proof.
  intros Hp H.
  destruct (selectOnPress_start _ _ _ _ _ _ _ _ H)
    as (Hp1 & _ & _ & Ht & Hk & Hptr & Hkey & _).
  destruct (resizeSelection_region s1 x1 y1)
    as (Hp2 & _ & Et & Ek & Eend & Etop).
  set (s2 := resizeSelection NumOctaves s1 x1 y1) in *.
  rewrite Hptr in Eend. rewrite Hkey, Hk in Etop.
  rewrite Ht in Et. rewrite Hk in Ek.
  assert (Hz : noSelection s2 = false).
  { unfold noSelection.
    destruct (Z.eqb_spec (m_selectedKeys s2) 0) as [E|_];
      [|now rewrite !andb_false_r].
    exfalso. rewrite E, Ek in Etop.
    destruct (Z.leb_spec (getKey NumOctaves s y1) (getKey NumOctaves s y0));
      lia. }
  rewrite (computeSelectedNotes_matched s2 notes); [|congruence|exact Hz].
  f_equal. apply map_ext. intros n. f_equal.
  rewrite inSelection_normal. cbv zeta. rewrite Eend, Etop, Et, Ek.
  unfold inBand.
  destruct (Z.leb_spec (getKey NumOctaves s y1) (getKey NumOctaves s y0)).
  - rewrite Z.min_r, Z.max_l by lia.
    replace (getKey NumOctaves s y1 - 1 <? Note.key n)
      with (getKey NumOctaves s y1 <=? Note.key n);
      [now rewrite !andb_assoc|].
    destruct (Z.leb_spec (getKey NumOctaves s y1) (Note.key n));
      destruct (Z.ltb_spec (getKey NumOctaves s y1 - 1) (Note.key n));
      try reflexivity; lia.
  - rewrite Z.min_l, Z.max_r by lia. now rewrite !andb_assoc.
Qed.

(** ** Deleting and counting *)

Lemma firstSelected_None (notes : list Note.t) :
  firstSelected notes = None -> filter unselected notes = notes.
Proof.
  induction notes as [|n rest IH]; simpl; intros H; [reflexivity|].
  unfold unselected at 1. destruct (Note.selected n); [discriminate|].
  simpl. f_equal. apply IH.
  destruct (firstSelected rest); [discriminate | reflexivity].
Qed.

Lemma firstSelected_Some (notes : list Note.t) (i : nat) :
  firstSelected notes = Some i ->
  filter unselected (removeNote i notes) = filter unselected notes /\
  List.length (filter Note.selected notes) =
    S (List.length (filter Note.selected (removeNote i notes))).
Proof.
  revert i. induction notes as [|n rest IH]; simpl; intros i H;
    [discriminate|].
  unfold unselected at 2. destruct (Note.selected n) eqn:Hs.
  - injection H as <-. simpl. split; reflexivity.
  - destruct (firstSelected rest) as [j|] eqn:Hj; [|discriminate].
    injection H as <-. simpl. unfold unselected at 1. rewrite Hs. simpl.
    destruct (IH j eq_refl) as [E1 E2]. split; [now f_equal | exact E2].
Qed.

Lemma deleteLoop_filter (notes : list Note.t) :
  deleteLoop notes = filter unselected notes.
Proof.
  funelim (deleteLoop notes).
  - rewrite H. now apply firstSelected_Some.
  - symmetry. now apply firstSelected_None.
Qed.

(** X13.  [deleteSelectedNotes] ends, for every pattern, with exactly the
    notes that were not selected, in the order they had; no selected note
    is left. *)
Theorem deleteSelectedNotes_removes_selected (s : PianoRoll) :
  m_pattern (deleteSelectedNotes s) =
    option_map (filter unselected) (m_pattern s) /\
  (forall notes', m_pattern (deleteSelectedNotes s) = Some notes' ->
                  isSelection notes' = false).
Proof.
  assert (E : m_pattern (deleteSelectedNotes s) =
              option_map (filter unselected) (m_pattern s)).
  { unfold deleteSelectedNotes.
    destruct (m_pattern s) as [notes|] eqn:Hp; simpl.
    - now rewrite deleteLoop_filter.
    - exact Hp. }
  split; [exact E|].
  intros notes' H. rewrite E in H.
  destruct (m_pattern s) as [notes|]; [|discriminate].
  injection H as <-. unfold isSelection.
  apply not_true_is_false. intros Hex.
  apply existsb_exists in Hex as (n & Hin & Hs).
  apply filter_In in Hin as [_ Hu]. unfold unselected in Hu.
  rewrite Hs in Hu. discriminate.
Qed.

Lemma getSelectedNotes_filter (s : PianoRoll) (notes acc : list Note.t) :
  m_pattern s = Some notes ->
  getSelectedNotes s acc = acc ++ filter Note.selected notes.
Proof.
  intros Hp. unfold getSelectedNotes. rewrite Hp. clear Hp.
  revert acc. induction notes as [|n rest IH]; intros acc; simpl.
  - now rewrite app_nil_r.
  - rewrite IH. destruct (Note.selected n); [|reflexivity].
    now rewrite <- app_assoc.
Qed.

Lemma selectionCount_filter (notes : list Note.t) :
  selectionCount notes =
  Z.of_nat (List.length (filter Note.selected notes)).
Proof.
  unfold selectionCount.
  assert (H : forall sum,
            fold_left (fun sum note =>
                         if Note.selected note then sum + 1 else sum)
                      notes sum =
            sum + Z.of_nat (List.length (filter Note.selected notes))).
  { induction notes as [|n rest IH]; intros sum; simpl; [lia|].
    rewrite IH. destruct (Note.selected n); simpl List.length; lia. }
  rewrite H. lia.
Qed.

(** X14.  The three ways to ask for the selection agree: [selectionCount]
    is the number of notes that [getSelectedNotes] collects, these are the
    selected notes in the order of the pattern, and [isSelection] says
    whether the count is positive. *)
Theorem selection_queries_agree (s : PianoRoll) (notes : list Note.t) :
  m_pattern s = Some notes ->
  getSelectedNotes s [] = filter Note.selected notes /\
  selectionCount notes = Z.of_nat (List.length (getSelectedNotes s [])) /\
  (isSelection notes = true <-> 0 < selectionCount notes).
Proof.
  intros Hp. rewrite (getSelectedNotes_filter s notes [] Hp). simpl.
  split; [reflexivity|]. split; [apply selectionCount_filter|].
  rewrite selectionCount_filter. unfold isSelection. clear Hp.
  induction notes as [|n rest IH]; simpl.
  - split; [discriminate | lia].
  - destruct (Note.selected n); simpl.
    + split; [lia | reflexivity].
    + exact IH.
Qed.

(** ** The end of a gesture *)

Lemma insertByPos_Permutation (n : Note.t) (l : list Note.t) :
  Permutation (insertByPos n l) (n :: l).
Proof.
  induction l as [|m rest IH]; simpl.
  - apply Permutation_refl.
  - destruct (Note.pos m <? Note.pos n).
    + eapply Permutation_trans; [apply perm_skip, IH | apply perm_swap].
    + apply Permutation_refl.
Qed.

Lemma rearrangeAllNotes_Permutation (notes : list Note.t) :
  Permutation (rearrangeAllNotes notes) notes.
Proof.
  induction notes as [|n rest IH]; simpl.
  - constructor.
  - eapply Permutation_trans; [apply insertByPos_Permutation|].
    now apply perm_skip.
Qed.

Lemma selectionCount_Permutation (l1 l2 : list Note.t) :
  Permutation l1 l2 -> selectionCount l1 = selectionCount l2.
Proof.
  intros H. rewrite !selectionCount_filter. f_equal.
  apply Permutation_length. clear -H.
  induction H; simpl.
  - constructor.
  - destruct (Note.selected x); [now constructor | assumption].
  - destruct (Note.selected x), (Note.selected y);
      try apply Permutation_refl. apply perm_swap.
  - eapply Permutation_trans; eassumption.
Qed.

Lemma isSelection_deselected (l : list Note.t) :
  isSelection (map (Note.setSelected false) l) = false.
Proof.
  unfold isSelection. apply not_true_is_false. intros Hex.
  apply existsb_exists in Hex as (n & Hin & Hs).
  apply in_map_iff in Hin as (m & <- & _). discriminate.
Qed.

(** X15.  Letting go of the left button after a move or a resize ends the
    gesture: the action is none again; if exactly one note was selected it
    is deselected, so that no note is selected, and otherwise the notes are
    the same notes with the same selection; only their order may have
    changed. *)
Theorem mouseReleaseEvent_ends_gesture (s : PianoRoll) (shift : bool)
  (notes : list Note.t) :
  m_pattern s = Some notes ->
  m_action s = ActionMoveNote \/ m_action s = ActionResizeNote ->
  exists s' notes',
    mouseReleaseEvent s true shift = Some s' /\
    m_action s' = ActionNone /\
    m_pattern s' = Some notes' /\
    (selectionCount notes = 1 ->
     Permutation notes' (map (Note.setSelected false) notes) /\
     isSelection notes' = false) /\
    (selectionCount notes <> 1 -> Permutation notes' notes).
Proof.
  intros Hp Ha. unfold mouseReleaseEvent.
  assert (Hns : Actions_eqb (m_action s) ActionSelectNotes = false)
    by (destruct Ha as [-> | ->]; reflexivity).
  rewrite Hns, andb_false_r. simpl.
  destruct Ha as [Ha | Ha]; rewrite Ha; simpl; rewrite Hp.
  - (* a move: the notes are put in order first *)
    cbn [m_pattern set_pattern].
    pose proof (rearrangeAllNotes_Permutation notes) as Hperm.
    rewrite (selectionCount_Permutation _ _ Hperm).
    destruct (Z.eqb_spec (selectionCount notes) 1) as [E|NE]; simpl.
    + eexists; eexists.
      split; [reflexivity|]. split; [reflexivity|].
      split; [reflexivity|]. split; [|intros NE; contradiction].
      intros _. split; [now apply Permutation_map|].
      apply isSelection_deselected.
    + eexists; eexists.
      split; [reflexivity|]. split; [reflexivity|].
      split; [reflexivity|]. split; [intros E; contradiction|].
      intros _. exact Hperm.
  - destruct (Z.eqb_spec (selectionCount notes) 1) as [E|NE]; simpl.
    + eexists; eexists.
      split; [reflexivity|]. split; [reflexivity|].
      split; [unfold clearSelectedNotes; rewrite Hp; reflexivity|].
      split; [|intros NE; contradiction].
      intros _. split; [apply Permutation_refl|].
      apply isSelection_deselected.
    + eexists; eexists.
      split; [reflexivity|]. split; [reflexivity|].
      split; [exact Hp|]. split; [intros E; contradiction|].
      intros _. apply Permutation_refl.
Qed.

(** ** Marked semitones *)

Lemma unique_descending_strict (l : list Z) :
  descending l -> strictlyDescending (unique l).
Proof.
  induction 1 as [|x l Hl IH Hx]; [constructor|].
  destruct l as [|z l]; [repeat constructor|].
  change (unique (x :: z :: l))
    with (if x =? z then unique (z :: l) else x :: unique (z :: l)).
  destruct (Z.eqb_spec x z) as [-> | Hne]; [assumption|].
  constructor; [assumption|].
  apply Forall_forall. intros b Hb. rewrite In_unique in Hb.
  rewrite Forall_forall in Hx. pose proof (Hx z (or_introl eq_refl)).
  pose proof (Hx b Hb).
  apply StronglySorted_inv in Hl as [_ Hz]. rewrite Forall_forall in Hz.
  destruct Hb as [<- | Hb]; [lia|]. specialize (Hz b Hb). lia.
Qed.

Lemma markSemiTone_marks (s : PianoRoll) (i : SemiToneMarkerAction)
  (y : Z) :
  exists l, m_markedSemiTones (markSemiTone NumOctaves s i y) =
            unique (qSortGreater l).
Proof. unfold markSemiTone. eexists. reflexivity. Qed.

(** X16.  Whatever the marker menu is asked to do, the marked semitones
    are afterwards in strictly descending order: sorted, and no key twice. *)
Theorem markSemiTone_strictly_descending (s : PianoRoll)
  (i : SemiToneMarkerAction) (menu_y : Z) :
  strictlyDescending (m_markedSemiTones (markSemiTone NumOctaves s i menu_y)).
Proof.
  destruct (markSemiTone_marks s i menu_y) as [l ->].
  apply unique_descending_strict, qSortGreater_descending.
Qed.

Lemma strictlyDescending_NoDup (l : list Z) :
  strictlyDescending l -> NoDup l.
Proof.
  induction 1 as [|x l Hl IH Hx]; constructor; [|assumption].
  intros Hin. rewrite Forall_forall in Hx. specialize (Hx x Hin). lia.
Qed.

Lemma strictlyDescending_ext (l1 l2 : list Z) :
  strictlyDescending l1 -> strictlyDescending l2 ->
  (forall k, In k l1 <-> In k l2) -> l1 = l2.
Proof.
  intros H1. revert l2.
  induction H1 as [|a l1 Hl1 IH Ha]; intros l2 H2 Hext.
  - destruct l2 as [|b l2]; [reflexivity|].
    destruct (proj2 (Hext b) (or_introl eq_refl)).
  - destruct H2 as [|b l2 Hl2 Hb].
    + destruct (proj1 (Hext a) (or_introl eq_refl)).
    + rewrite Forall_forall in Ha, Hb.
      assert (a = b) as <-.
      { destruct (proj1 (Hext a) (or_introl eq_refl)) as [E|Hin];
          [now symmetry|].
        destruct (proj2 (Hext b) (or_introl eq_refl)) as [E|Hin'];
          [assumption|].
        specialize (Ha b Hin'). specialize (Hb a Hin). lia. }
      f_equal. apply IH; [assumption|].
      intros k. split; intros Hk.
      * destruct (proj1 (Hext k) (or_intror Hk)) as [E|Hin];
          [|assumption].
        specialize (Ha k Hk). lia.
      * destruct (proj2 (Hext k) (or_intror Hk)) as [E|Hin];
          [|assumption].
        specialize (Hb k Hk). lia.
Qed.

Lemma In_eraseFirst (x k : Z) (l : list Z) :
  NoDup l -> (In k (eraseFirst x l) <-> In k l /\ k <> x).
Proof.
  induction 1 as [|y l Hy Hl IH]; simpl; [tauto|].
  destruct (Z.eqb_spec y x) as [-> | Hne].
  - split.
    + intros Hk. split; [now right|]. intros ->. contradiction.
    + intros [[E|Hk] Hn]; [congruence | assumption].
  - simpl. rewrite IH. split.
    + intros [<- | [Hk Hn]]; [split; [now left | assumption] | tauto].
    + intros [[E | Hk] Hn]; [now left | right; tauto].
Qed.

Lemma existsb_eqb_In (x : Z) (l : list Z) :
  existsb (Z.eqb x) l = true <-> In x l.
Proof.
  rewrite existsb_exists. split.
  - intros (y & Hy & E). apply Z.eqb_eq in E. now subst.
  - intros H. exists x. split; [assumption | apply Z.eqb_refl].
Qed.

Lemma toggled_marks (s : PianoRoll) (y k : Z) :
  NoDup (m_markedSemiTones s) ->
  In k (m_markedSemiTones
          (markSemiTone NumOctaves s stmaMarkCurrentSemiTone y)) <->
  (In k (m_markedSemiTones s) /\ k <> getKey NumOctaves s y) \/
  (k = getKey NumOctaves s y /\
   ~ In (getKey NumOctaves s y) (m_markedSemiTones s)).
Proof.
  intros Hnd. unfold markSemiTone. cbn [m_markedSemiTones set_markedSemiTones].
  rewrite In_unique, In_qSortGreater.
  set (key := getKey NumOctaves s y).
  destruct (existsb (Z.eqb key) (m_markedSemiTones s)) eqn:Hex.
  - apply existsb_eqb_In in Hex. rewrite In_eraseFirst by assumption.
    tauto.
  - assert (Hn : ~ In key (m_markedSemiTones s)).
    { intros Hin. apply existsb_eqb_In in Hin. congruence. }
    rewrite in_app_iff. simpl. split.
    + intros [Hk | [<- | []]]; [left; split; [assumption|] | now right].
      intros ->. contradiction.
    + intros [[Hk _] | [-> _]]; [now left | right; now left].
Qed.

Lemma set_markedSemiTones_back (s : PianoRoll) (m : list Z) :
  set_markedSemiTones (m_markedSemiTones s) (set_markedSemiTones m s) = s.
Proof. destruct s. reflexivity. Qed.

(** X17.  "Mark current semitone" is a toggle.  When the marks are in
    strictly descending order, as every call of [markSemiTone] leaves them,
    the key under the menu is marked afterwards exactly if it was not marked
    before, every other key keeps its mark, and a second call on the same
    key gives back the editor as it was. *)
Theorem markSemiTone_toggles (s : PianoRoll) (menu_y : Z) :
  strictlyDescending (m_markedSemiTones s) ->
  let key := getKey NumOctaves s menu_y in
  let s1 := markSemiTone NumOctaves s stmaMarkCurrentSemiTone menu_y in
  (forall k, In k (m_markedSemiTones s1) <->
             (In k (m_markedSemiTones s) /\ k <> key) \/
             (k = key /\ ~ In key (m_markedSemiTones s))) /\
  markSemiTone NumOctaves s1 stmaMarkCurrentSemiTone menu_y = s.
Proof.
  intros Hs key s1.
  pose proof (strictlyDescending_NoDup _ Hs) as Hnd.
  split; [intros k; now apply toggled_marks|].
  assert (H1 : strictlyDescending (m_markedSemiTones s1)).
  { destruct (markSemiTone_marks s stmaMarkCurrentSemiTone menu_y)
      as [l E].
    unfold s1. rewrite E.
    apply unique_descending_strict, qSortGreater_descending. }
  set (s2 := markSemiTone NumOctaves s1 stmaMarkCurrentSemiTone menu_y).
  assert (H2 : strictlyDescending (m_markedSemiTones s2)).
  { destruct (markSemiTone_marks s1 stmaMarkCurrentSemiTone menu_y)
      as [l E].
    unfold s2. rewrite E.
    apply unique_descending_strict, qSortGreater_descending. }
  assert (Em : m_markedSemiTones s2 = m_markedSemiTones s).
  { apply strictlyDescending_ext; [assumption..|].
    intros k. unfold s2.
    rewrite (toggled_marks s1 menu_y k (strictlyDescending_NoDup _ H1)).
    change (getKey NumOctaves s1 menu_y) with key.
    unfold s1.
    rewrite (toggled_marks s menu_y k Hnd).
    rewrite (toggled_marks s menu_y key Hnd).
    fold key.
    destruct (in_dec Z.eq_dec key (m_markedSemiTones s)) as [Hin | Hout];
      destruct (Z.eq_dec k key) as [-> | Hne]; tauto. }
  assert (E2 : s2 = set_markedSemiTones (m_markedSemiTones s2) s1)
    by reflexivity.
  assert (E1 : s1 = set_markedSemiTones (m_markedSemiTones s1) s)
    by reflexivity.
  rewrite E2, Em, E1. apply set_markedSemiTones_back.
Qed.

Lemma cap_step (cap i key : Z) :
  0 < cap -> 0 <= i -> 0 <= key ->
  Z.rem (i + cap - Z.rem key cap) cap = (i - key) mod cap.
Proof.
  intros Hc Hi Hk.
  rewrite (Z.rem_mod_nonneg key cap) by lia.
  pose proof (Z.mod_pos_bound key cap ltac:(lia)).
  rewrite Z.rem_mod_nonneg by lia.
  replace (i + cap - key mod cap) with ((i - key) + (key / cap + 1) * cap).
  - apply Z.mod_add. lia.
  - pose proof (Z.div_mod key cap ltac:(lia)). lia.
Qed.

(** X18.  "Mark current chord" with a chord that is no scale and is not
    empty keeps the old marks and adds marks from the key under the menu up
    to and including that key plus the chord's last interval: a key in
    this range is added when its distance to the reference key, modulo the
    chord's last interval (modulo the octave when that interval is 0), is
    an interval of the chord. *)
Theorem markSemiTone_chord_adds (s : PianoRoll) (menu_y : Z) :
  0 < NumOctaves ->
  isScale (m_chord s) = false -> chord_isEmpty (m_chord s) = false ->
  0 <= chord_last (m_chord s) ->
  let key := getKey NumOctaves s menu_y in
  let last := chord_last (m_chord s) in
  let cap := if last =? 0 then KeysPerOctave else last in
  forall k,
    In k (m_markedSemiTones
            (markSemiTone NumOctaves s stmaMarkCurrentChord menu_y)) <->
    In k (m_markedSemiTones s) \/
    (key <= k <= key + last /\
     hasSemiTone (m_chord s) ((k - key) mod cap) = true).
Proof.
  intros HN Hs He Hl key last cap k.
  unfold markSemiTone. cbn [m_markedSemiTones set_markedSemiTones].
  rewrite He, Hs. rewrite In_unique, In_qSortGreater, in_app_iff.
  unfold markedBy. rewrite Hs. cbn [orb]. fold key last cap.
  rewrite filter_In, In_upTo.
  pose proof (getKey_range NumOctaves s menu_y HN) as Hk. fold key in Hk.
  assert (Hc : 0 < cap).
  { unfold cap, KeysPerOctave. destruct (Z.eqb_spec last 0); lia. }
  split; (intros [H | [Hr Hh]]; [now left | right; split; [lia|]]).
  - rewrite <- cap_step by lia. exact Hh.
  - rewrite cap_step by lia. exact Hh.
Qed.

(** ** Presses that draw no note *)

Lemma underMouse_clickedOn (s : PianoRoll) (pos_ticks key_num : Z)
  (note : Note.t) :
  underMouse pos_ticks key_num note = true ->
  clickedOn s false pos_ticks key_num note = true.
Proof.
  unfold underMouse, clickedOn, Note.endPos. intros H.
  apply andb_prop in H as [H H4]. apply andb_prop in H as [H H3].
  apply andb_prop in H as [H1 H2].
  apply Z.ltb_lt in H4.
  destruct (Z.ltb_spec (Note.length note) 0); [lia|].
  rewrite H1, H2, H3. apply Z.ltb_lt in H4. now rewrite H4.
Qed.

Lemma find_rev_none {A : Type} (f : A -> bool) (l : list A) :
  find f (rev l) = None -> find f l = None.
Proof.
  intros H. destruct (find f l) as [a|] eqn:E; [|reflexivity].
  apply find_some in E as [Hin Hf].
  apply in_rev in Hin.
  now rewrite (find_none f (rev l) H a Hin) in Hf.
Qed.

(** X19.  A press draws a note only on empty canvas: when
    [mousePressEvent] creates a note, the left button went down without
    control, the draw tool is active, the pointer is right of the piano
    keys and below the top margin, not in the resize bar and not in the
    note edit area, and [noteUnderMouse] finds no note at that point,
    whatever the width of the widget. *)
Theorem newNoteOnPress_only_on_empty_canvas (s : PianoRoll) (x y : Z)
  (leftButton ctrl : bool) (note : Note.t) :
  newNoteOnPress NumOctaves DefaultTicksPerTact s x y leftButton ctrl
    = Some note ->
  leftButton = true /\ ctrl = false /\ m_editMode s = ModeDraw /\
  WHITE_KEY_WIDTH < x /\ PR_TOP_MARGIN < y <= noteEditTop s /\
  ~ (keyAreaBottom s < y < noteEditTop s) /\
  forall width, noteUnderMouse NumOctaves s width x y = Some None.
Proof.
  unfold newNoteOnPress, noteUnderMouse.
  destruct (m_pattern s) as [notes|]; [|discriminate].
  destruct (Z.ltb_spec (keyAreaBottom s) y) as [Hy1|Hy1];
    destruct (Z.ltb_spec y (noteEditTop s)) as [Hy2|Hy2];
    cbn [andb]; try discriminate;
    (destruct (Z.ltb_spec PR_TOP_MARGIN y) as [Hy3|Hy3];
       cbn [negb]; [|discriminate]);
    (destruct (Z.ltb_spec WHITE_KEY_WIDTH x) as [Hx|Hx];
       cbn [negb]; [|discriminate]);
    (destruct (Z.ltb_spec (noteEditTop s) y) as [Hy4|Hy4];
       [discriminate|]);
    (destruct leftButton; cbn [andb]; [|discriminate]);
    (destruct ctrl; cbn [andb negb];
       [destruct (m_editMode s); discriminate|]);
    (destruct (m_editMode s) eqn:Hm; try discriminate);
    cbn [EditModes_eqb];
    (destruct (noteClicked s false _ _ notes) eqn:Hc; [discriminate|]);
    intros _;
    (repeat split; try reflexivity; try lia; intros width).
  all: destruct (_ || _); [reflexivity|].
  all: unfold noteClicked in Hc; apply find_rev_none in Hc.
  all: destruct (find (underMouse _ _) notes) as [n|] eqn:E; [|reflexivity].
  all: apply find_some in E as [Hin Hu].
  all: apply (underMouse_clickedOn s) in Hu.
  all: now rewrite (find_none _ _ Hc n Hin) in Hu.
Qed.

(** ** Cut, copy and paste *)

Lemma firstSelected_None_count (notes : list Note.t) :
  firstSelected notes = None -> filter Note.selected notes = [].
Proof.
  induction notes as [|n rest IH]; simpl; intros H; [reflexivity|].
  destruct (Note.selected n); [discriminate|].
  apply IH. destruct (firstSelected rest); [discriminate | reflexivity].
Qed.

Lemma removeSelectedNotes_filter (selected_notes notes : list Note.t) :
  List.length selected_notes = List.length (filter Note.selected notes) ->
  removeSelectedNotes selected_notes notes = filter unselected notes.
Proof.
  unfold removeSelectedNotes. revert notes.
  induction selected_notes as [|a l IH]; intros notes Hlen; simpl.
  - destruct (firstSelected notes) as [i|] eqn:E.
    + apply firstSelected_Some in E as [_ E]. rewrite E in Hlen.
      discriminate.
    + symmetry. now apply firstSelected_None.
  - destruct (firstSelected notes) as [i|] eqn:E.
    + apply firstSelected_Some in E as [E1 E2]. rewrite <- E1.
      apply IH. rewrite E2 in Hlen. simpl in Hlen. congruence.
    + apply firstSelected_None_count in E. rewrite E in Hlen.
      discriminate.
Qed.

Lemma set_pattern_same (s : PianoRoll) (notes : list Note.t) :
  m_pattern s = Some notes -> set_pattern (Some notes) s = s.
Proof. destruct s. simpl. now intros ->. Qed.

(** X20.  To cut is to copy and then to delete: [cutSelectedNotes] leaves
    the clipboard as [copySelectedNotes] does and the editor as
    [deleteSelectedNotes] does, with or without a pattern and with or
    without a selection. *)
Theorem cutSelectedNotes_copies_and_deletes (s : PianoRoll)
  (clipboard : option (list Note.t)) :
  cutSelectedNotes s clipboard =
  (deleteSelectedNotes s, copySelectedNotes s clipboard).
Proof.
  unfold cutSelectedNotes, deleteSelectedNotes, copySelectedNotes.
  destruct (m_pattern s) as [notes|] eqn:Hp.
  - rewrite (getSelectedNotes_filter s notes [] Hp). cbn [app].
    rewrite deleteLoop_filter.
    destruct (filter Note.selected notes) as [|front rest] eqn:E.
    + rewrite <- (removeSelectedNotes_filter [] notes)
        by (now rewrite E).
      cbn [removeSelectedNotes fold_left].
      now rewrite (set_pattern_same s notes Hp).
    + rewrite (removeSelectedNotes_filter (front :: rest) notes)
        by (now rewrite E).
      reflexivity.
  - unfold getSelectedNotes. rewrite Hp. reflexivity.
Qed.

(** X21.  Copy and paste: after [copySelectedNotes] and [pasteNotes] the
    pattern holds its old notes, none of them selected, and one selected
    copy of each note that was selected, of the same length and key and
    displaced by the position of the time line minus the start of the bar
    of the first selected note. *)
Theorem copy_then_paste (s : PianoRoll) (notes : list Note.t)
  (clipboard : option (list Note.t)) :
  m_pattern s = Some notes ->
  isSelection notes = true ->
  exists front notes',
    hd_error (filter Note.selected notes) = Some front /\
    m_pattern (pasteNotes s (copySelectedNotes s clipboard)) = Some notes' /\
    let by_ticks :=
      m_timeLinePos s
      - Z.quot (Note.pos front) (ticksPerTact s) * ticksPerTact s in
    Permutation
      (map (fun n => (sound n, Note.selected n)) notes')
      (map (fun n => (sound n, false)) notes
       ++ map (fun n => ((Note.pos n + by_ticks, Note.length n, Note.key n),
                         true))
              (filter Note.selected notes)).
Proof.
  intros Hp Hsel. unfold copySelectedNotes.
  rewrite (getSelectedNotes_filter s notes [] Hp). simpl.
  destruct (filter Note.selected notes) as [|front rest] eqn:E.
  - exfalso. unfold isSelection in Hsel.
    apply existsb_exists in Hsel as (n & Hin & Hn).
    assert (Hf : In n (filter Note.selected notes))
      by (apply filter_In; now split).
    now rewrite E in Hf.
  - exists front. unfold pasteNotes, hasValidPattern, clearSelectedNotes.
    rewrite Hp. cbn [negb m_pattern set_pattern].
    eexists. split; [reflexivity|]. split; [reflexivity|].
    cbv zeta. unfold copy_to_clipboard. rewrite <- E.
    eapply Permutation_trans;
      [apply Permutation_map, paste_fold_Permutation|].
    rewrite map_app, !map_map.
    apply Permutation_app; apply Permutation_refl'.
    + reflexivity.
    + apply map_ext. intros n. unfold sound. simpl.
      do 3 f_equal. destruct s; simpl. lia.
Qed.

(** ** Shifting there and back *)

Lemma shiftPosAmount_unclamped (useAllNotes : bool) (amount : Z)
  (notes : list Note.t) :
  Forall (fun n => shiftsPos useAllNotes n = true ->
                   0 <= Note.pos n + amount) notes ->
  shiftPosAmount useAllNotes amount notes = amount.
Proof.
  induction 1 as [|n rest Hn _ IH]; simpl; [reflexivity|].
  destruct (shiftsPos useAllNotes n); [|exact IH].
  specialize (Hn eq_refl).
  destruct (Z.ltb_spec (Note.pos n + amount) 0); [lia | reflexivity].
Qed.

Lemma shiftPos_unclamped (s : PianoRoll) (notes : list Note.t)
  (amount : Z) :
  m_pattern s = Some notes ->
  Forall (fun n => shiftsPos (negb (isSelection notes)) n = true ->
                   0 <= Note.pos n + amount) notes ->
  exists s',
    shiftPos s amount = Some s' /\
    m_pattern s' =
      Some (map (fun n => if shiftsPos (negb (isSelection notes)) n
                          then Note.setPos (Note.pos n + amount) n
                          else n) notes).
Proof.
  intros Hp Hall. unfold shiftPos. rewrite Hp.
  pose proof (shiftPosLoop_first (negb (isSelection notes)) amount notes
                (m_moveBoundaryLeft s)) as E.
  rewrite (shiftPosAmount_unclamped _ _ _ Hall) in E.
  destruct (shiftPosLoop _ amount true _ notes) as [notes' boundary].
  simpl in E. subst notes'.
  eexists. split; reflexivity.
Qed.

(** X22.  Shifting there and back: when every note that [shiftPos] moves
    starts at tick 0 or later, before the shift and after it, a shift by
    [amount] followed by a shift by [- amount] puts every note back where
    it was: the notes of the pattern are the same as before. *)
Theorem shiftPos_there_and_back (s : PianoRoll) (notes : list Note.t)
  (amount : Z) :
  m_pattern s = Some notes ->
  Forall (fun n => shiftsPos (negb (isSelection notes)) n = true ->
                   0 <= Note.pos n /\ 0 <= Note.pos n + amount) notes ->
  exists s1 s2,
    shiftPos s amount = Some s1 /\
    shiftPos s1 (- amount) = Some s2 /\
    m_pattern s2 = Some notes.
Proof.
  intros Hp Hall.
  set (u := negb (isSelection notes)) in *.
  set (f := fun n => if shiftsPos u n
                     then Note.setPos (Note.pos n + amount) n else n).
  destruct (shiftPos_unclamped s notes amount Hp) as (s1 & E1 & P1).
  { eapply Forall_impl; [|exact Hall]. intros n H Hn. now apply H. }
  fold u in P1. fold f in P1.
  assert (Hsame : forall n, shiftsPos u (f n) = shiftsPos u n).
  { intros n. unfold f. destruct (shiftsPos u n) eqn:En; [|exact En].
    destruct n. exact En. }
  assert (Hsel : isSelection (map f notes) = isSelection notes).
  { unfold isSelection.
    assert (Hl : forall l, existsb Note.selected (map f l) =
                           existsb Note.selected l); [|apply Hl].
    induction l as [|n rest IH]; [reflexivity|].
    simpl. rewrite IH. f_equal. unfold f.
    destruct (shiftsPos u n); [now destruct n | reflexivity]. }
  destruct (shiftPos_unclamped s1 (map f notes) (- amount) P1)
    as (s2 & E2 & P2).
  { rewrite Hsel. fold u. apply Forall_forall. intros m Hm Hshift.
    apply in_map_iff in Hm as (n & <- & Hin).
    rewrite Hsame in Hshift.
    rewrite Forall_forall in Hall. destruct (Hall n Hin Hshift) as [H0 _].
    unfold f. rewrite Hshift. destruct n. simpl in *. lia. }
  exists s1, s2. split; [exact E1|]. split; [exact E2|].
  rewrite P2, Hsel. fold u. f_equal. rewrite map_map.
  rewrite <- (map_id notes) at 2. apply map_ext. intros n.
  rewrite Hsame. unfold f. destruct (shiftsPos u n); [|reflexivity].
  destruct n. unfold Note.setPos. simpl. f_equal. lia.
Qed.

(** ** Grabbing a note *)

Lemma lastIndex_Some (f : Note.t -> bool) (notes : list Note.t) (i : nat) :
  lastIndex f notes = Some i ->
  exists n, nth_error notes i = Some n /\ f n = true.
Proof.
  revert i. induction notes as [|m rest IH]; simpl; intros i H;
    [discriminate|].
  destruct (lastIndex f rest) as [j|].
  - injection H as <-. simpl. now apply IH.
  - destruct (f m) eqn:Hf; [|discriminate].
    injection H as <-. exists m. now split.
Qed.

(** What a press that grabs a note leaves behind, field by field. *)
Lemma grabOnPress_inv (s s' : PianoRoll) (width x y : Z)
  (leftButton ctrl shift : bool) (notes : list Note.t) :
  m_pattern s = Some notes ->
  grabOnPress NumOctaves s width x y leftButton ctrl shift = Some s' ->
  exists i current_note tail,
    nth_error notes i = Some current_note /\
    m_pattern s' =
      Some (let notes := map rememberStart notes in
            let notes :=
              if negb (Note.selected current_note)
              then selectAt i (map (Note.setSelected false) notes)
              else notes in
            if negb tail && shift then copySelected notes else notes) /\
    m_action s' = (if tail then ActionResizeNote else ActionMoveNote) /\
    (m_moveBoundaryLeft s', m_moveBoundaryRight s',
     m_moveBoundaryBottom s', m_moveBoundaryTop s') =
      (if negb (Note.selected current_note)
       then (Note.pos current_note, Note.endPos current_note,
             Note.key current_note, Note.key current_note)
       else match boundingBox (map rememberStart notes) with
            | Some box => box
            | None => (m_moveBoundaryLeft s, m_moveBoundaryRight s,
                       m_moveBoundaryBottom s, m_moveBoundaryTop s)
            end) /\
    m_startedWithShift s' = shift /\
    m_moveStartX s' = x /\ m_moveStartY s' = y /\
    m_mouseDownTick s' = m_currentPosition s /\
    m_mouseDownKey s' = m_startKey s /\
    m_currentPosition s' = m_currentPosition s /\
    m_startKey s' = m_startKey s /\
    m_ppt s' = m_ppt s /\ ticksPerTact s' = ticksPerTact s /\
    height s' = height s /\ m_notesEditHeight s' = m_notesEditHeight s.
Proof.
  intros Hp. unfold grabOnPress. rewrite Hp.
  destruct (_ && _); [discriminate|].
  destruct (_ && _); [discriminate|].
  destruct (negb (PR_TOP_MARGIN <? y)); [discriminate|].
  destruct (negb (WHITE_KEY_WIDTH <? x)); [discriminate|].
  destruct (noteEditTop s <? y); [discriminate|].
  destruct (_ && _); [|discriminate].
  destruct (lastIndex _ notes) as [i|]; [|discriminate].
  destruct (nth_error notes i) as [cur|] eqn:Hi; [|discriminate].
  set (tail := (_ <? _) && (0 <? Note.length cur)).
  intros H. exists i, cur, tail. split; [exact Hi|].
  destruct (Note.selected cur); cbn [negb] in H |- *.
  - destruct (boundingBox (map rememberStart notes))
      as [[[[l r] b] t]|]; injection H as <-; repeat split.
  - injection H as <-. repeat split.
Qed.

Lemma growBox_attained (notes : list Note.t) (P : Z -> Prop)
  (Q : Z -> Prop) :
  (forall n, In n notes -> Note.selected n = true ->
             P (Note.pos n) /\ Q (Note.key n)) ->
  forall box l r b t,
  (forall l0 r0 b0 t0, box = Some (l0, r0, b0, t0) ->
                       P l0 /\ Q b0 /\ Q t0) ->
  fold_left growBox notes box = Some (l, r, b, t) ->
  P l /\ Q b /\ Q t.
Proof.
  induction notes as [|n rest IH]; intros Hn box l r b t Hbox H.
  - simpl in H. now apply (Hbox l r b t).
  - simpl in H. apply (IH (fun m Hm => Hn m (or_intror Hm)) _ _ _ _ _)
      in H; [exact H|].
    intros l0 r0 b0 t0 E. unfold growBox in E.
    destruct (Note.selected n) eqn:Hs; [|now apply (Hbox l0 r0 b0 t0)].
    destruct (Hn n (or_introl eq_refl) Hs) as [Pn Qn].
    destruct box as [[[[l1 r1] b1] t1]|].
    + destruct (Hbox l1 r1 b1 t1 eq_refl) as (P1 & Q1 & Q2).
      injection E as <- <- <- <-. unfold qMin, qMax.
      repeat match goal with
             | |- context [?a <? ?c] => destruct (a <? c)
             end; repeat split; assumption.
    + injection E as <- <- <- <-. repeat split; assumption.
Qed.

Lemma growBox_Some (notes : list Note.t) (box : Z * Z * Z * Z) :
  fold_left growBox notes (Some box) <> None.
Proof.
  revert box. induction notes as [|n rest IH]; intros box; simpl;
    [discriminate|].
  unfold growBox. destruct (Note.selected n); [|apply IH].
  destruct box as [[[l r] b] t]. apply IH.
Qed.

Lemma boundingBox_Some (notes : list Note.t) (n : Note.t) :
  In n notes -> Note.selected n = true -> boundingBox notes <> None.
Proof.
  unfold boundingBox.
  assert (H : forall box, In n notes -> Note.selected n = true ->
                          fold_left growBox notes box <> None);
    [|apply H].
  induction notes as [|m rest IH]; intros box Hin Hs; [destruct Hin|].
  simpl. destruct Hin as [-> | Hin]; [|now apply IH].
  unfold growBox. rewrite Hs.
  destruct box as [[[[l r] b] t]|]; apply growBox_Some.
Qed.

Lemma selectAt_selected (i : nat) (notes : list Note.t) (n : Note.t) :
  In n (selectAt i (map (Note.setSelected false) notes)) ->
  Note.selected n = true ->
  exists m, nth_error notes i = Some m /\ n = Note.setSelected true m.
Proof.
  revert i. induction notes as [|m rest IH]; intros i Hin Hs.
  - destruct i; destruct Hin.
  - destruct i as [|i]; simpl in Hin.
    + destruct Hin as [<- | Hin].
      * exists m. split; [reflexivity | now destruct m].
      * apply in_map_iff in Hin as (k & <- & _). discriminate.
    + destruct Hin as [<- | Hin]; [discriminate|].
      simpl. now apply IH.
Qed.

Lemma selectAt_In (i : nat) (notes : list Note.t) (m : Note.t) :
  nth_error notes i = Some m ->
  In (Note.setSelected true m)
     (selectAt i (map (Note.setSelected false) notes)).
Proof.
  revert i. induction notes as [|k rest IH]; intros i H.
  - destruct i; discriminate.
  - destruct i as [|i]; simpl in *.
    + injection H as ->. left. now destruct m.
    + right. now apply IH.
Qed.

Lemma selectAt_Forall (P : Note.t -> Prop) (i : nat)
  (notes : list Note.t) :
  (forall n b, P n -> P (Note.setSelected b n)) ->
  Forall P notes ->
  Forall P (selectAt i (map (Note.setSelected false) notes)).
Proof.
  intros HP H. revert i.
  induction H as [|n rest Hn Hrest IH]; intros i;
    [destruct i; constructor|].
  destruct i as [|i]; simpl.
  - constructor.
    + replace (Note.setSelected true (Note.setSelected false n))
        with (Note.setSelected true n) by now destruct n.
      now apply HP.
    + apply Forall_forall. intros k Hk.
      apply in_map_iff in Hk as (k0 & <- & Hk0). apply HP.
      rewrite Forall_forall in Hrest. now apply Hrest.
  - constructor; [now apply HP | apply IH].
Qed.

Lemma copySelected_Permutation (notes : list Note.t) :
  Permutation (copySelected notes)
    (notes ++ map (Note.setSelected false) (filter Note.selected notes)).
Proof. apply (paste_fold_Permutation (Note.setSelected false)). Qed.

Lemma remembered_setSelected (n : Note.t) (b : bool) :
  remembered n -> remembered (Note.setSelected b n).
Proof. now destruct n. Qed.

(** The state after a press that grabs a note. *)
Lemma grabOnPress_facts (s s' : PianoRoll) (width x y : Z)
  (leftButton ctrl shift : bool) (notes : list Note.t) :
  m_pattern s = Some notes ->
  grabOnPress NumOctaves s width x y leftButton ctrl shift = Some s' ->
  exists notes',
    m_pattern s' = Some notes' /\
    (m_action s' = ActionMoveNote \/ m_action s' = ActionResizeNote) /\
    Forall remembered notes' /\
    (exists n, In n notes' /\ Note.selected n = true) /\
    boxCovers s' notes' /\
    (forall P Q : Z -> Prop,
       (forall n, In n notes' -> Note.selected n = true ->
                  P (Note.pos n) /\ Q (Note.key n)) ->
       P (m_moveBoundaryLeft s') /\ Q (m_moveBoundaryBottom s') /\
       Q (m_moveBoundaryTop s')) /\
    (forall alt, dragOffTicks DefaultTicksPerTact s' x alt = 0) /\
    dragOffKey NumOctaves s' y = 0.
Proof.
  intros Hp H.
  destruct (grabOnPress_inv s s' width x y leftButton ctrl shift notes Hp H)
    as (i & cur & tail & Hi & Hpat & Hact & Hbox & Hsh & Hx & Hy & Ht & Hk
        & Hc & Hsk & Hppt & Htpt & Hh & Hneh).
  set (notes1 := map rememberStart notes) in *.
  set (notes2 := if negb (Note.selected cur)
                 then selectAt i (map (Note.setSelected false) notes1)
                 else notes1) in *.
  set (notes' := if negb tail && shift then copySelected notes2
                 else notes2) in *.
  cbv zeta in Hpat. fold notes1 in Hpat. fold notes2 in Hpat.
  fold notes' in Hpat.
  assert (R1 : Forall remembered notes1).
  { apply Forall_forall. intros n Hn.
    apply in_map_iff in Hn as (m & <- & _). now destruct m. }
  assert (R2 : Forall remembered notes2).
  { unfold notes2. destruct (Note.selected cur); [exact R1|].
    apply selectAt_Forall; [apply remembered_setSelected | exact R1]. }
  assert (In1 : forall n, In n notes2 -> In n notes').
  { intros n Hn. unfold notes'. destruct (negb tail && shift); [|exact Hn].
    eapply Permutation_in;
      [apply Permutation_sym, copySelected_Permutation|].
    apply in_or_app. now left. }
  assert (In2 : forall n, In n notes' -> Note.selected n = true ->
                          In n notes2).
  { intros n Hn Hs. unfold notes' in Hn.
    destruct (negb tail && shift); [|exact Hn].
    eapply Permutation_in in Hn; [|apply copySelected_Permutation].
    apply in_app_or in Hn as [Hn | Hn]; [exact Hn|].
    apply in_map_iff in Hn as (m & <- & _). discriminate. }
  assert (Cur1 : In (rememberStart cur) notes1).
  { apply in_map. eapply nth_error_In. exact Hi. }
  assert (Sel : exists n, In n notes2 /\ Note.selected n = true).
  { unfold notes2. destruct (Note.selected cur) eqn:Hs.
    - exists (rememberStart cur). split; [exact Cur1 | exact Hs].
    - exists (Note.setSelected true (rememberStart cur)).
      split; [|reflexivity].
      apply selectAt_In. unfold notes1. rewrite nth_error_map, Hi.
      reflexivity. }
  assert (Box : (forall n, In n notes2 -> Note.selected n = true ->
                   m_moveBoundaryLeft s' <= Note.pos n /\
                   m_moveBoundaryBottom s' <= Note.key n
                     <= m_moveBoundaryTop s') /\
                (forall P Q : Z -> Prop,
                   (forall n, In n notes2 -> Note.selected n = true ->
                              P (Note.pos n) /\ Q (Note.key n)) ->
                   P (m_moveBoundaryLeft s') /\
                   Q (m_moveBoundaryBottom s') /\
                   Q (m_moveBoundaryTop s'))).
  { unfold notes2. destruct (Note.selected cur) eqn:Hs; cbn [negb] in *.
    - destruct (boundingBox notes1) as [[[[l r] b] t]|] eqn:Eb.
      + injection Hbox as El _ Eb' Et. rewrite El, Eb', Et. split.
        * apply (growBox_covers notes1 None l r b t Eb).
        * intros P Q HPQ.
          apply (growBox_attained notes1 P Q HPQ None l r b t);
            [discriminate | exact Eb].
      + exfalso. now apply (boundingBox_Some notes1 _ Cur1 Hs).
    - injection Hbox as El _ Eb' Et. rewrite El, Eb', Et. split.
      + intros n Hn Hsn.
        destruct (selectAt_selected i notes1 n Hn Hsn) as (m & Hm & ->).
        unfold notes1 in Hm. rewrite nth_error_map, Hi in Hm.
        injection Hm as <-. destruct cur; simpl. lia.
      + intros P Q HPQ.
        assert (Hin : In (Note.setSelected true (rememberStart cur))
                         (selectAt i (map (Note.setSelected false) notes1))).
        { apply selectAt_In. unfold notes1.
          rewrite nth_error_map, Hi. reflexivity. }
        destruct (HPQ _ Hin eq_refl) as [HP HQ].
        destruct cur; simpl in *. repeat split; assumption. }
  destruct Box as [Cover Tight].
  exists notes'. split; [exact Hpat|]. split.
  { rewrite Hact. destruct tail; [now right | now left]. }
  split.
  { unfold notes'. destruct (negb tail && shift); [|exact R2].
    eapply Permutation_Forall;
      [apply Permutation_sym, copySelected_Permutation|].
    apply Forall_app. split; [exact R2|].
    apply Forall_forall. intros n Hn.
    apply in_map_iff in Hn as (m & <- & Hm). apply filter_In in Hm as [Hm _].
    apply remembered_setSelected. rewrite Forall_forall in R2.
    now apply R2. }
  split.
  { destruct Sel as (n & Hn & Hs). exists n. split; [now apply In1|exact Hs]. }
  split.
  { intros n Hn Hs. pose proof (In2 n Hn Hs) as Hn2.
    rewrite Forall_forall in R2. destruct (R2 n Hn2) as (Ep & Ek & _).
    rewrite Ep, Ek. now apply Cover. }
  split.
  { intros P Q HPQ. apply Tight. intros n Hn Hs. apply HPQ; [|exact Hs].
    now apply In1. }
  split.
  - intros alt. unfold dragOffTicks. rewrite Hx, Ht, Hc.
    rewrite !Z.sub_diag. destruct alt; reflexivity.
  - unfold dragOffKey. rewrite Hy, Hk, Hsk. lia.
Qed.

(** X23.  A press that grabs a note starts a gesture as [dragNotes]
    expects it: the action is a move or a resize, every note remembers its
    present position, key and length, at least one note is selected, the
    box of the gesture is the bounding box of the selected notes (it covers
    them, and its left, bottom and top are each attained by a selected
    note), and at the point of the press the offsets of [dragNotes] are
    0. *)
Theorem grabOnPress_starts_gesture (s s' : PianoRoll) (width x y : Z)
  (leftButton ctrl shift : bool) (notes : list Note.t) :
  m_pattern s = Some notes ->
  grabOnPress NumOctaves s width x y leftButton ctrl shift = Some s' ->
  exists notes',
    m_pattern s' = Some notes' /\
    (m_action s' = ActionMoveNote \/ m_action s' = ActionResizeNote) /\
    Forall remembered notes' /\
    isSelection notes' = true /\
    boxCovers s' notes' /\
    (exists n, In n notes' /\ Note.selected n = true /\
               Note.pos n = m_moveBoundaryLeft s') /\
    (exists n, In n notes' /\ Note.selected n = true /\
               Note.key n = m_moveBoundaryBottom s') /\
    (exists n, In n notes' /\ Note.selected n = true /\
               Note.key n = m_moveBoundaryTop s') /\
    (forall alt, dragOffTicks DefaultTicksPerTact s' x alt = 0) /\
    dragOffKey NumOctaves s' y = 0.
Proof.
  intros Hp H.
  destruct (grabOnPress_facts s s' width x y leftButton ctrl shift notes
              Hp H)
    as (notes' & Hpat & Hact & Hrem & (n0 & Hn0 & Hs0) & Hcov & Htight
        & Ht & Hk).
  exists notes'. split; [exact Hpat|]. split; [exact Hact|].
  split; [exact Hrem|]. split.
  { unfold isSelection. apply existsb_exists. now exists n0. }
  split; [exact Hcov|].
  destruct (Htight
              (fun z => exists n, In n notes' /\ Note.selected n = true /\
                                  Note.pos n = z)
              (fun z => exists n, In n notes' /\ Note.selected n = true /\
                                  Note.key n = z))
    as (Hl & Hb & Htop).
  { intros n Hn Hs. split; exists n; repeat split; assumption. }
  repeat split; assumption.
Qed.

Lemma dragNote_still (s : PianoRoll) (shift : bool) (v : DragVars)
  (n : Note.t) :
  0 <= NumKeys NumOctaves ->
  shift_offset v = 0 ->
  remembered n ->
  (Note.selected n = true ->
   0 <= Note.pos n /\ 0 <= Note.key n <= NumKeys NumOctaves /\
   1 <= Note.length n) ->
  fst (dragNote NumOctaves s shift 0 0 v n) = n /\
  shift_offset (snd (dragNote NumOctaves s shift 0 0 v n)) = 0.
Proof.
  intros HN Hv (Ep & Ek & El) Hr.
  unfold dragNote, movingNotes. rewrite Hv, !Z.add_0_r, Z.sub_0_r, Ep.
  assert (Eshift : (if negb (Note.pos n =? 0)
                       && (Note.pos n =? shift_ref_pos v)
                    then Note.pos n else Note.pos n) = Note.pos n)
    by (destruct (negb (Note.pos n =? 0)
                  && (Note.pos n =? shift_ref_pos v)); reflexivity).
  rewrite Eshift, setPos_same.
  assert (Esame : (if Actions_eqb (m_action s) ActionResizeNote && shift
                   then n else n) = n)
    by (destruct (Actions_eqb (m_action s) ActionResizeNote && shift);
        reflexivity).
  rewrite Esame, Ep, Ek, El.
  destruct (Note.selected n) eqn:Hs; [|split; [reflexivity | exact Hv]].
  destruct (Hr eq_refl) as (Hpos & Hkey & Hlen).
  rewrite !qMax_spec, !qMin_spec.
  replace (Z.max 0 (Note.pos n)) with (Note.pos n) by lia.
  replace (Z.min (Z.max 0 (Note.key n)) (NumKeys NumOctaves))
    with (Note.key n) by lia.
  destruct (Z.leb_spec (Note.length n) 0); [lia|].
  assert (E1 : Note.setKey (Note.key n) (Note.setPos (Note.pos n) n) = n)
    by now destruct n.
  assert (E2 : Note.setLength (Note.length n) n = n) by now destruct n.
  rewrite E1, E2.
  destruct (m_action s), shift, (m_startedWithShift s); cbn;
    rewrite ?E2;
    try (split; [reflexivity | exact Hv]);
    destruct (shift_ref_pos v <? Note.pos n); cbn; rewrite ?Hv, ?E2;
    split; reflexivity.
Qed.

Lemma dragLoop_still (s : PianoRoll) (shift : bool)
  (notes : list Note.t) :
  0 <= NumKeys NumOctaves ->
  Forall remembered notes ->
  Forall (fun n => Note.selected n = true ->
                   0 <= Note.pos n /\ 0 <= Note.key n <= NumKeys NumOctaves /\
                   1 <= Note.length n) notes ->
  forall v, shift_offset v = 0 ->
  fst (dragLoop NumOctaves s shift 0 0 v notes) = notes.
Proof.
  intros HN Hrem. induction Hrem as [|n rest Hn _ IH]; intros Hr v Hv.
  - reflexivity.
  - inversion Hr as [|? ? Hrn Hrr]; subst. simpl.
    destruct (dragNote_still s shift v n HN Hv Hn Hrn) as [E1 E2].
    destruct (dragNote NumOctaves s shift 0 0 v n) as [n' v'].
    simpl in E1, E2. subst n'.
    specialize (IH Hrr v' E2).
    destruct (dragLoop NumOctaves s shift 0 0 v' rest) as [rest' v''].
    simpl in IH. now subst rest'.
Qed.

(** X24.  A press and no movement: after a press that has grabbed a note,
    a call of [dragNotes] for the point of the press, with any modifiers,
    leaves every note as it is, when the selected notes start at tick 0 or
    later, have keys on the keyboard and are at least one tick long. *)
Theorem grabOnPress_then_dragNotes_in_place (s s' : PianoRoll)
  (width x y : Z) (leftButton ctrl shift alt shift' : bool)
  (notes notes' : list Note.t) :
  0 <= NumKeys NumOctaves ->
  m_pattern s = Some notes ->
  grabOnPress NumOctaves s width x y leftButton ctrl shift = Some s' ->
  m_pattern s' = Some notes' ->
  Forall (fun n => Note.selected n = true ->
                   0 <= Note.pos n /\ 0 <= Note.key n <= NumKeys NumOctaves /\
                   1 <= Note.length n) notes' ->
  exists s'',
    dragNotes NumOctaves DefaultTicksPerTact s' x y alt shift' = Some s'' /\
    m_pattern s'' = Some notes'.
Proof.
  intros HN Hp H Hp' Hr.
  destruct (grabOnPress_facts s s' width x y leftButton ctrl shift notes
              Hp H)
    as (notes0 & Hpat & _ & Hrem & _ & _ & Htight & Ht & Hk).
  rewrite Hp' in Hpat. injection Hpat as <-.
  destruct (Htight (fun z => 0 <= z)
                   (fun z => 0 <= z <= NumKeys NumOctaves))
    as (Hl & Hb & Htop).
  { intros n Hn Hs. rewrite Forall_forall in Hr.
    destruct (Hr n Hn Hs) as (A & B & _). now split. }
  unfold dragNotes. rewrite Ht, Hk, Hp'.
  assert (Et : boundOffTicks s' shift' 0 = 0).
  { unfold boundOffTicks. destruct (movingNotes s' shift'); [|reflexivity].
    destruct (Z.ltb_spec (m_moveBoundaryLeft s' + 0) 0); [lia|reflexivity]. }
  assert (Ek : boundOffKey NumOctaves s' shift' 0 = 0).
  { unfold boundOffKey. destruct (movingNotes s' shift'); [|reflexivity].
    destruct (Z.ltb_spec (NumKeys NumOctaves) (m_moveBoundaryTop s' + 0));
      [lia|].
    destruct (Z.ltb_spec (m_moveBoundaryBottom s' + 0) 0);
      [lia|reflexivity]. }
  rewrite Et, Ek.
  pose proof (dragLoop_still s' shift' notes' HN Hrem Hr
                (mkDragVars 0 (-1) (m_lenOfNewNotes s')) eq_refl) as E.
  destruct (dragLoop NumOctaves s' shift' 0 0 _ notes') as [l v].
  simpl in E. subst l.
  eexists. split; reflexivity.
Qed.

Lemma lastIndex_None (f : Note.t -> bool) (notes : list Note.t) :
  lastIndex f notes = None <-> forall n, In n notes -> f n = false.
Proof.
  induction notes as [|m rest IH]; simpl.
  - split; [intros _ n [] | reflexivity].
  - destruct (lastIndex f rest) as [j|].
    + split; [discriminate|]. intros H.
      assert (Some j = None) by (apply IH; intros n Hn; apply H; now right).
      discriminate.
    + destruct (f m) eqn:Hm.
      * split; [discriminate|]. intros H.
        rewrite (H m (or_introl eq_refl)) in Hm. discriminate.
      * split; [|reflexivity]. intros _ n [<- | Hn]; [exact Hm|].
        now apply IH.
Qed.

Lemma lastIndex_noteClicked (s : PianoRoll) (edit_note : bool)
  (pos_ticks key_num : Z) (notes : list Note.t) :
  lastIndex (clickedOn s edit_note pos_ticks key_num) notes = None <->
  noteClicked s edit_note pos_ticks key_num notes = None.
Proof.
  rewrite lastIndex_None. unfold noteClicked. split.
  - intros H.
    destruct (find _ (rev notes)) as [n|] eqn:E; [|reflexivity].
    apply find_some in E as [Hin Hf]. apply in_rev in Hin.
    rewrite (H n Hin) in Hf. discriminate.
  - intros H n Hn. apply (find_none _ _ H). now apply in_rev in Hn.
Qed.


(** ** Editing a property, and the grid *)

(** X25.  Scribbling in the note edit area changes one property only:
    every note is left as it is or gets the new volume (in volume mode) or
    the new panning (in panning mode) and nothing else; a note of length 0
    is never changed, and while there is a selection no note outside it is
    changed.  The value is remembered for the notes drawn next. *)
Theorem editNoteProperties_one_property (s : PianoRoll)
  (mode : NoteEditMode) (x vol pan : Z) (notes : list Note.t) :
  m_pattern s = Some notes ->
  exists s' notes',
    editNoteProperties s mode x vol pan = Some s' /\
    m_pattern s' = Some notes' /\
    Forall2 (fun n n' =>
               (n' = n \/
                n' = match mode with
                     | NoteEditVolume => Note.setVolume vol n
                     | NoteEditPanning => Note.setPanning pan n
                     end) /\
               (Note.length n = 0 -> n' = n) /\
               (isSelection notes = true -> Note.selected n = false ->
                n' = n))
            notes notes' /\
    (m_lastNoteVolume s', m_lastNotePanning s') =
      match mode with
      | NoteEditVolume => (vol, m_lastNotePanning s)
      | NoteEditPanning => (m_lastNoteVolume s, pan)
      end.
Proof.
  intros Hp. unfold editNoteProperties. rewrite Hp.
  eexists; eexists. split; [reflexivity|].
  cbn [m_pattern m_lastNoteVolume m_lastNotePanning].
  split; [reflexivity|]. split; [|destruct mode; reflexivity].
  rewrite map_rev, rev_involutive.
  apply Forall2_map_right. intros n _.
  unfold inEditRange.
  destruct (Z.eqb_spec (Note.length n) 0) as [E0|N0].
  - rewrite andb_false_r. cbn. repeat split; auto.
  - destruct (_ && _ && _ && _) eqn:E.
    + split; [now right|]. split; [intros; contradiction|].
      intros Hsel Hn. rewrite Hsel, Hn in E.
      now rewrite andb_false_r in E.
    + repeat split; auto.
Qed.

Lemma quantization_set_lenOfNewNotes (s : PianoRoll) (len : Z) :
  quantization DefaultTicksPerTact (set_lenOfNewNotes len s) =
  quantization DefaultTicksPerTact s.
Proof.
  unfold quantization, newNoteLen.
  replace (m_quantizeModel (set_lenOfNewNotes len s))
    with (m_quantizeModel s) by now destruct s.
  replace (m_noteLenModel (set_lenOfNewNotes len s))
    with (m_noteLenModel s) by now destruct s.
  destruct (cb_value (m_quantizeModel s) =? 0); [|reflexivity].
  destruct (Z.ltb_spec 0 (cb_value (m_noteLenModel s))); [|reflexivity].
  destruct (Z.eqb_spec (cb_value (m_noteLenModel s)) 0); [lia|reflexivity].
Qed.

(** X26.  The grid does not depend on the length of the last note: with
    the quantization set to follow the note length, [quantization] asks
    [newNoteLen] only when a note length is chosen from the list, and then
    [newNoteLen] does not read [m_lenOfNewNotes].  So an update of a drag,
    which writes [m_lenOfNewNotes] when it resizes, leaves the grid where
    it is. *)
Theorem quantization_ignores_lenOfNewNotes (s : PianoRoll) (len : Z) :
  quantization DefaultTicksPerTact (set_lenOfNewNotes len s) =
  quantization DefaultTicksPerTact s /\
  forall x y alt shift s',
    dragNotes NumOctaves DefaultTicksPerTact s x y alt shift = Some s' ->
    quantization DefaultTicksPerTact s' = quantization DefaultTicksPerTact s.
Proof.
  split; [apply quantization_set_lenOfNewNotes|].
  intros x y alt shift s' H. unfold dragNotes in H.
  destruct (m_pattern s) as [notes|]; [|discriminate].
  destruct (dragLoop _ _ _ _ _ _ notes) as [notes' v].
  injection H as <-. rewrite quantization_set_lenOfNewNotes.
  unfold quantization, newNoteLen. now destruct s.
Qed.

End MoreFacts.

(** ** Further examples worked out *)

Lemma getKey_on_keyboard_antitone_witness :
  0 <= getKey 10 emptyRoll 100 < NumKeys 10 /\
  (100 <= 200 -> getKey 10 emptyRoll 200 <= getKey 10 emptyRoll 100).
Proof. apply (getKey_on_keyboard_antitone 10 emptyRoll 100 200). lia. Defined.

Lemma quantizeOffset_grid_witness :
  (exists k, quantizeOffset (-10) 16 = k * 16) /\
  quantizeOffset (quantizeOffset (-10) 16) 16 = quantizeOffset (-10) 16 /\
  (Z.abs (-10) < 16 -> quantizeOffset (-10) 16 = 0) /\
  quantizeOffset (- -10) 16 = - quantizeOffset (-10) 16.
Proof. apply (quantizeOffset_grid (-10) 16). lia. Defined.

Lemma dragNotes_frame_witness :
  let s := chordAndLater in
  let notes :=
    [noteAt 12 24 60 true; noteAt 12 24 64 false; noteAt 48 24 62 false] in
  exists s' notes',
    dragNotes 10 192 s 288 200 false false = Some s' /\
    m_pattern s' = Some notes' /\
    Forall2 (fun n n' =>
               Note.selected n' = Note.selected n /\
               Note.oldPos n' = Note.oldPos n /\
               Note.oldLength n' = Note.oldLength n /\
               Note.oldKey n' = Note.oldKey n /\
               Note.volume n' = Note.volume n /\
               Note.panning n' = Note.panning n /\
               (Note.selected n = false ->
                Actions_eqb (m_action s) ActionResizeNote && false = false ->
                n' = n))
            notes notes'.
Proof.
  apply (dragNotes_frame 10 192 chordAndLater 288 200 false false).
  reflexivity.
Defined.

Lemma dragNotes_move_last_wins_witness :
  exists s1,
    dragNotes 10 192 (twoNotes 0 50) 340 180 true false = Some s1 /\
    dragNotes 10 192 s1 310 190 false false =
    dragNotes 10 192 (twoNotes 0 50) 310 190 false false.
Proof.
  eexists. split; [reflexivity|].
  apply (dragNotes_move_last_wins 10 192 (twoNotes 0 50) _
           340 180 310 190 true false false false); reflexivity.
Defined.

Lemma dragNotes_resize_length_witness :
  let s := chordAndLater in
  let notes :=
    [noteAt 12 24 60 true; noteAt 12 24 64 false; noteAt 48 24 62 false] in
  exists s' notes',
    dragNotes 10 192 s 288 200 false false = Some s' /\
    m_pattern s' = Some notes' /\
    Forall2 (fun n n' =>
               Note.selected n = true ->
               Note.length n' =
                 Z.max 1 (Note.oldLength n + dragOffTicks 192 s 288 false) /\
               1 <= Note.length n' /\
               Note.key n' = Note.key n)
            notes notes'.
Proof.
  apply (dragNotes_resize_length 10 192 chordAndLater 288 200 false false);
    reflexivity.
Defined.

Lemma dragNotes_left_bound_witness :
  let s := twoNotes 20 50 in
  let notes := [noteAt 20 96 60 true; noteAt 50 100 62 true] in
  exists s' notes',
    dragNotes 10 192 s 260 200 true false = Some s' /\
    m_pattern s' = Some notes' /\
    Forall2 (fun n n' =>
               Note.selected n = true ->
               Note.pos n' = Note.oldPos n - m_moveBoundaryLeft s /\
               0 <= Note.pos n')
            notes notes'.
Proof.
  apply (dragNotes_left_bound 10 192 (twoNotes 20 50) 260 200 true false).
  - reflexivity.
  - reflexivity.
  - intros n [<- | [<- | []]] _; simpl; lia.
  - vm_compute. reflexivity.
Defined.

Lemma dragNotes_bottom_bound_witness :
  let s := lowNotes in
  let notes := [noteAt 0 96 5 true; noteAt 50 100 7 true] in
  exists s' notes',
    dragNotes 10 192 s 300 400 true false = Some s' /\
    m_pattern s' = Some notes' /\
    Forall2 (fun n n' =>
               Note.selected n = true ->
               Note.key n' = Note.oldKey n - m_moveBoundaryBottom s /\
               0 <= Note.key n' <= NumKeys 10)
            notes notes'.
Proof.
  apply (dragNotes_bottom_bound 10 192 lowNotes 300 400 true false).
  - reflexivity.
  - reflexivity.
  - intros n [<- | [<- | []]] _; simpl; lia.
  - simpl. lia.
  - vm_compute. discriminate.
  - vm_compute. reflexivity.
Defined.

Lemma computeSelectedNotes_replaces_witness :
  m_pattern (computeSelectedNotes regionOn false) =
    Some (map (fun n => Note.setSelected (inSelection regionOn n) n)
              [noteAt 0 48 60 true; noteAt 96 48 62 false]) /\
  noSelection (computeSelectedNotes regionOn false) = true.
Proof.
  apply (computeSelectedNotes_replaces regionOn); reflexivity.
Defined.

Lemma selectAll_then_commit_witness :
  exists notes',
    m_pattern (computeSelectedNotes (selectAll twoInPattern) false)
      = Some notes' /\
    Forall2 (fun n n' =>
               n' = Note.setSelected (Note.selected n') n /\
               (0 < Note.length n -> Note.selected n' = true))
            [noteAt 0 48 60 true; noteAt 96 48 62 false] notes'.
Proof.
  apply (selectAll_then_commit twoInPattern); [reflexivity|].
  repeat constructor; simpl; lia.
Defined.

Lemma rubber_band_selects_witness :
  let notes := [noteAt 0 48 60 true; noteAt 96 48 62 false] in
  exists s1,
    selectOnPress 10 twoInPattern 800 100 200 true true false = Some s1 /\
    m_pattern (computeSelectedNotes (resizeSelection 10 s1 300 350) false) =
    Some (map (fun n =>
                 Note.setSelected
                   (inBand (pointerTick twoInPattern 100)
                           (Z.max 0 (pointerTick twoInPattern 300))
                           (getKey 10 twoInPattern 200)
                           (getKey 10 twoInPattern 350) n)
                   n) notes).
Proof.
  eexists. split; [reflexivity|].
  apply (rubber_band_selects 10 twoInPattern _ 800 100 200 300 350 true false);
    reflexivity.
Defined.

Lemma deleteSelectedNotes_removes_selected_witness :
  m_pattern (deleteSelectedNotes twoInPattern)
    = Some [noteAt 96 48 62 false] /\
  isSelection [noteAt 96 48 62 false] = false.
Proof.
  destruct (deleteSelectedNotes_removes_selected twoInPattern) as [E H].
  split; [exact E | apply H; exact E].
Defined.

Lemma selection_queries_agree_witness :
  let notes := [noteAt 0 48 60 true; noteAt 96 48 62 false] in
  getSelectedNotes twoInPattern [] = filter Note.selected notes /\
  selectionCount notes
    = Z.of_nat (List.length (getSelectedNotes twoInPattern [])) /\
  (isSelection notes = true <-> 0 < selectionCount notes).
Proof. apply (selection_queries_agree twoInPattern). reflexivity. Defined.

Lemma mouseReleaseEvent_ends_gesture_witness :
  let notes := [noteAt 0 96 60 true; noteAt 50 100 62 true] in
  exists s' notes',
    mouseReleaseEvent (twoNotes 0 50) true false = Some s' /\
    m_action s' = ActionNone /\
    m_pattern s' = Some notes' /\
    (selectionCount notes = 1 ->
     Permutation notes' (map (Note.setSelected false) notes) /\
     isSelection notes' = false) /\
    (selectionCount notes <> 1 -> Permutation notes' notes).
Proof.
  apply (mouseReleaseEvent_ends_gesture (twoNotes 0 50) false);
    [reflexivity | left; reflexivity].
Defined.

Lemma markSemiTone_toggles_witness :
  let key := getKey 10 triadRoll 460 in
  let s1 := markSemiTone 10 triadRoll stmaMarkCurrentSemiTone 460 in
  (forall k, In k (m_markedSemiTones s1) <->
             (In k (m_markedSemiTones triadRoll) /\ k <> key) \/
             (k = key /\ ~ In key (m_markedSemiTones triadRoll))) /\
  markSemiTone 10 s1 stmaMarkCurrentSemiTone 460 = triadRoll.
Proof.
  apply (markSemiTone_toggles 10 triadRoll 460). repeat constructor.
Defined.

Lemma markSemiTone_chord_adds_witness :
  let key := getKey 10 triadRoll 483 in
  let last := chord_last (m_chord triadRoll) in
  let cap := if last =? 0 then KeysPerOctave else last in
  In 52 (m_markedSemiTones
           (markSemiTone 10 triadRoll stmaMarkCurrentChord 483)) <->
  In 52 (m_markedSemiTones triadRoll) \/
  (key <= 52 <= key + last /\
   hasSemiTone (m_chord triadRoll) ((52 - key) mod cap) = true).
Proof.
  refine (markSemiTone_chord_adds 10 triadRoll 483 _ _ _ _ 52).
  - lia.
  - reflexivity.
  - reflexivity.
  - vm_compute. discriminate.
Defined.

Lemma newNoteOnPress_only_on_empty_canvas_witness :
  exists note,
    newNoteOnPress 10 192 emptyRoll 100 200 true false = Some note /\
    (true = true /\ false = false /\ m_editMode emptyRoll = ModeDraw /\
     WHITE_KEY_WIDTH < 100 /\ PR_TOP_MARGIN < 200 <= noteEditTop emptyRoll /\
     ~ (keyAreaBottom emptyRoll < 200 < noteEditTop emptyRoll) /\
     forall width, noteUnderMouse 10 emptyRoll width 100 200 = Some None).
Proof.
  eexists. split; [reflexivity|].
  eapply (newNoteOnPress_only_on_empty_canvas 10 192 emptyRoll 100 200
            true false).
  reflexivity.
Defined.

Lemma copy_then_paste_witness :
  let s := twoInPattern in
  let notes := [noteAt 0 48 60 true; noteAt 96 48 62 false] in
  exists front notes',
    hd_error (filter Note.selected notes) = Some front /\
    m_pattern (pasteNotes s (copySelectedNotes s None)) = Some notes' /\
    let by_ticks :=
      m_timeLinePos s
      - Z.quot (Note.pos front) (ticksPerTact s) * ticksPerTact s in
    Permutation
      (map (fun n => (sound n, Note.selected n)) notes')
      (map (fun n => (sound n, false)) notes
       ++ map (fun n => ((Note.pos n + by_ticks, Note.length n, Note.key n),
                         true))
              (filter Note.selected notes)).
Proof. apply (copy_then_paste twoInPattern); reflexivity. Defined.

Lemma shiftPos_there_and_back_witness :
  exists s1 s2,
    shiftPos twoInPattern 96 = Some s1 /\
    shiftPos s1 (- 96) = Some s2 /\
    m_pattern s2 = Some [noteAt 0 48 60 true; noteAt 96 48 62 false].
Proof.
  apply (shiftPos_there_and_back twoInPattern); [reflexivity|].
  repeat apply Forall_cons; try apply Forall_nil; intros _; simpl; lia.
Defined.

Lemma grabOnPress_starts_gesture_witness :
  exists s',
    grabOnPress 10 twoInPattern 800 74 332 true false false = Some s' /\
    exists notes',
      m_pattern s' = Some notes' /\
      (m_action s' = ActionMoveNote \/ m_action s' = ActionResizeNote) /\
      Forall remembered notes' /\
      isSelection notes' = true /\
      boxCovers s' notes' /\
      (exists n, In n notes' /\ Note.selected n = true /\
                 Note.pos n = m_moveBoundaryLeft s') /\
      (exists n, In n notes' /\ Note.selected n = true /\
                 Note.key n = m_moveBoundaryBottom s') /\
      (exists n, In n notes' /\ Note.selected n = true /\
                 Note.key n = m_moveBoundaryTop s') /\
      (forall alt, dragOffTicks 192 s' 74 alt = 0) /\
      dragOffKey 10 s' 332 = 0.
Proof.
  eexists. split; [reflexivity|].
  apply (grabOnPress_starts_gesture 10 192 twoInPattern _ 800 74 332
           true false false [noteAt 0 48 60 true; noteAt 96 48 62 false]);
    reflexivity.
Defined.

Lemma grabOnPress_then_dragNotes_in_place_witness :
  exists s',
    grabOnPress 10 twoInPattern 800 74 332 true false false = Some s' /\
    exists s'',
      dragNotes 10 192 s' 74 332 false false = Some s'' /\
      m_pattern s'' = Some [noteAt 0 48 60 true; noteAt 96 48 62 false].
Proof.
  eexists. split; [reflexivity|].
  apply (grabOnPress_then_dragNotes_in_place 10 192 twoInPattern _ 800 74 332
           true false false false false
           [noteAt 0 48 60 true; noteAt 96 48 62 false]).
  - unfold NumKeys, KeysPerOctave. lia.
  - reflexivity.
  - reflexivity.
  - reflexivity.
  - repeat apply Forall_cons; try apply Forall_nil; intros Hs;
      try discriminate Hs; unfold NumKeys, KeysPerOctave; simpl; lia.
Defined.

Lemma editNoteProperties_one_property_witness :
  let s := twoInPattern in
  let notes := [noteAt 0 48 60 true; noteAt 96 48 62 false] in
  exists s' notes',
    editNoteProperties s NoteEditVolume 70 80 0 = Some s' /\
    m_pattern s' = Some notes' /\
    Forall2 (fun n n' =>
               (n' = n \/ n' = Note.setVolume 80 n) /\
               (Note.length n = 0 -> n' = n) /\
               (isSelection notes = true -> Note.selected n = false ->
                n' = n))
            notes notes' /\
    (m_lastNoteVolume s', m_lastNotePanning s') = (80, m_lastNotePanning s).
Proof.
  apply (editNoteProperties_one_property twoInPattern NoteEditVolume 70 80 0).
  reflexivity.
Defined.


Lemma quantization_ignores_lenOfNewNotes_witness :
  quantization 192 (set_lenOfNewNotes 7 chordAndLater)
    = quantization 192 chordAndLater /\
  exists s',
    dragNotes 10 192 chordAndLater 288 200 false false = Some s' /\
    m_lenOfNewNotes s' <> m_lenOfNewNotes chordAndLater /\
    quantization 192 s' = quantization 192 chordAndLater.
Proof.
  destruct (quantization_ignores_lenOfNewNotes 10 192 chordAndLater 7)
    as [E H].
  split; [exact E|].
  eexists. split; [reflexivity|]. split; [discriminate|].
  apply (H 288 200 false false). reflexivity.
Defined.
